(** * CRNSynthesis.solverCaller: a shallow embedding and its properties

    The development follows [CRNSynthesis/solverCaller.py]: the model-file
    editor ([edit_cost]), the solver invocation ([call_solver]), the
    cost-decreasing loop ([optimal_synthesis_decreasing_cost]), the three
    output parsers ([getCRNValues], twice, and [getCRNValuesFromJSON]), the
    assembly of a numeric model ([get_full_solution]), the derivative
    evaluator ([gradient_function]), the constructors and
    [single_synthesis]. [simulate_solutions] is left out: it is a call of
    [scipy.integrate.odeint] and a plot.

    Python values are modelled as the code has them: [str] as [string],
    [int] as [Z], [float] as IEEE binary64 ([PrimFloat.float]), a [dict]
    whose order does not matter as a [gmap], a [dict] that is iterated as an
    association list in iteration order, exceptions as the [Raise] case of
    [result]. *)

From Stdlib Require Import ZArith Floats Ascii String DecimalString QArith.
From Equations Require Import Equations.
From stdpp Require Import gmap strings list.

Set Warnings "-inexact-float,-clear-no-such-hyp".

Local Open Scope string_scope.
Local Open Scope list_scope.
Local Open Scope Z_scope.

(** ** Exceptions *)

Inductive exn : Type :=
| IOError
| KeyError
| IndexError
| TypeError
| ValueError
| AttributeError.

Inductive result (A : Type) : Type :=
| Ok (a : A)
| Raise (e : exn).
Arguments Ok {A} a.
Arguments Raise {A} e.

#[global] Instance result_ret : MRet result := fun _ a => Ok a.
#[global] Instance result_bind : MBind result := fun _ _ k r =>
  match r with
  | Ok a => k a
  | Raise e => Raise e
  end.

(** [for x in l: st = body(st, x)], which stops at the first exception *)
Fixpoint for_each {S A : Type} (body : S → A → result S) (st : S) (l : list A)
    : result S :=
  match l with
  | [] => Ok st
  | x :: rest => st' ← body st x; for_each body st' rest
  end.

(** ** The fragment of Python's [str] the module uses *)

Module Py.

Definition newline : ascii := "010"%char.
Definition tab : ascii := "009"%char.

(** [c in string.whitespace] *)
Definition isspace (c : ascii) : bool :=
  let n := nat_of_ascii c in
  ((9 <=? n)%nat && (n <=? 13)%nat) || (n =? 32)%nat.

Definition isdigit (c : ascii) : bool :=
  let n := nat_of_ascii c in (48 <=? n)%nat && (n <=? 57)%nat.

Definition isalpha (c : ascii) : bool :=
  let n := nat_of_ascii c in
  ((65 <=? n)%nat && (n <=? 90)%nat) || ((97 <=? n)%nat && (n <=? 122)%nat).

(** [s.startswith(p)] *)
Definition startswith (p s : string) : bool := String.prefix p s.

(** [sub in s] *)
Fixpoint contains (sub s : string) : bool :=
  String.prefix sub s ||
  match s with
  | EmptyString => false
  | String _ s' => contains sub s'
  end.

(** [c in s] for a one-character [c] *)
Fixpoint has_char (c : ascii) (s : string) : bool :=
  match s with
  | EmptyString => false
  | String d s' => bool_decide (c = d) || has_char c s'
  end.

(** [s.split(sep)] for a one-character separator: never empty. *)
Fixpoint split (sep : ascii) (s : string) : list string :=
  match s with
  | EmptyString => [EmptyString]
  | String c s' =>
      if bool_decide (c = sep) then EmptyString :: split sep s'
      else match split sep s' with
           | h :: t => String c h :: t
           | [] => [String c EmptyString]
           end
  end.

(** [sep.join(l)] *)
Fixpoint join (sep : string) (l : list string) : string :=
  match l with
  | [] => EmptyString
  | [x] => x
  | x :: l' => x +:+ sep +:+ join sep l'
  end.

Fixpoint lstrip (s : string) : string :=
  match s with
  | String c s' => if isspace c then lstrip s' else s
  | EmptyString => EmptyString
  end.

Fixpoint rstrip (s : string) : string :=
  match s with
  | EmptyString => EmptyString
  | String c s' =>
      match rstrip s' with
      | EmptyString => if isspace c then EmptyString else String c EmptyString
      | r => String c r
      end
  end.

(** [s.strip()] *)
Definition strip (s : string) : string := rstrip (lstrip s).

(** [s[n:]] *)
Fixpoint drop (n : nat) (s : string) : string :=
  match n, s with
  | O, _ => s
  | S n', String _ s' => drop n' s'
  | S _, EmptyString => EmptyString
  end.

(** [l[:-2]] *)
Definition drop_last2 {A} (l : list A) : list A :=
  take (length l - 2)%nat l.

(** [str(n)] and ["%s" % n] for an [int] *)
Definition str (n : Z) : string := NilZero.string_of_int (Z.to_int n).

(** the file iterator: [for line in f] yields each line with its
    terminating newline, and a last unterminated line if there is one *)
Fixpoint readlines (s : string) : list string :=
  match s with
  | EmptyString => []
  | String c s' =>
      if bool_decide (c = newline) then String c EmptyString :: readlines s'
      else match readlines s' with
           | h :: t => String c h :: t
           | [] => [String c EmptyString]
           end
  end.

(** [s.split()]: the maximal runs of non-whitespace characters.  [cur] is
    the run being read. *)
Fixpoint words_from (cur : string) (s : string) : list string :=
  match s with
  | EmptyString =>
      match cur with EmptyString => [] | _ => [String.rev cur] end
  | String c s' =>
      if isspace c then
        match cur with
        | EmptyString => words_from EmptyString s'
        | _ => String.rev cur :: words_from EmptyString s'
        end
      else words_from (String c cur) s'
  end.
Definition words (s : string) : list string := words_from EmptyString s.

(** [os.path.join(a, b)] for two components *)
Definition path_join (a b : string) : string :=
  if startswith "/" b then b
  else match a with
       | EmptyString => b
       | _ => if String.prefix "/" (String.rev a)
              then a +:+ b else a +:+ "/" +:+ b
       end.

End Py.

(** ** The fragment of [re] the parsers use

    A backtracking matcher in continuation-passing style: the continuation
    is the rest of the pattern, a failed continuation sends the matcher
    back to its last choice, so the first match in Python's order of
    preference is the one returned. Every quantifier of the module's
    patterns is over a one-character item. *)

Module Re.

Inductive regex : Type :=
| Eps
| Chr (c : ascii)
| Cls (p : ascii → bool)
| PlusLazy (p : ascii → bool)
| PlusGreedy (p : ascii → bool)
| Group (r : regex)
| Seq (r1 r2 : regex).

(** [.]: any character but a newline *)
Definition dot (c : ascii) : bool := negb (bool_decide (c = Py.newline)).
(** a bracketed set of characters *)
Definition one_of (set : string) (c : ascii) : bool := Py.has_char c set.
(** the class of letters, digits and the underscore *)
Definition word (c : ascii) : bool :=
  Py.isalpha c || bool_decide (c = "_"%char) || Py.isdigit c.
(** the class of digits and the dot *)
Definition digit_or_dot (c : ascii) : bool :=
  Py.isdigit c || bool_decide (c = "."%char).

Fixpoint lit (s : string) : regex :=
  match s with
  | EmptyString => Eps
  | String c s' => Seq (Chr c) (lit s')
  end.

Fixpoint cat (l : list regex) : regex :=
  match l with
  | [] => Eps
  | r :: l' => Seq r (cat l')
  end.

Section matcher.
Context {R : Type}.

(** a lazy star of a one-character item, then [k] *)
Fixpoint lazy_star (p : ascii → bool) (k : string → option R) (s : string)
    : option R :=
  match k s with
  | Some r => Some r
  | None =>
      match s with
      | String c s' => if p c then lazy_star p k s' else None
      | EmptyString => None
      end
  end.

(** a greedy star of a one-character item, then [k] *)
Fixpoint greedy_star (p : ascii → bool) (k : string → option R) (s : string)
    : option R :=
  match s with
  | String c s' =>
      if p c then
        match greedy_star p k s' with
        | Some r => Some r
        | None => k s
        end
      else k s
  | EmptyString => k s
  end.

Definition one (p : ascii → bool) (k : string → option R) (s : string)
    : option R :=
  match s with
  | String c s' => if p c then k s' else None
  | EmptyString => None
  end.
End matcher.

(** the text between the start [s] of a group and its end [s'] *)
Definition consumed (s s' : string) : string :=
  String.substring 0 (String.length s - String.length s') s.

(** [run r k s groups]: match [r] at the start of [s], then [k] on what
    is left; [groups] are the groups closed so far. *)
Fixpoint run (r : regex) (k : string → list string → option (list string))
    (s : string) (groups : list string) : option (list string) :=
  match r with
  | Eps => k s groups
  | Chr c => one (fun d => bool_decide (d = c)) (fun s' => k s' groups) s
  | Cls p => one p (fun s' => k s' groups) s
  | PlusLazy p => one p (lazy_star p (fun s' => k s' groups)) s
  | PlusGreedy p => one p (greedy_star p (fun s' => k s' groups)) s
  | Group r' => run r' (fun s' groups' => k s' (groups' ++ [consumed s s'])%list) s groups
  | Seq r1 r2 => run r1 (run r2 k) s groups
  end.

(** [r.match(s)]: anchored at the start of [s]; the result is
    [.groups()], [None] when there is no match. *)
Definition match_ (r : regex) (s : string) : option (list string) :=
  run r (fun _ groups => Some groups) s [].

End Re.

(** ** What the parsers return

    A bound is kept as the text the solver printed; [float] reads it later.
    [all_values] maps a variable to its first interval and ["time"] to the
    list of transition times. *)

Inductive scalar : Type :=
| SStr (s : string)
| SNum (x : float).

Inductive entry : Type :=
| Interval (lo hi : scalar)
| Times (ts : list scalar).

(** The two dictionaries of [getCRNValues]. *)
Record crn_values : Type := Values {
  constant_values : gmap string (string * string);
  all_values : gmap string entry
}.

(** ** The interpreter and the operating system

    What the module takes from outside the repository: the conversions
    between [str] and [float] of the interpreter, and the solver binary
    started by [subprocess.call], which reads and writes files and whose
    standard output is captured. The binary is taken to be there and to
    start, and the file opened for its standard output to be left to it:
    after the call that file holds what the process printed. *)

Class Python : Type := {
  (** [float(s)] for a [str]: [None] stands for [ValueError] *)
  float_of_str : string → option float;
  (** [str(x)] and ["%s" % x] for a [float] *)
  str_of_float : float → string;
  (** [subprocess.call(argv, stdout=f)]: the captured output and the files
      the process leaves behind *)
  subprocess_call : list string → gmap string string → string * gmap string string
}.

(** The files by path, the working directory, and what [print] wrote. *)
Record world : Type := World {
  files : gmap string string;
  cwd : string;
  console : list string
}.

Definition set_files (fs : gmap string string) (w : world) : world :=
  {| files := fs; cwd := cwd w; console := console w |}.

Definition print (s : string) (w : world) : world :=
  {| files := files w; cwd := cwd w; console := console w ++ [s] |}.

(** [open(path, 'r').read()] *)
Definition read_file (path : string) (w : world) : result string :=
  match files w !! path with
  | Some content => Ok content
  | None => Raise IOError
  end.

(** [open(path, 'w').write(content)] *)
Definition write_file (path content : string) (w : world) : world :=
  set_files (<[path := content]> (files w)) w.

(** The attributes [SolverCaller.__init__] and its subclasses set:
    [model_name] and [results_dir] are derived from [model_path] there, and
    [num_modes] is 2 when the caller passes none. [solver_path] is
    [isat_path] or [dreal_path]. *)
Record SolverCaller : Type := {
  model_path : string;
  model_name : string;
  results_dir : string;
  solver_path : string;
  num_modes : Z
}.

(** [for line_number, line in enumerate(lines)] *)
Definition enumerate {A} (l : list A) : list (nat * A) :=
  zip (seq 0 (length l)) l.

Module SolverCallerISAT.
Section isat.
Context `{Python}.
Variable self : SolverCaller.

(** The body of the loop of [edit_cost]: both tests read the line the
    iteration started with, both assignments go to the list. *)
Definition edit_cost_body (cost : Z) (lines : list string)
    (it : nat * string) : list string :=
  let '(line_number, line) := it in
  let lines :=
    if Py.contains "define MAX_COST = " line
    then <[line_number := "define MAX_COST = " +:+ Py.str cost +:+ "; "]> lines
    else lines in
  if Py.contains "define NO_COST_LIMIT = " line
  then if bool_decide (cost = 0)
       then <[line_number := "define NO_COST_LIMIT = 1;"]> lines
       else <[line_number := "define NO_COST_LIMIT = 0;"]> lines
  else lines.

Definition edit_cost_lines (cost : Z) (lines : list string) : list string :=
  foldl (edit_cost_body cost) lines (enumerate lines).

Definition edit_cost (cost : Z) (w : world) : result world :=
  content ← read_file (model_path self) w;
  let lines := Py.split Py.newline content in
  let lines := edit_cost_lines cost lines in
  Ok (write_file (model_path self) (Py.join (String Py.newline "") lines) w).

Definition call_solver (precision : float) (cost : Z) (otherPrams : string)
    (max_depth : Z) (msw : float) (w : world) : string * world :=
  let max_depth := if bool_decide (max_depth = 0) then num_modes self else max_depth in
  let msw := if PrimFloat.eqb msw 0 then PrimFloat.mul precision 5 else msw in
  let out_file :=
    Py.path_join (results_dir self)
      (model_name self +:+ "_" +:+ Py.str cost +:+ "_" +:+ str_of_float precision
       +:+ "-isat.txt") in
  let command :=
    solver_path self +:+ " --i " +:+ model_path self
    +:+ " --prabs=" +:+ str_of_float precision
    +:+ " --msw=" +:+ str_of_float msw
    +:+ " --max-depth=" +:+ Py.str max_depth
    +:+ " " +:+ otherPrams +:+ " " in
  let w := write_file out_file "" w in
  let w := print ("Calling solver!" +:+ String Py.newline " " +:+ command) w in
  let '(out, fs) := subprocess_call (Py.words command) (files w) in
  (out_file, set_files (<[out_file := out]> fs) w).

(** The [while cost >= min_cost] loop; its state is [cost] and
    [result_file_names]. *)
Equations? decreasing_cost_loop (min_cost : Z) (precision msw : float)
    (max_depth : Z) (cost : Z) (result_file_names : list string) (w : world)
    : result (list string * world)
    by wf (Z.to_nat (cost - min_cost + 1)) lt :=
  decreasing_cost_loop min_cost precision msw max_depth cost result_file_names w with
    decide (min_cost ≤ cost) => {
    | left _ with edit_cost cost w => {
      | Raise e := Raise e
      | Ok w1 with call_solver precision cost
                 " --ode-opts --continue-after-not-reaching-horizon"
                 max_depth msw w1 => {
        | (result_file_name, w2) :=
            decreasing_cost_loop min_cost precision msw max_depth (cost - 1)
              (result_file_names ++ [result_file_name]) w2 } }
    | right _ := Ok (result_file_names, w) }.
Proof. lia. Qed.

Definition optimal_synthesis_decreasing_cost (max_cost min_cost : Z)
    (precision msw : float) (max_depth : Z) (w : world)
    : result (list string * world) :=
  let max_depth := if bool_decide (max_depth = 0) then num_modes self else max_depth in
  decreasing_cost_loop min_cost precision msw max_depth max_cost [] w.

(** [p = re.compile(r"(.+?) \(.+?\):")] *)
Definition p : Re.regex :=
  Re.cat [Re.Group (Re.PlusLazy Re.dot); Re.lit " ("; Re.PlusLazy Re.dot; Re.lit "):"].

(** [p2 = re.compile(r".+?[\[\(](.+?),(.+?)[\]\)].+")] *)
Definition p2 : Re.regex :=
  Re.cat [Re.PlusLazy Re.dot; Re.Cls (Re.one_of "[(");
          Re.Group (Re.PlusLazy Re.dot); Re.Chr ","%char;
          Re.Group (Re.PlusLazy Re.dot); Re.Cls (Re.one_of "])");
          Re.PlusGreedy Re.dot].

(** the [if]/[elif] chain under [elif p2.match(line) and var_name] *)
Definition record_values (name : string) (values : string * string)
    (st : crn_values) : result crn_values :=
  if bool_decide (name = "time") then
    match all_values st !! "time" with
    | Some (Times ts) =>
        Ok (Values (constant_values st)
              (<["time" := Times (ts ++ [SStr values.2])]> (all_values st)))
    | Some (Interval _ _) => Raise AttributeError
    | None => Raise KeyError
    end
  else if bool_decide (all_values st !! name = None) then
    Ok (Values (<[name := values]> (constant_values st))
          (<[name := Interval (SStr values.1) (SStr values.2)]> (all_values st)))
  else if bool_decide (is_Some (constant_values st !! name)
                       ∧ constant_values st !! name ≠ Some values) then
    Ok (Values (delete name (constant_values st)) (all_values st))
  else Ok st.

(** The body of the loop of [getCRNValues]; its state is [var_name]
    ([None] for [False]) and the two dictionaries. *)
Definition getCRNValues_body (st : option string * crn_values) (line : string)
    : result (option string * crn_values) :=
  let '(var_name, vs) := st in
  match Re.match_ p line with
  | Some groups =>
      match groups with
      | g :: _ =>
          let var_name := Py.strip g in
          if Py.contains "solver" var_name || Py.contains "_trigger" var_name
             || bool_decide (var_name = "inputTime")
          then Ok (None, vs)
          else Ok (Some var_name, vs)
      | [] => Raise IndexError
      end
  | None =>
      match Re.match_ p2 line, var_name with
      | Some [lo; hi], Some name =>
          if bool_decide (name = "") then Ok st
          else vs ← record_values name (lo, hi) vs; Ok (var_name, vs)
      | _, _ => Ok st
      end
  end.

(** [getCRNValues] on the content of the file at [file_path] *)
Definition getCRNValues (content : string)
    : result (gmap string (string * string) * gmap string entry) :=
  st ← for_each getCRNValues_body
         (None, Values ∅ {["time" := Times []]}) (Py.readlines content);
  Ok (constant_values st.2, all_values st.2).

End isat.
End SolverCallerISAT.

(** ** The documents [json.load] returns

    A number is kept as its exact value, so that [==] on numbers is
    equality of values; an object is the association list of the [dict]
    built for it, with one binding for each key. *)

#[warnings="-register-all"]
Inductive json : Type :=
| JNull
| JBool (b : bool)
| JNum (q : Q)
| JStr (s : string)
| JArr (l : list json)
| JObj (l : list (string * json)).

Module Json.

Fixpoint assoc (k : string) (l : list (string * json)) : option json :=
  match l with
  | [] => None
  | (k', v) :: l' => if bool_decide (k = k') then Some v else assoc k l'
  end.

(** [j[k]] for a [str] key *)
Definition getitem (j : json) (k : string) : result json :=
  match j with
  | JObj l => match assoc k l with Some v => Ok v | None => Raise KeyError end
  | _ => Raise TypeError
  end.

Fixpoint chars (s : string) : list json :=
  match s with
  | EmptyString => []
  | String c s' => JStr (String c EmptyString) :: chars s'
  end.

(** [j[i]] for an [int] index that is not negative *)
Definition getindex (j : json) (i : nat) : result json :=
  match j with
  | JArr l => match l !! i with Some v => Ok v | None => Raise IndexError end
  | JStr s => match chars s !! i with Some v => Ok v | None => Raise IndexError end
  | JObj _ => Raise KeyError
  | _ => Raise TypeError
  end.

(** [for x in j] *)
Definition iter (j : json) : result (list json) :=
  match j with
  | JArr l => Ok l
  | JStr s => Ok (chars s)
  | JObj l => Ok (JStr <$> l.*1)
  | _ => Raise TypeError
  end.

Definition of_bool (b : bool) : Q := if b then 1%Q else 0%Q.

(** [a == b] *)
Fixpoint eqb (a b : json) {struct a} : bool :=
  match a, b with
  | JNull, JNull => true
  | JBool x, JBool y => Bool.eqb x y
  | JBool x, JNum q => Qeq_bool (of_bool x) q
  | JNum q, JBool x => Qeq_bool q (of_bool x)
  | JNum p, JNum q => Qeq_bool p q
  | JStr s, JStr t => bool_decide (s = t)
  | JArr l, JArr m =>
      (fix go (l m : list json) {struct l} : bool :=
         match l, m with
         | [], [] => true
         | x :: l', y :: m' => eqb x y && go l' m'
         | _, _ => false
         end) l m
  | JObj l, JObj m =>
      bool_decide (length l = length m) &&
      (fix go (l : list (string * json)) {struct l} : bool :=
         match l with
         | [] => true
         | (k, x) :: l' =>
             match assoc k m with
             | Some y => eqb x y && go l'
             | None => false
             end
         end) l
  | _, _ => false
  end.

End Json.

Module SolverCallerDReal.
Section dreal.
Context `{Python}.
Variable self : SolverCaller.

Definition edit_cost_body (cost : Z) (lines : list string)
    (it : nat * string) : list string :=
  let '(line_number, line) := it in
  let lines :=
    if Py.contains "define MAX_COST = " line
    then <[line_number := "#define MAX_COST " +:+ Py.str cost]> lines
    else lines in
  if Py.contains "define NO_COST_LIMIT = " line
  then if bool_decide (cost = 0)
       then <[line_number := "#define NO_COST_LIMIT 1"]> lines
       else <[line_number := "#define NO_COST_LIMIT 0;"]> lines
  else lines.

Definition edit_cost_lines (cost : Z) (lines : list string) : list string :=
  foldl (edit_cost_body cost) lines (enumerate lines).

Definition edit_cost (cost : Z) (w : world) : result world :=
  content ← read_file (model_path self) w;
  let lines := Py.split Py.newline content in
  let lines := edit_cost_lines cost lines in
  Ok (write_file (model_path self) (Py.join (String Py.newline "") lines) w).

Definition call_solver (precision : float) (cost : Z) (otherPrams : string)
    (max_depth : Z) (w : world) : string * world :=
  let max_depth := if bool_decide (max_depth = 0) then num_modes self else max_depth in
  let out_file :=
    Py.path_join (results_dir self)
      (model_name self +:+ "_" +:+ Py.str cost +:+ "_" +:+ str_of_float precision
       +:+ "-dreal.txt") in
  let command :=
    solver_path self +:+ " -k " +:+ Py.str max_depth +:+ " " +:+ model_path self
    +:+ " --precision " +:+ str_of_float precision
    +:+ " --proof " +:+ otherPrams in
  let w := write_file out_file "" w in
  let w := print ("Calling solver!" +:+ String Py.newline " " +:+ command) w in
  let '(out, fs) := subprocess_call (Py.words command) (files w) in
  (Py.path_join (cwd w)
     (model_name self +:+ "_" +:+ Py.str (num_modes self - 1) +:+ "_0.smt2.proof"),
   set_files (<[out_file := out]> fs) w).

Equations? decreasing_cost_loop (min_cost : Z) (precision : float)
    (max_depth : Z) (cost : Z) (result_file_names : list string) (w : world)
    : result (list string * world)
    by wf (Z.to_nat (cost - min_cost + 1)) lt :=
  decreasing_cost_loop min_cost precision max_depth cost result_file_names w with
    decide (min_cost ≤ cost) => {
    | left _ with edit_cost cost w => {
      | Raise e := Raise e
      | Ok w1 with call_solver precision cost "" max_depth w1 => {
        | (result_file_name, w2) :=
            decreasing_cost_loop min_cost precision max_depth (cost - 1)
              (result_file_names ++ [result_file_name]) w2 } }
    | right _ := Ok (result_file_names, w) }.
Proof. lia. Qed.

(** [msw] is accepted and ignored. *)
Definition optimal_synthesis_decreasing_cost (max_cost min_cost : Z)
    (precision msw : float) (max_depth : Z) (w : world)
    : result (list string * world) :=
  let max_depth :=
    if bool_decide (max_depth = 0)
    then if bool_decide (num_modes self = 0) then 2 else num_modes self
    else max_depth in
  decreasing_cost_loop min_cost precision max_depth max_cost [] w.

(** [p = re.compile(r"\t([A-Za-z_0-9]+) : [\[\(]([\d.]+?), ([\d.]+?)[\]\)]")] *)
Definition p : Re.regex :=
  Re.cat [Re.Chr Py.tab; Re.Group (Re.PlusGreedy Re.word); Re.lit " : ";
          Re.Cls (Re.one_of "[("); Re.Group (Re.PlusLazy Re.digit_or_dot);
          Re.lit ", "; Re.Group (Re.PlusLazy Re.digit_or_dot);
          Re.Cls (Re.one_of "])")].

(** the last [if]/[elif] of the loop *)
Definition record_values (name : string) (values : string * string)
    (st : crn_values) : crn_values :=
  if bool_decide (all_values st !! name = None) then
    Values (<[name := values]> (constant_values st))
           (<[name := Interval (SStr values.1) (SStr values.2)]> (all_values st))
  else if bool_decide (is_Some (constant_values st !! name)
                       ∧ constant_values st !! name ≠ Some values) then
    Values (delete name (constant_values st)) (all_values st)
  else st.

Definition getCRNValues_body (st : crn_values) (line : string) : result crn_values :=
  match Re.match_ p line with
  | Some [g0; g1; g2] =>
      let var_name := Py.strip g0 in
      let var_name := Py.join "_" (Py.drop_last2 (Py.split "_"%char var_name)) in
      if bool_decide (var_name = "inputTime") then Ok st
      else if bool_decide (var_name = "") && Py.startswith "time_" g0 then
        let time := Py.drop 5 (Py.strip g0) in
        match float_of_str g2 with
        | None => Raise ValueError
        | Some x =>
            match all_values st !! "time" with
            | Some (Times ts) =>
                Ok (Values (constant_values st)
                      (<["time" := Times (ts ++ [SNum x])]> (all_values st)))
            | Some (Interval _ _) => Raise AttributeError
            | None => Raise KeyError
            end
        end
      else if bool_decide (var_name = "") then Ok st
      else if Py.contains "mode_" var_name then Ok st
      else Ok (record_values var_name (g1, g2) st)
  | Some _ => Raise IndexError
  | None => Ok st
  end.

(** [getCRNValues] on the content of the file at [file_path]. The [print]
    of the two dictionaries before the [return] is left out. *)
Definition getCRNValues (content : string)
    : result (gmap string (string * string) * gmap string entry) :=
  st ← for_each getCRNValues_body
         (Values ∅ {["time" := Times []]}) (Py.readlines content);
  Ok (constant_values st, all_values st).

(** The state of the loop of [getCRNValuesFromJSON]. *)
Record json_parser : Type := JsonParser {
  json_constant_values : gmap string json;
  json_all_values : gmap string json
}.

(** [for v in t["values"]]: [single_value], with the [break] *)
Fixpoint single_value (interval : json) (values : list json) : result bool :=
  match values with
  | [] => Ok true
  | v :: rest =>
      e ← Json.getitem v "enclosure";
      if negb (Json.eqb e interval) then Ok false
      else single_value interval rest
  end.

Definition getCRNValuesFromJSON_body (st : json_parser) (t : json)
    : result json_parser :=
  key ← Json.getitem t "key";
  match key with
  | JStr key =>
      let var_name := Py.join "_" (Py.drop_last2 (Py.split "_"%char key)) in
      if bool_decide (var_name = "") then Ok st
      else
        values ← Json.getitem t "values";
        first ← Json.getindex values 0;
        interval ← Json.getitem first "enclosure";
        values ← Json.getitem t "values";
        values ← Json.iter values;
        single_value interval values ≫= λ single : bool,
        let constant_values :=
          if single then <[var_name := interval]> (json_constant_values st)
          else json_constant_values st in
        Ok (JsonParser constant_values (<[var_name := interval]> (json_all_values st)))
  | _ => Raise AttributeError
  end.

(** [getCRNValuesFromJSON] on the document [json.load] read *)
Definition getCRNValuesFromJSON (results : json)
    : result (gmap string json * gmap string json) :=
  traces ← Json.getitem results "traces";
  traces ← Json.getindex traces 0;
  traces ← Json.iter traces;
  st ← for_each getCRNValuesFromJSON_body (JsonParser ∅ ∅) traces;
  Ok (json_constant_values st, json_all_values st).

End dreal.
End SolverCallerDReal.

(** ** The fragment of SymPy the flows use

    Symbols, numbers, sums and products. A number is a binary64 float. A
    symbol of a flow is identified with its name: [str] of it is that name.
    What is SymPy's own is taken from it, in [Library]: how [sympify] reads a
    [str], and what the constructors [Add] and [Mul] make of two arguments
    when they bring their result to canonical form. *)

Module Sympy.

Inductive expr : Type :=
| Symbol (name : string)
| Number (x : float)
| Add (a b : expr)
| Mul (a b : expr).

(** [e.free_symbols] *)
Fixpoint free_symbols (e : expr) : gset string :=
  match e with
  | Symbol name => {[name]}
  | Number _ => ∅
  | Add a b | Mul a b => free_symbols a ∪ free_symbols b
  end.

(** What [sympify] makes of a [str]: the symbol of a name; an object that
    is no symbol, as [sympify("E")] is, the base of the natural logarithm;
    or an exception, for a text it cannot read. *)
Inductive sympified : Type :=
| SymbolOf (name : string)
| Other
| Fails (e : exn).

(** SymPy as the module uses it. [add a b] and [mul a b] are [Add(a, b)] and
    [Mul(a, b)], evaluated as SymPy does; [subs_other e name new] is
    [e.subs(sympify(name), new)] where [sympify(name)] is no symbol. The
    constructors bring in no symbol, and [sympify] reads ["SF"] as the
    symbol of that name. *)
Class Library : Type := {
  sympify : string → sympified;
  add : expr → expr → expr;
  mul : expr → expr → expr;
  subs_other : expr → string → float → expr;
  add_free_symbols : ∀ a b, free_symbols (add a b) ⊆ free_symbols a ∪ free_symbols b;
  mul_free_symbols : ∀ a b, free_symbols (mul a b) ⊆ free_symbols a ∪ free_symbols b;
  sympify_SF : sympify "SF" = SymbolOf "SF"
}.

(** [e.subs(Symbol(old), new)] for a numeric [new]: the arguments are
    substituted in, and an expression one of whose arguments changed is
    built again by its constructor; one that does not mention [old] is
    returned as it is. *)
Fixpoint subs `{Library} (e : expr) (old : string) (new : float) : expr :=
  match e with
  | Symbol name => if bool_decide (name = old) then Number new else Symbol name
  | Number x => Number x
  | Add a b =>
      if bool_decide (old ∈ free_symbols a ∪ free_symbols b)
      then add (subs a old new) (subs b old new)
      else Add a b
  | Mul a b =>
      if bool_decide (old ∈ free_symbols a ∪ free_symbols b)
      then mul (subs a old new) (subs b old new)
      else Mul a b
  end.

(** [e.subs(sympify(name), new)] for a numeric [new] *)
Definition subs_sympify `{Library} (e : expr) (name : string) (new : float)
    : result expr :=
  match sympify name with
  | SymbolOf old => Ok (subs e old new)
  | Other => Ok (subs_other e name new)
  | Fails err => Raise err
  end.

(** A key of the dictionary given to [evalf]: a [str], or a symbol. *)
Inductive key : Type :=
| KStr (s : string)
| KSym (name : string).

#[global] Instance key_eq_dec : EqDecision key.
Proof. solve_decision. Defined.

#[global] Instance key_countable : Countable key :=
  inj_countable'
    (fun k => match k with KStr s => inl s | KSym n => inr n end)
    (fun x => match x with inl s => KStr s | inr n => KSym n end)
    (fun k => match k with KStr _ | KSym _ => eq_refl end).

(** The value of [e] under [vals], when every symbol of [e] has one. A
    symbol is looked up as a symbol; when that fails [evalf] falls back on
    [subs], which reads a [str] key as the symbol of that name. *)
Fixpoint value (vals : gmap key float) (e : expr) : option float :=
  match e with
  | Symbol name =>
      match vals !! KSym name with
      | Some x => Some x
      | None => vals !! KStr name
      end
  | Number x => Some x
  | Add a b => x ← value vals a; y ← value vals b; Some (x + y)%float
  | Mul a b => x ← value vals a; y ← value vals b; Some (x * y)%float
  end.

(** [e.evalf(subs=vals)]: the number [e] evaluates to, or [e] as it is when
    one of its symbols has no value. In that case the releases of SymPy that
    run under Python 2, as this module does, evaluate the numbers of [e] and
    substitute nothing; the numbers here are floats already. *)
Definition evalf (vals : gmap key float) (e : expr) : expr :=
  match value vals e with
  | Some x => Number x
  | None => e
  end.

End Sympy.

(** ** The base class *)

(** What [get_full_solution] reads of a [CRNSketch]: the names
    [x["name"]] of [crn.derivatives]. *)
Record CRNSketch : Type := {
  derivatives : list string
}.

Module SolverCallerBase.
Section base.
Context `{Python} `{Sympy.Library}.
Import Sympy.

(** [float(x)] *)
Definition to_float (x : scalar) : result float :=
  match x with
  | SNum x => Ok x
  | SStr s => match float_of_str s with Some x => Ok x | None => Raise ValueError end
  end.

(** [v[i]] *)
Definition item (v : entry) (i : nat) : result scalar :=
  match v with
  | Interval lo hi => match [lo; hi] !! i with Some x => Ok x | None => Raise IndexError end
  | Times ts => match ts !! i with Some x => Ok x | None => Raise IndexError end
  end.

(** [(float(vals[val][0]) + float(vals[val][1])) / 2] *)
Definition mean_val (v : entry) : result float :=
  lo ← item v 0;
  lo ← to_float lo;
  hi ← item v 1;
  hi ← to_float hi;
  Ok ((lo + hi) / 2)%float.

(** [gradient_function(X, t, flow, species_list)]: [flow] is the
    dictionary in the order of its iteration. *)
Definition gradient_function (X : list float) (t : float)
    (flow : list (string * expr)) (species_list : list string)
    : result (list expr) :=
  vals ← for_each
           (fun (vals : gmap key float) (it : nat * string) =>
              let '(i, species) := it in
              match X !! i with
              | Some x => Ok (<[KSym species := x]> vals)
              | None => Raise IndexError
              end)
           {[KStr "t" := t]} (enumerate species_list);
  Ok ((fun it : string * expr => evalf vals it.2) <$> flow).

(** One round of [for val in vals] in [get_full_solution]; the state is
    [initial_conditions] and the dictionary [flow] of the caller. *)
Definition get_full_solution_body (var_names : list string)
    (st : gmap string float * list (string * expr)) (it : string * entry)
    : result (gmap string float * list (string * expr)) :=
  let '(initial_conditions, flow) := st in
  let '(val, v) := it in
  if bool_decide (val = "time") then Ok st
  else if bool_decide (val ∈ var_names) then
    m ← mean_val v;
    Ok (<[val := m]> initial_conditions, flow)
  else
    flow ← for_each
             (fun (done : list (string * expr)) (xe : string * expr) =>
                m ← mean_val v;
                e ← subs_sympify xe.2 val m;
                Ok (done ++ [(xe.1, e)])%list)
             [] flow;
    Ok (initial_conditions, flow).

(** [del d[k]] for the symbol of the name [k] *)
Definition del (k : string) (d : list (string * expr))
    : result (list (string * expr)) :=
  if bool_decide (k ∈ d.*1)
  then Ok (filter (fun xe : string * expr => xe.1 ≠ k) d)
  else Raise KeyError.

(** [del d[sympify(name)]]: the keys of [d] are symbols, and what is no
    symbol is no key. *)
Definition del_sympify (name : string) (d : list (string * expr))
    : result (list (string * expr)) :=
  match sympify name with
  | SymbolOf k => del k d
  | Other => Raise KeyError
  | Fails err => Raise err
  end.

(** [get_full_solution(crn, flow, vals, scale_factor)]: [vals] is the
    dictionary in the order of its iteration. The result is
    [initial_conditions], [parametrised_flow], and the dictionary [flow]
    of the caller as the call leaves it. *)
Definition get_full_solution (crn : CRNSketch) (flow : list (string * expr))
    (vals : list (string * entry)) (scale_factor : float)
    : result (gmap string float * list (string * expr) * list (string * expr)) :=
  let var_names := flow.*1 in
  st ← for_each (get_full_solution_body var_names) (∅, flow) vals;
  let '(initial_conditions, flow) := st in
  flow ← for_each
           (fun (done : list (string * expr)) (xe : string * expr) =>
              e ← subs_sympify xe.2 "SF" scale_factor;
              Ok (done ++ [(xe.1, e)])%list)
           [] flow;
  parametrised_flow ← for_each (fun d x => del_sympify x d) flow (derivatives crn);
  Ok (initial_conditions, parametrised_flow, flow).

End base.
End SolverCallerBase.

(** ** The fragment of [os.path] the constructor uses *)

Module OsPath.

(** [s.rfind(c)] for a one-character [c]: the last index of [c] in [s],
    [-1] when there is none *)
Fixpoint rfind (c : ascii) (s : string) : Z :=
  match s with
  | EmptyString => -1
  | String d s' =>
      let i := rfind c s' in
      if bool_decide (0 ≤ i) then i + 1
      else if bool_decide (d = c) then 0 else -1
  end.

(** [s[:i]] for an [i] that is not negative *)
Definition upto (i : Z) (s : string) : string := String.substring 0 (Z.to_nat i) s.

(** [s[i:]] for an [i] that is not negative *)
Definition from (i : Z) (s : string) : string := Py.drop (Z.to_nat i) s.

(** [c * n] *)
Fixpoint times (c : ascii) (n : nat) : string :=
  match n with
  | O => EmptyString
  | S n' => String c (times c n')
  end.

(** [s.rstrip(c)] for a one-character [c] *)
Fixpoint rstrip (c : ascii) (s : string) : string :=
  match s with
  | EmptyString => EmptyString
  | String d s' =>
      match rstrip c s' with
      | EmptyString => if bool_decide (d = c) then EmptyString else String d EmptyString
      | r => String d r
      end
  end.

(** [os.path.split(p)] *)
Definition split (p : string) : string * string :=
  let i := rfind "/" p + 1 in
  let head := upto i p in
  let tail := from i p in
  let head :=
    if bool_decide (head ≠ "") && bool_decide (head ≠ times "/" (String.length head))
    then rstrip "/" head else head in
  (head, tail).

(** The [while] loop of [splitext]: whether a character of [s], the text
    between the last separator and the last dot, is not a dot. *)
Fixpoint has_non_dot (s : string) : bool :=
  match s with
  | EmptyString => false
  | String c s' => if bool_decide (c ≠ "."%char) then true else has_non_dot s'
  end.

(** [os.path.splitext(p)] *)
Definition splitext (p : string) : string * string :=
  let sepIndex := rfind "/" p in
  let dotIndex := rfind "." p in
  if bool_decide (sepIndex < dotIndex)
     && has_non_dot (upto (dotIndex - (sepIndex + 1)) (from (sepIndex + 1) p))
  then (upto dotIndex p, from dotIndex p)
  else (p, "").

End OsPath.

(** ** The constructors, the inherited entry point, the result files *)

(** The directories of the file system, which [world] leaves out:
    [os.path.exists(path)], and [os.makedirs(path)], whose [None] stands for
    [OSError]. *)
Class FileSystem : Type := {
  path_exists : string → world → bool;
  makedirs : string → world → option world
}.

Module Constructor.
Section init.
Context `{FileSystem}.

(** [SolverCaller.__init__(model_path)]: [model_name], [results_dir], and the
    world once the results directory is there. [results_folder] is set and
    never read. *)
Definition base (model_path : string) (w : world) : option (string * string * world) :=
  let '(directory_name, file_name) := OsPath.split model_path in
  let '(model_name, _) := OsPath.splitext file_name in
  let results_dir := Py.path_join directory_name "results" in
  w ← (if negb (path_exists results_dir w) then makedirs results_dir w else Some w);
  Some (model_name, results_dir, w).

(** [SolverCallerISAT.__init__(model_path, isat_path, num_modes)] and
    [SolverCallerDReal.__init__(model_path, dreal_path, num_modes)], which
    differ in the name of the second attribute only; [num_modes=False] is
    [0]. *)
Definition init (model_path solver_path : string) (num_modes : Z) (w : world)
    : option (SolverCaller * world) :=
  '(model_name, results_dir, w) ← base model_path w;
  let num_modes := if bool_decide (num_modes = 0) then 2 else num_modes in
  Some ({| model_path := model_path; model_name := model_name;
           results_dir := results_dir; solver_path := solver_path;
           num_modes := num_modes |}, w).

End init.
End Constructor.

Module SolverCallerInherited.
Section inherited.
Variable self : SolverCaller.

(** [self.optimal_synthesis_decreasing_cost], the method of the subclass *)
Variable optimal_synthesis_decreasing_cost :
  Z → Z → float → float → Z → world → result (list string * world).

(** [single_synthesis(cost, precision, msw, max_depth)] *)
Definition single_synthesis (cost : Z) (precision msw : float) (max_depth : Z)
    (w : world) : result (list string * world) :=
  let max_depth := if bool_decide (max_depth = 0) then num_modes self else max_depth in
  optimal_synthesis_decreasing_cost cost cost precision msw max_depth w.

End inherited.
End SolverCallerInherited.

(** [getCRNValues(file_path)] of the two callers, with the [open] of the
    file. *)
Definition isat_getCRNValues_file (file_path : string) (w : world)
    : result (gmap string (string * string) * gmap string entry) :=
  content ← read_file file_path w;
  SolverCallerISAT.getCRNValues content.

Definition dreal_getCRNValues_file `{Python} (file_path : string) (w : world)
    : result (gmap string (string * string) * gmap string entry) :=
  content ← read_file file_path w;
  SolverCallerDReal.getCRNValues content.

(** * The vocabulary of the properties *)

(** ** The model-file editor *)

(** What [edit_cost] leaves in the place of one line. *)
Definition isat_max (cost : Z) : string :=
  "define MAX_COST = " +:+ Py.str cost +:+ "; ".
Definition isat_flag (cost : Z) : string :=
  if bool_decide (cost = 0) then "define NO_COST_LIMIT = 1;"
  else "define NO_COST_LIMIT = 0;".
Definition isat_line (cost : Z) (line : string) : string :=
  if Py.contains "define NO_COST_LIMIT = " line then isat_flag cost
  else if Py.contains "define MAX_COST = " line then isat_max cost
  else line.

Definition dreal_max (cost : Z) : string := "#define MAX_COST " +:+ Py.str cost.
Definition dreal_flag (cost : Z) : string :=
  if bool_decide (cost = 0) then "#define NO_COST_LIMIT 1"
  else "#define NO_COST_LIMIT 0;".
Definition dreal_line (cost : Z) (line : string) : string :=
  if Py.contains "define NO_COST_LIMIT = " line then dreal_flag cost
  else if Py.contains "define MAX_COST = " line then dreal_max cost
  else line.

(** [lines'] is [lines] with each line that holds the flag marker
    replaced by [flag], each other line that holds the cost marker
    replaced by [max], and the other lines as they were. *)
Definition rewritten (max flag : string) (lines lines' : list string) : Prop :=
  length lines' = length lines ∧
  ∀ (i : nat) line, lines !! i = Some line →
    (Py.contains "define NO_COST_LIMIT = " line = true → lines' !! i = Some flag)
    ∧ (Py.contains "define MAX_COST = " line = true →
       Py.contains "define NO_COST_LIMIT = " line = false →
       lines' !! i = Some max)
    ∧ (Py.contains "define MAX_COST = " line = false →
       Py.contains "define NO_COST_LIMIT = " line = false →
       lines' !! i = Some line).

(** ** The cost-decreasing loop *)

(** The cost schedule: [max_cost], [max_cost - 1], ..., [min_cost]; empty
    when [max_cost < min_cost]. *)
Definition schedule (max_cost min_cost : Z) : list Z :=
  (fun i : nat => max_cost - Z.of_nat i) <$> seq 0 (Z.to_nat (max_cost - min_cost + 1)).

(** One round of the loop of the iSAT caller. *)
Definition isat_round `{Python} (self : SolverCaller) (precision msw : float)
    (max_depth : Z)
    (st : list string * world) (cost : Z) : result (list string * world) :=
  w1 ← SolverCallerISAT.edit_cost self cost st.2;
  let r := SolverCallerISAT.call_solver self precision cost
             " --ode-opts --continue-after-not-reaching-horizon"
             max_depth msw w1 in
  Ok (st.1 ++ [r.1], r.2).

(** One round of the loop of the dReal caller. *)
Definition dreal_round `{Python} (self : SolverCaller) (precision : float)
    (max_depth : Z)
    (st : list string * world) (cost : Z) : result (list string * world) :=
  w1 ← SolverCallerDReal.edit_cost self cost st.2;
  let r := SolverCallerDReal.call_solver self precision cost "" max_depth w1 in
  Ok (st.1 ++ [r.1], r.2).

(** The solver leaves the model file in place. *)
Definition keeps_model_file `{Python} (self : SolverCaller) : Prop :=
  ∀ argv fs, is_Some (fs !! model_path self) →
             is_Some ((subprocess_call argv fs).2 !! model_path self).

(** The file the iSAT caller writes the output of the solver to. *)
Definition isat_out_file `{Python} (self : SolverCaller) (precision : float)
    (cost : Z) : string :=
  Py.path_join (results_dir self)
    (model_name self +:+ "_" +:+ Py.str cost +:+ "_" +:+ str_of_float precision
     +:+ "-isat.txt").

(** The file the dReal caller names as its result. *)
Definition dreal_proof_file (self : SolverCaller) (w : world) : string :=
  Py.path_join (cwd w)
    (model_name self +:+ "_" +:+ Py.str (num_modes self - 1) +:+ "_0.smt2.proof").

(** ** The matcher *)

(** The number of groups of a pattern. *)
Fixpoint ngroups (r : Re.regex) : nat :=
  match r with
  | Re.Group r' => S (ngroups r')
  | Re.Seq r1 r2 => (ngroups r1 + ngroups r2)%nat
  | _ => 0%nat
  end.

(** ** The line parsers *)

(** The readings of the iSAT parser: the variable and the interval of each
    data line the loop passes to its [if]/[elif] chain, in order; [var_name]
    is the cursor the loop starts with. *)
Fixpoint isat_observed (var_name : option string) (lines : list string)
    : list (string * (string * string)) :=
  match lines with
  | [] => []
  | line :: rest =>
      match Re.match_ SolverCallerISAT.p line with
      | Some groups =>
          match groups with
          | g :: _ =>
              let name := Py.strip g in
              if Py.contains "solver" name || Py.contains "_trigger" name
                 || bool_decide (name = "inputTime")
              then isat_observed None rest
              else isat_observed (Some name) rest
          | [] => []
          end
      | None =>
          match Re.match_ SolverCallerISAT.p2 line, var_name with
          | Some [lo; hi], Some name =>
              if bool_decide (name = "") then isat_observed var_name rest
              else (name, (lo, hi)) :: isat_observed var_name rest
          | _, _ => isat_observed var_name rest
          end
      end
  end.

(** What the dReal parser reads of one line: nothing, the text of a
    transition time, or a variable and its interval. *)
Definition dreal_reading (line : string)
    : option (string + string * (string * string)) :=
  match Re.match_ SolverCallerDReal.p line with
  | Some [g0; g1; g2] =>
      let var_name := Py.strip g0 in
      let var_name := Py.join "_" (Py.drop_last2 (Py.split "_"%char var_name)) in
      if bool_decide (var_name = "inputTime") then None
      else if bool_decide (var_name = "") && Py.startswith "time_" g0 then Some (inl g2)
      else if bool_decide (var_name = "") then None
      else if Py.contains "mode_" var_name then None
      else Some (inr (var_name, (g1, g2)))
  | _ => None
  end.

(** The readings of the dReal parser that are intervals, and the texts of
    its transition times. *)
Definition dreal_observed (lines : list string) : list (string * (string * string)) :=
  omap (fun line => match dreal_reading line with
                    | Some (inr o) => Some o
                    | _ => None
                    end) lines.
Definition dreal_times (lines : list string) : list string :=
  omap (fun line => match dreal_reading line with
                    | Some (inl t) => Some t
                    | _ => None
                    end) lines.

(** The intervals read for the variable [v], in order. *)
Definition observed_for (v : string) (readings : list (string * (string * string)))
    : list (string * string) :=
  (filter (fun o : string * (string * string) => o.1 = v) readings).*2.

(** Some two of the intervals differ. *)
Definition some_pair_differs (l : list (string * string)) : Prop :=
  ∃ (i j : nat) x y, l !! i = Some x ∧ l !! j = Some y ∧ x ≠ y.

(** What the dictionaries hold for a variable whose intervals, in the order
    read, are [l]: [all_values] the first one, [constant_values] the first
    one as long as the others repeat it. *)
Definition first_interval (l : list (string * string)) : option entry :=
  (fun x : string * string => Interval (SStr x.1) (SStr x.2)) <$> head l.

Definition constant_of (l : list (string * string)) : option (string * string) :=
  match l with
  | [] => None
  | x :: rest => if bool_decide (Forall (eq x) rest) then Some x else None
  end.

Definition recorded (v : string) (st : crn_values) (l : list (string * string)) : Prop :=
  all_values st !! v = first_interval l ∧ constant_values st !! v = constant_of l.

(** ["time"] holds the list of transition times. *)
Definition time_listed (st : crn_values) : Prop :=
  ∃ ts, all_values st !! "time" = Some (Times ts).

(** ** The parser of structured traces *)

(** The name the parsers of dReal derive from a raw name: the raw name
    without its last two tokens. *)
Definition derived_name (key : string) : string :=
  Py.join "_" (Py.drop_last2 (Py.split "_"%char key)).

(** The parser reads of the trace [t] the name [key] and, of its entries in
    order, the enclosures [enclosures]. *)
Definition trace_reads (t : json) (key : string) (enclosures : list json) : Prop :=
  Json.getitem t "key" = Ok (JStr key)
  ∧ ∃ entries, Json.getitem t "values" = Ok (JArr entries)
               ∧ Forall2 (fun v e => Json.getitem v "enclosure" = Ok e) entries enclosures.

(** Every enclosure equals [interval]. *)
Definition all_equal (interval : json) (enclosures : list json) : Prop :=
  Forall (fun e => Json.eqb e interval = true) enclosures.

(** What one trace, read as a name and enclosures, does to the dictionaries
    of [getCRNValuesFromJSON]. *)
Definition json_step (st : SolverCallerDReal.json_parser) (kt : string * list json)
    : SolverCallerDReal.json_parser :=
  match derived_name kt.1, kt.2 with
  | EmptyString, _ => st
  | _, [] => st
  | n, first :: rest =>
      SolverCallerDReal.JsonParser
        (if forallb (fun e => Json.eqb e first) (first :: rest)
         then <[n := first]> (SolverCallerDReal.json_constant_values st)
         else SolverCallerDReal.json_constant_values st)
        (<[n := first]> (SolverCallerDReal.json_all_values st))
  end.

(** ** The assembly of the numeric model *)

(** [m] is the midpoint of the interval [v], its bounds read by [float]. *)
Definition midpoint_of `{Python} (v : entry) (m : float) : Prop :=
  ∃ lo hi a b, v = Interval lo hi
               ∧ SolverCallerBase.to_float lo = Ok a
               ∧ SolverCallerBase.to_float hi = Ok b
               ∧ m = ((a + b) / 2)%float.

(** [means] are the extracted variables other than ["time"], in the order
    of [vals], each with the midpoint of its interval. *)
Definition midpoints `{Python} (vals : list (string * entry))
    (means : list (string * float)) : Prop :=
  Forall2 (fun (it : string * entry) (nm : string * float) =>
             it.1 = nm.1 ∧ midpoint_of it.2 nm.2)
    (filter (fun it : string * entry => it.1 ≠ "time") vals) means.

(** The extracted variables that are no species of the flow: its free
    parameters. *)
Definition parameters (flow : list (string * Sympy.expr))
    (means : list (string * float)) : list (string * float) :=
  filter (fun nm : string * float => nm.1 ∉ flow.*1) means.

(** [sympify] reads [name] as the symbol of that name. *)
Definition ordinary `{Sympy.Library} (name : string) : Prop :=
  Sympy.sympify name = Sympy.SymbolOf name.

(** An expression with the symbol of each parameter replaced by the value
    of the parameter, in order. *)
Definition substitute_all `{Sympy.Library} (params : list (string * float))
    (e : Sympy.expr) : Sympy.expr :=
  foldl (fun e (nm : string * float) => Sympy.subs e nm.1 nm.2) e params.

(** The flow with the symbols of the parameters, then the symbol [SF],
    replaced in every expression. *)
Definition numeric_flow `{Sympy.Library} (flow : list (string * Sympy.expr))
    (means : list (string * float)) (scale_factor : float)
    : list (string * Sympy.expr) :=
  (fun xe : string * Sympy.expr =>
     (xe.1, Sympy.subs (substitute_all (parameters flow means) xe.2) "SF" scale_factor))
  <$> flow.

(** ** The dictionaries of the line parsers *)

(** Every variable of [constant_values] is in [all_values], with the same
    interval. *)
Definition constants_within (cv : gmap string (string * string))
    (av : gmap string entry) : Prop :=
  ∀ v x, cv !! v = Some x → av !! v = Some (Interval (SStr x.1) (SStr x.2)).

(** What the loops keep: ["time"] holds a list and is no constant, and the
    constants are within [all_values]. *)
Definition kept (st : crn_values) : Prop :=
  time_listed st ∧ constant_values st !! "time" = None
  ∧ constants_within (constant_values st) (all_values st).

(** The names the iSAT parser passes over. *)
Definition isat_ignored (name : string) : bool :=
  Py.contains "solver" name || Py.contains "_trigger" name
  || bool_decide (name = "inputTime").

(** The names the dReal parser passes over. *)
Definition dreal_ignored (name : string) : bool :=
  bool_decide (name = "inputTime") || bool_decide (name = "")
  || Py.contains "mode_" name.

(** Every variable of [all_values], ["time"] apart, is a name the parser
    does not pass over. *)
Definition names_outside (ignored : string → bool) (av : gmap string entry) : Prop :=
  ∀ v, is_Some (av !! v) → v = "time" ∨ ignored v = false.

(** ** The lines the patterns read *)

(** Every character of [s] is in the class [p]. *)
Fixpoint all_chars (p : ascii → bool) (s : string) : bool :=
  match s with
  | EmptyString => true
  | String c s' => p c && all_chars p s'
  end.

(** [s] does not start with a character of the class [p]. *)
Definition stops (p : ascii → bool) (s : string) : bool :=
  match s with
  | EmptyString => true
  | String c _ => negb (p c)
  end.

(** ** The traces of one name *)

(** The first enclosures of the traces whose derived name is [n], in the
    order of the document. *)
Definition firsts_named (n : string) (typed : list (string * list json)) : list json :=
  omap (fun kt : string * list json =>
          if bool_decide (derived_name kt.1 = n) then head kt.2 else None) typed.

(** The first enclosures of those among them whose enclosures all equal the
    first. *)
Definition constant_firsts_named (n : string) (typed : list (string * list json))
    : list json :=
  omap (fun kt : string * list json =>
          match kt.2 with
          | first :: rest =>
              if bool_decide (derived_name kt.1 = n)
                 && forallb (fun e => Json.eqb e first) (first :: rest)
              then Some first else None
          | [] => None
          end) typed.

(** The parser can read the traces [traces], as the names and enclosures
    [typed]. *)
Definition traces_read (traces : list json) (typed : list (string * list json)) : Prop :=
  Forall2 (fun t kt => trace_reads t kt.1 kt.2 ∧ (derived_name kt.1 ≠ "" → kt.2 ≠ []))
    traces typed.

(** ** The runs of the solver *)

(** The solver leaves the content of the model file as it is. *)
Definition preserves_model_file `{Python} (self : SolverCaller) : Prop :=
  ∀ argv fs, (subprocess_call argv fs).2 !! model_path self = fs !! model_path self.

(** The file the dReal caller writes the output of the solver to. *)
Definition dreal_out_file `{Python} (self : SolverCaller) (precision : float)
    (cost : Z) : string :=
  Py.path_join (results_dir self)
    (model_name self +:+ "_" +:+ Py.str cost +:+ "_" +:+ str_of_float precision
     +:+ "-dreal.txt").

(** The command line of the dReal caller. *)
Definition dreal_command `{Python} (self : SolverCaller) (precision : float)
    (max_depth : Z) (otherPrams : string) : string :=
  solver_path self +:+ " -k " +:+ Py.str max_depth +:+ " " +:+ model_path self
  +:+ " --precision " +:+ str_of_float precision
  +:+ " --proof " +:+ otherPrams.

(** ** Examples *)

(** The line break. *)
Definition nl : string := String Py.newline "".

(** An interpreter, a caller and a world to run the definitions on: [float]
    reads three texts, the solver prints nothing and touches no file, the
    model file holds the two declarations. *)
Definition example_float_of_str (s : string) : option float :=
  if bool_decide (s = "0.5") then Some 0.5%float
  else if bool_decide (s = "1.0") then Some 1%float
  else if bool_decide (s = "2.5") then Some 2.5%float
  else None.

Definition example_python : Python := {|
  float_of_str := example_float_of_str;
  str_of_float := fun _ => "0.1";
  subprocess_call := fun _ fs => ("", fs)
|}.

Definition example_caller : SolverCaller := {|
  model_path := "./bellshape.hys";
  model_name := "bellshape";
  results_dir := "./results";
  solver_path := "isat-ode";
  num_modes := 2
|}.

Definition example_world (content : string) : world := {|
  files := {["./bellshape.hys" := content]};
  cwd := "/work";
  console := []
|}.

Definition example_model : string :=
  "define MAX_COST = 35; " +:+ nl +:+ "define NO_COST_LIMIT = 0;" +:+ nl +:+ "x' = 1;".

(** A result file of iSAT where one rate has two intervals that differ, and
    one of dReal with the same readings and a transition time. *)
Definition example_isat_output : string :=
  "k_1 (float):" +:+ nl +:+ "  @0: [0.2,0.4] (approx)" +:+ nl +:+
  "k_1 (float):" +:+ nl +:+ "  @1: [0.5,0.6] (approx)" +:+ nl.

Definition example_dreal_output : string :=
  String Py.tab "k_1_0_0 : [0.2, 0.4]" +:+ nl +:+
  String Py.tab "time_0 : [0.5, 2.5]" +:+ nl +:+
  String Py.tab "k_1_1_0 : [0.5, 0.6]" +:+ nl.

(** A trace with one entry or more, each with an enclosure. *)
Definition json_trace (key : string) (enclosures : list json) : json :=
  JObj [("key", JStr key);
        ("values", JArr ((fun e => JObj [("time", JArr [JNum 0; JNum 1]);
                                         ("enclosure", e)]) <$> enclosures))].

Definition json_document (traces : list json) : json :=
  JObj [("traces", JArr [JArr traces])].

(** The document of the scenario: the trace ["X_0_1"] with the enclosure
    [[0.0, 0.0]] at two timestamps. *)
Definition example_trace_document : json :=
  JObj [("traces",
         JArr [JArr [JObj [("key", JStr "X_0_1"); ("mode", JNum 1); ("step", JNum 0);
                           ("values",
                            JArr [JObj [("time", JArr [JNum 0; JNum 0]);
                                        ("enclosure", JArr [JNum 0; JNum 0])];
                                  JObj [("time", JArr [JNum 1; JNum 1]);
                                        ("enclosure", JArr [JNum 0; JNum 0])]])]]])].

(** A SymPy that reads [E], [I] and [pi] as its constants and every other
    name as a symbol; whose constructors evaluate an operation on two
    numbers, and a product with the number zero to zero; and where no
    expression of a flow holds a constant. *)
Definition example_sympify (name : string) : Sympy.sympified :=
  if bool_decide (name ∈ ["E"; "I"; "pi"]) then Sympy.Other else Sympy.SymbolOf name.

Definition example_add (a b : Sympy.expr) : Sympy.expr :=
  match a, b with
  | Sympy.Number x, Sympy.Number y => Sympy.Number (x + y)%float
  | _, _ => Sympy.Add a b
  end.

Definition example_mul (a b : Sympy.expr) : Sympy.expr :=
  match a, b with
  | Sympy.Number x, Sympy.Number y => Sympy.Number (x * y)%float
  | Sympy.Number x, _ | _, Sympy.Number x =>
      if PrimFloat.eqb x 0 then Sympy.Number 0 else Sympy.Mul a b
  | _, _ => Sympy.Mul a b
  end.

Definition example_sympy : Sympy.Library := {|
  Sympy.sympify := example_sympify;
  Sympy.add := example_add;
  Sympy.mul := example_mul;
  Sympy.subs_other := fun e _ _ => e;
  Sympy.add_free_symbols := ltac:(intros [] []; simpl; set_solver);
  Sympy.mul_free_symbols :=
    ltac:(intros [] []; simpl; repeat case_match; simpl; set_solver);
  Sympy.sympify_SF := eq_refl
|}.

(** The flow and the values of the scenario: [X' = -k_1 * X]. *)
Definition example_flow : list (string * Sympy.expr) :=
  [("X", Sympy.Mul (Sympy.Mul (Sympy.Number (-1)) (Sympy.Symbol "k_1")) (Sympy.Symbol "X"))].

Definition example_vals : list (string * entry) :=
  [("X", Interval (SNum 0.9) (SNum 1.1)); ("k_1", Interval (SNum 0.4) (SNum 0.6))].

(** A flow with a derivative entry, the sketch that names it, and the
    midpoints of [example_vals]. *)
Definition example_flow_with_derivative : list (string * Sympy.expr) :=
  [("X", Sympy.Mul (Sympy.Mul (Sympy.Number (-1)) (Sympy.Symbol "k_1")) (Sympy.Symbol "X"));
   ("dX_dt", Sympy.Mul (Sympy.Symbol "SF") (Sympy.Symbol "k_1"))].

Definition example_crn : CRNSketch := {| derivatives := ["dX_dt"] |}.

Definition example_means : list (string * float) := [("X", 1%float); ("k_1", 0.5%float)].

(** A flow whose rate constant is named [E], and values for it. *)
Definition example_flow_E : list (string * Sympy.expr) :=
  [("X", Sympy.Mul (Sympy.Symbol "E") (Sympy.Symbol "X"))].

Definition example_vals_E : list (string * entry) :=
  [("X", Interval (SNum 0.9) (SNum 1.1)); ("E", Interval (SNum 0.5) (SNum 0.5))].

(** A file system with no directory, where [makedirs] succeeds and keeps
    no record. *)
Definition example_file_system : FileSystem := {|
  path_exists := fun _ _ => false;
  makedirs := fun _ w => Some w
|}.

(** * Properties *)

(** ** The scenarios of the parsers *)

Example isat_scenario_same :
  SolverCallerISAT.getCRNValues
    ("k_1 (1):" +:+ nl +:+ "  @0: [0.2,0.4] (w)" +:+ nl +:+
     "k_1 (1):" +:+ nl +:+ "  @1: [0.2,0.4] (w)" +:+ nl)
  = Ok ({["k_1" := ("0.2", "0.4")]},
        {["time" := Times []; "k_1" := Interval (SStr "0.2") (SStr "0.4")]}).
Proof. vm_compute. reflexivity. Qed.

Example isat_scenario_differs :
  SolverCallerISAT.getCRNValues
    ("k_1 (1):" +:+ nl +:+ "  @0: [0.2,0.4] (w)" +:+ nl +:+
     "k_1 (1):" +:+ nl +:+ "  @1: [0.5,0.6] (w)" +:+ nl)
  = Ok (∅, {["time" := Times []; "k_1" := Interval (SStr "0.2") (SStr "0.4")]}).
Proof. vm_compute. reflexivity. Qed.

Example dreal_scenario :
  SolverCallerDReal.getCRNValues (H := example_python) example_dreal_output
  = Ok (∅, {["time" := Times [SNum 2.5]; "k_1" := Interval (SStr "0.2") (SStr "0.4")]}).
Proof. vm_compute. reflexivity. Qed.

(** ** Strings *)

Section strings.
Implicit Types (s t sub : string) (c sep : ascii) (l : list string).

Lemma has_char_app c s t :
  Py.has_char c (s +:+ t) = Py.has_char c s || Py.has_char c t.
Proof.
  induction s as [|d s IH]; simpl; [done|].
  rewrite IH. by rewrite orb_assoc.
Qed.

Lemma prefix_has_char c sub s :
  String.prefix sub s = true → Py.has_char c sub = true → Py.has_char c s = true.
Proof.
  revert s. induction sub as [|d sub IH]; intros [|e s] Hp Hc; simpl in *;
    try done.
  destruct (Ascii.ascii_dec d e) as [->|]; [|done].
  apply orb_true_iff in Hc as [Hc|Hc]; apply orb_true_iff; [by left|].
  right. by apply IH.
Qed.

Lemma contains_cons sub d s :
  Py.contains sub (String d s) = String.prefix sub (String d s) || Py.contains sub s.
Proof. done. Qed.

Lemma contains_nil sub : Py.contains sub "" = String.prefix sub "".
Proof. apply orb_false_r. Qed.

Lemma contains_has_char c sub s :
  Py.contains sub s = true → Py.has_char c sub = true → Py.has_char c s = true.
Proof.
  intros Hs Hc. induction s as [|d s IH].
  - rewrite contains_nil in Hs. by eapply prefix_has_char.
  - rewrite contains_cons in Hs.
    apply orb_true_iff in Hs as [Hs|Hs]; [by eapply prefix_has_char|].
    simpl. apply orb_true_iff. right. by apply IH.
Qed.

(** A string that lacks a character of [sub] does not contain [sub]. *)
Lemma contains_false c sub s :
  Py.has_char c sub = true → Py.has_char c s = false → Py.contains sub s = false.
Proof.
  intros Hc Hs. destruct (Py.contains sub s) eqn:E; [|done].
  by rewrite (contains_has_char c sub s E Hc) in Hs.
Qed.

Lemma prefix_app sub s : String.prefix sub (sub +:+ s) = true.
Proof.
  induction sub as [|d sub IH]; simpl; [by destruct s|].
  by destruct (Ascii.ascii_dec d d).
Qed.

Lemma contains_prefix sub s : Py.contains sub (sub +:+ s) = true.
Proof.
  destruct (sub +:+ s) eqn:E; [rewrite contains_nil|rewrite contains_cons];
    rewrite <- E, prefix_app; done.
Qed.

Lemma split_cons sep s : ∃ x l, Py.split sep s = x :: l.
Proof.
  induction s as [|c s (h & t & IH)]; simpl; [by eexists _, _|].
  case_bool_decide; [by eexists _, _|]. rewrite IH. by eexists _, _.
Qed.

Lemma split_no_sep sep s :
  Forall (fun x => Py.has_char sep x = false) (Py.split sep s).
Proof.
  induction s as [|c s IH]; simpl; [by repeat constructor|].
  case_bool_decide as Hc; [by constructor|].
  destruct (split_cons sep s) as (h & r & E). rewrite E in *.
  inversion IH; subst. constructor; [|done].
  simpl. rewrite bool_decide_eq_false_2; [done|congruence].
Qed.

Lemma join_cons2 s x y l :
  Py.join s (x :: y :: l) = x +:+ s +:+ Py.join s (y :: l).
Proof. done. Qed.

Lemma join_split sep s : Py.join (String sep "") (Py.split sep s) = s.
Proof.
  induction s as [|c s IH]; simpl; [done|].
  destruct (split_cons sep s) as (h & r & E). rewrite E in *.
  case_bool_decide as Hc.
  - rewrite Hc, join_cons2, IH. done.
  - destruct r as [|y r]; [simpl in *; by rewrite IH|].
    rewrite join_cons2. rewrite join_cons2 in IH.
    change (String c h +:+ ?z) with (String c (h +:+ z)). by rewrite IH.
Qed.

Lemma split_app_no_sep sep s t :
  Py.has_char sep s = false →
  Py.split sep (s +:+ String sep t) = s :: Py.split sep t.
Proof.
  induction s as [|c s IH]; simpl; intros Hs.
  - by rewrite bool_decide_eq_true_2.
  - apply orb_false_iff in Hs as [Hc Hs]. apply bool_decide_eq_false in Hc.
    rewrite bool_decide_eq_false_2 by congruence. by rewrite IH.
Qed.

Lemma split_no_sep_id sep s : Py.has_char sep s = false → Py.split sep s = [s].
Proof.
  induction s as [|c s IH]; simpl; intros Hs; [done|].
  apply orb_false_iff in Hs as [Hc Hs]. apply bool_decide_eq_false in Hc.
  rewrite bool_decide_eq_false_2 by congruence. by rewrite IH.
Qed.

Lemma split_join sep l :
  l ≠ [] → Forall (fun x => Py.has_char sep x = false) l →
  Py.split sep (Py.join (String sep "") l) = l.
Proof.
  induction l as [|x l IH]; [done|]. intros _ Hl. inversion Hl; subst.
  destruct l as [|y l]; [by apply split_no_sep_id|].
  rewrite join_cons2.
  change (String sep "" +:+ ?r) with (String sep r).
  rewrite split_app_no_sep by done. f_equal. by apply IH.
Qed.

(** The decimal digits and the sign are all [str] writes for an [int]. *)
Lemma string_of_uint_chars c d :
  Py.isdigit c = false → Py.has_char c (NilEmpty.string_of_uint d) = false.
Proof.
  intros Hc. induction d; simpl; [done|..];
    rewrite IHd, orb_false_r; apply bool_decide_eq_false; intros ->; done.
Qed.

Lemma string_of_uint0_chars c d :
  Py.isdigit c = false → Py.has_char c (NilZero.string_of_uint d) = false.
Proof.
  intros Hc. destruct d; try apply (string_of_uint_chars c _ Hc).
  simpl. rewrite orb_false_r. apply bool_decide_eq_false. by intros ->.
Qed.

Lemma str_chars c n :
  Py.isdigit c = false → c ≠ "-"%char → Py.has_char c (Py.str n) = false.
Proof.
  intros Hc Hm. unfold Py.str, NilZero.string_of_int.
  destruct (Z.to_int n); simpl; rewrite string_of_uint0_chars by done; [done|].
  rewrite orb_false_r. by apply bool_decide_eq_false.
Qed.
End strings.

(** ** The model-file editor *)

Section edit_cost.
Context `{Python}.
Variable self : SolverCaller.
Implicit Types (cost : Z) (line : string) (lines : list string) (w : world).

Lemma insert_at_length (pre suf : list string) (x y : string) :
  <[length pre := y]> (pre ++ x :: suf) = pre ++ y :: suf.
Proof.
  rewrite insert_app_r_alt by lia. by rewrite Nat.sub_diag.
Qed.

(** A loop over [enumerate(lines)] whose body leaves at [line_number] a
    function of [line] is a [map]. *)
Lemma foldl_enumerate (body : list string → nat * string → list string)
    (f : string → string) :
  (∀ pre x suf, body (pre ++ x :: suf) (length pre, x) = pre ++ f x :: suf) →
  ∀ lines, foldl body lines (enumerate lines) = f <$> lines.
Proof.
  intros Hbody lines. unfold enumerate.
  enough (∀ suf pre,
    foldl body (pre ++ suf) (zip (seq (length pre) (length suf)) suf)
    = pre ++ (f <$> suf)) as Hgen by apply (Hgen lines []).
  induction suf as [|x suf IH]; intros pre; simpl.
  - done.
  - rewrite Hbody. rewrite (cons_middle (f x) pre suf), app_assoc.
    replace (S (length pre)) with (length (pre ++ [f x]))
      by (rewrite length_app; simpl; lia).
    rewrite IH. by rewrite <- app_assoc.
Qed.

Lemma isat_edit_cost_lines cost lines :
  SolverCallerISAT.edit_cost_lines cost lines = isat_line cost <$> lines.
Proof.
  apply foldl_enumerate. intros pre x suf.
  unfold SolverCallerISAT.edit_cost_body, isat_line, isat_flag, isat_max.
  destruct (Py.contains "define MAX_COST = " x),
    (Py.contains "define NO_COST_LIMIT = " x); repeat case_bool_decide;
    rewrite ?insert_at_length; done.
Qed.

Lemma dreal_edit_cost_lines cost lines :
  SolverCallerDReal.edit_cost_lines cost lines = dreal_line cost <$> lines.
Proof.
  apply foldl_enumerate. intros pre x suf.
  unfold SolverCallerDReal.edit_cost_body, dreal_line, dreal_flag, dreal_max.
  destruct (Py.contains "define MAX_COST = " x),
    (Py.contains "define NO_COST_LIMIT = " x); repeat case_bool_decide;
    rewrite ?insert_at_length; done.
Qed.

(** The lines [edit_cost] writes hold no newline. *)
Lemma isat_line_no_newline cost line :
  Py.has_char Py.newline line = false →
  Py.has_char Py.newline (isat_line cost line) = false.
Proof.
  intros Hl. unfold isat_line, isat_flag, isat_max.
  repeat case_match; try done.
  rewrite !has_char_app, str_chars; done.
Qed.

Lemma dreal_line_no_newline cost line :
  Py.has_char Py.newline line = false →
  Py.has_char Py.newline (dreal_line cost line) = false.
Proof.
  intros Hl. unfold dreal_line, dreal_flag, dreal_max.
  repeat case_match; try done.
  rewrite !has_char_app, str_chars; done.
Qed.

(** A line [edit_cost] wrote is left as it is by a second pass. *)
Lemma isat_line_idemp cost line :
  isat_line cost (isat_line cost line) = isat_line cost line.
Proof.
  unfold isat_line at 2 3.
  destruct (Py.contains "define NO_COST_LIMIT = " line) eqn:Hno.
  { unfold isat_line, isat_flag. by case_bool_decide. }
  destruct (Py.contains "define MAX_COST = " line) eqn:Hmax.
  - unfold isat_line, isat_max.
    rewrite (contains_false "L" "define NO_COST_LIMIT = "); [|done|].
    + by rewrite contains_prefix.
    + rewrite !has_char_app, str_chars; done.
  - unfold isat_line. by rewrite Hno, Hmax.
Qed.

Lemma dreal_line_idemp cost line :
  dreal_line cost (dreal_line cost line) = dreal_line cost line.
Proof.
  unfold dreal_line at 2 3.
  destruct (Py.contains "define NO_COST_LIMIT = " line) eqn:Hno.
  { unfold dreal_line, dreal_flag. by case_bool_decide. }
  destruct (Py.contains "define MAX_COST = " line) eqn:Hmax.
  - unfold dreal_line, dreal_max.
    assert (Py.has_char "=" ("#define MAX_COST " +:+ Py.str cost) = false) as Heq
      by (rewrite !has_char_app, str_chars; done).
    rewrite (contains_false "=" "define NO_COST_LIMIT = " _ eq_refl Heq).
    by rewrite (contains_false "=" "define MAX_COST = " _ eq_refl Heq).
  - unfold dreal_line. by rewrite Hno, Hmax.
Qed.

(** [edit_cost] on a file that exists: the file is replaced by its lines,
    each rewritten, joined as they were. *)
Lemma isat_edit_cost_ok cost w content :
  files w !! model_path self = Some content →
  SolverCallerISAT.edit_cost self cost w
  = Ok (write_file (model_path self)
          (Py.join nl (isat_line cost <$> Py.split Py.newline content)) w).
Proof.
  intros Hf. unfold SolverCallerISAT.edit_cost, read_file. rewrite Hf. simpl.
  by rewrite isat_edit_cost_lines.
Qed.

Lemma dreal_edit_cost_ok cost w content :
  files w !! model_path self = Some content →
  SolverCallerDReal.edit_cost self cost w
  = Ok (write_file (model_path self)
          (Py.join nl (dreal_line cost <$> Py.split Py.newline content)) w).
Proof.
  intros Hf. unfold SolverCallerDReal.edit_cost, read_file. rewrite Hf. simpl.
  by rewrite dreal_edit_cost_lines.
Qed.

Lemma edit_cost_missing cost w :
  files w !! model_path self = None →
  SolverCallerISAT.edit_cost self cost w = Raise IOError
  ∧ SolverCallerDReal.edit_cost self cost w = Raise IOError.
Proof.
  intros Hf. unfold SolverCallerISAT.edit_cost, SolverCallerDReal.edit_cost, read_file.
  by rewrite Hf.
Qed.

(** The lines of the file [edit_cost] wrote are the rewritten lines. *)
Lemma split_join_lines (f : string → string) content :
  (∀ line, Py.has_char Py.newline line = false →
           Py.has_char Py.newline (f line) = false) →
  Py.split Py.newline (Py.join nl (f <$> Py.split Py.newline content))
  = f <$> Py.split Py.newline content.
Proof.
  intros Hf. apply split_join.
  - destruct (split_cons Py.newline content) as (x & l & ->). done.
  - apply Forall_fmap. eapply Forall_impl; [apply split_no_sep|]. apply Hf.
Qed.
End edit_cost.

Section edit_cost_claims.
Variable self : SolverCaller.

Lemma write_file_twice path c1 c2 w :
  write_file path c2 (write_file path c1 w) = write_file path c2 w.
Proof. unfold write_file, set_files. simpl. by rewrite insert_insert_eq. Qed.

Lemma files_write_file path c w :
  files (write_file path c w) !! path = Some c.
Proof. apply lookup_insert_eq. Qed.

Lemma rewritten_isat cost lines :
  rewritten (isat_max cost) (isat_flag cost) lines (isat_line cost <$> lines).
Proof.
  split; [apply length_fmap|]. intros i line Hi.
  rewrite list_lookup_fmap, Hi. unfold isat_line. simpl.
  repeat split; intros; repeat case_match; congruence.
Qed.

Lemma rewritten_dreal cost lines :
  rewritten (dreal_max cost) (dreal_flag cost) lines (dreal_line cost <$> lines).
Proof.
  split; [apply length_fmap|]. intros i line Hi.
  rewrite list_lookup_fmap, Hi. unfold dreal_line. simpl.
  repeat split; intros; repeat case_match; congruence.
Qed.

(** C3 (as amended): on a model file that exists, [edit_cost] returns
    and replaces the file by one with as many lines, in the same order,
    where each line that holds the [NO_COST_LIMIT] marker declares the
    flag (1 when the cost is 0, else 0), each line that holds the
    [MAX_COST] marker and not the [NO_COST_LIMIT] marker declares the new
    cost, and each line that holds neither is as it was; for both
    backends. *)
Theorem edit_cost_rewrites_lines (cost : Z) (w : world) (content : string) :
  files w !! model_path self = Some content →
  (∃ content',
      SolverCallerISAT.edit_cost self cost w
      = Ok (write_file (model_path self) content' w)
      ∧ rewritten ("define MAX_COST = " +:+ Py.str cost +:+ "; ")
          (if bool_decide (cost = 0) then "define NO_COST_LIMIT = 1;"
           else "define NO_COST_LIMIT = 0;")
          (Py.split Py.newline content) (Py.split Py.newline content'))
  ∧ (∃ content',
      SolverCallerDReal.edit_cost self cost w
      = Ok (write_file (model_path self) content' w)
      ∧ rewritten ("#define MAX_COST " +:+ Py.str cost)
          (if bool_decide (cost = 0) then "#define NO_COST_LIMIT 1"
           else "#define NO_COST_LIMIT 0;")
          (Py.split Py.newline content) (Py.split Py.newline content')).
Proof.
  intros Hf. split; eexists; (split; [by eauto using isat_edit_cost_ok, dreal_edit_cost_ok|]).
  - rewrite split_join_lines by apply isat_line_no_newline. apply rewritten_isat.
  - rewrite split_join_lines by apply dreal_line_no_newline. apply rewritten_dreal.
Qed.

(** C6: applying [edit_cost] twice with the same cost leaves what
    applying it once leaves (the same file, or the same exception when the
    model file is missing); for both backends. *)
Theorem edit_cost_idempotent (cost : Z) (w : world) :
  (SolverCallerISAT.edit_cost self cost w ≫= SolverCallerISAT.edit_cost self cost)
  = SolverCallerISAT.edit_cost self cost w
  ∧ (SolverCallerDReal.edit_cost self cost w ≫= SolverCallerDReal.edit_cost self cost)
    = SolverCallerDReal.edit_cost self cost w.
Proof.
  destruct (files w !! model_path self) as [content|] eqn:Hf.
  - rewrite (isat_edit_cost_ok self cost w content Hf).
    rewrite (dreal_edit_cost_ok self cost w content Hf).
    split; simpl.
    + erewrite isat_edit_cost_ok by apply files_write_file.
      rewrite write_file_twice, split_join_lines by apply isat_line_no_newline.
      rewrite <- list_fmap_compose.
      do 2 f_equal. f_equal. apply list_fmap_ext. intros _ x _.
      apply isat_line_idemp.
    + erewrite dreal_edit_cost_ok by apply files_write_file.
      rewrite write_file_twice, split_join_lines by apply dreal_line_no_newline.
      rewrite <- list_fmap_compose.
      do 2 f_equal. f_equal. apply list_fmap_ext. intros _ x _.
      apply dreal_line_idemp.
  - destruct (edit_cost_missing self cost w Hf) as [-> ->]. done.
Qed.
End edit_cost_claims.

(** ** The cost-decreasing loop *)

Section schedule.
Implicit Types (max_cost min_cost cost : Z).

Lemma schedule_empty max_cost min_cost :
  max_cost < min_cost → schedule max_cost min_cost = [].
Proof.
  intros Hlt. unfold schedule.
  replace (Z.to_nat (max_cost - min_cost + 1)) with 0%nat by lia. done.
Qed.

Lemma schedule_cons max_cost min_cost :
  min_cost ≤ max_cost →
  schedule max_cost min_cost = max_cost :: schedule (max_cost - 1) min_cost.
Proof.
  intros Hle. unfold schedule.
  replace (Z.to_nat (max_cost - min_cost + 1))
    with (S (Z.to_nat (max_cost - 1 - min_cost + 1))) by lia.
  simpl. f_equal; [lia|].
  rewrite <- fmap_S_seq, <- list_fmap_compose.
  apply list_fmap_ext. intros _ i _. simpl. lia.
Qed.

Lemma schedule_length max_cost min_cost :
  min_cost ≤ max_cost →
  Z.of_nat (length (schedule max_cost min_cost)) = max_cost - min_cost + 1.
Proof. intros Hle. unfold schedule. rewrite length_fmap, length_seq. lia. Qed.

Lemma schedule_lookup max_cost min_cost (i : nat) :
  Z.of_nat i ≤ max_cost - min_cost →
  schedule max_cost min_cost !! i = Some (max_cost - Z.of_nat i).
Proof.
  intros Hi. unfold schedule. rewrite list_lookup_fmap.
  rewrite lookup_seq_lt by lia. done.
Qed.
End schedule.

Section loop.
Context `{Python}.
Variable self : SolverCaller.
Implicit Types (cost : Z) (w : world) (names : list string).

(** The [while] loop runs one round for each cost of the schedule, in
    order. *)
Lemma isat_loop_schedule min_cost precision msw max_depth (n : nat) :
  ∀ cost names w, Z.to_nat (cost - min_cost + 1) = n →
    SolverCallerISAT.decreasing_cost_loop self min_cost precision msw max_depth
      cost names w
    = for_each (isat_round self precision msw max_depth) (names, w)
        (schedule cost min_cost).
Proof.
  induction n as [|n IH]; intros cost names w Hn;
    simp decreasing_cost_loop; destruct (decide (min_cost ≤ cost)) as [Hle|Hgt];
    simpl; try lia.
  - rewrite schedule_empty by lia. done.
  - rewrite schedule_cons by done. simpl. unfold isat_round at 2. simpl.
    destruct (SolverCallerISAT.edit_cost self cost w) as [w1|e];
      simp decreasing_cost_loop; simpl; [|done].
    destruct (SolverCallerISAT.call_solver _ _ _ _ _ _ w1) as [name w2] eqn:E.
    cbn. rewrite <- IH by lia. done.
Qed.

Lemma dreal_loop_schedule min_cost precision max_depth (n : nat) :
  ∀ cost names w, Z.to_nat (cost - min_cost + 1) = n →
    SolverCallerDReal.decreasing_cost_loop self min_cost precision max_depth
      cost names w
    = for_each (dreal_round self precision max_depth) (names, w)
        (schedule cost min_cost).
Proof.
  induction n as [|n IH]; intros cost names w Hn;
    simp decreasing_cost_loop; destruct (decide (min_cost ≤ cost)) as [Hle|Hgt];
    simpl; try lia.
  - rewrite schedule_empty by lia. done.
  - rewrite schedule_cons by done. simpl. unfold dreal_round at 2. simpl.
    destruct (SolverCallerDReal.edit_cost self cost w) as [w1|e];
      simp decreasing_cost_loop; simpl; [|done].
    destruct (SolverCallerDReal.call_solver _ _ _ _ _ w1) as [name w2] eqn:E.
    cbn. rewrite <- IH by lia. done.
Qed.
End loop.

Section loop_runs.
Context `{Python}.
Variable self : SolverCaller.
Implicit Types (cost : Z) (w : world) (names : list string).

Lemma isat_call_solver_spec precision cost other max_depth msw w :
  let r := SolverCallerISAT.call_solver self precision cost other max_depth msw w in
  r.1 = isat_out_file self precision cost ∧ cwd r.2 = cwd w
  ∧ (keeps_model_file self → is_Some (files w !! model_path self) →
     is_Some (files r.2 !! model_path self)).
Proof.
  unfold SolverCallerISAT.call_solver. simpl.
  destruct (subprocess_call _ _) as [out fs] eqn:E. simpl.
  repeat split. intros Hkeep Hw.
  apply lookup_insert_is_Some'. right.
  change fs with (out, fs).2. rewrite <- E. apply Hkeep.
  apply lookup_insert_is_Some'. by right.
Qed.

Lemma dreal_call_solver_spec precision cost other max_depth w :
  let r := SolverCallerDReal.call_solver self precision cost other max_depth w in
  r.1 = dreal_proof_file self w ∧ cwd r.2 = cwd w
  ∧ (keeps_model_file self → is_Some (files w !! model_path self) →
     is_Some (files r.2 !! model_path self)).
Proof.
  unfold SolverCallerDReal.call_solver. simpl.
  destruct (subprocess_call _ _) as [out fs] eqn:E. simpl.
  repeat split. intros Hkeep Hw.
  apply lookup_insert_is_Some'. right.
  change fs with (out, fs).2. rewrite <- E. apply Hkeep.
  apply lookup_insert_is_Some'. by right.
Qed.

Lemma isat_rounds_ok precision msw max_depth costs :
  keeps_model_file self →
  ∀ names w, is_Some (files w !! model_path self) →
    ∃ w', for_each (isat_round self precision msw max_depth) (names, w) costs
          = Ok (names ++ (isat_out_file self precision <$> costs), w')
          ∧ is_Some (files w' !! model_path self) ∧ cwd w' = cwd w.
Proof.
  intros Hkeep. induction costs as [|cost costs IH]; intros names w [content Hw].
  - exists w. simpl. rewrite app_nil_r. eauto.
  - simpl. unfold isat_round at 2. simpl.
    rewrite (isat_edit_cost_ok self cost w content Hw). simpl.
    set (w1 := write_file _ _ w).
    destruct (isat_call_solver_spec precision cost
                " --ode-opts --continue-after-not-reaching-horizon"
                max_depth msw w1) as (-> & Hcwd & Hsome).
    destruct (IH (names ++ [isat_out_file self precision cost])
                 (SolverCallerISAT.call_solver self precision cost
                    " --ode-opts --continue-after-not-reaching-horizon"
                    max_depth msw w1).2) as (w' & -> & Hw' & Hcwd').
    { apply Hsome; [done|]. eexists. apply files_write_file. }
    exists w'. rewrite <- app_assoc. simpl. repeat split; [done|].
    by rewrite Hcwd', Hcwd.
Qed.

Lemma dreal_rounds_ok precision max_depth costs :
  keeps_model_file self →
  ∀ names w, is_Some (files w !! model_path self) →
    ∃ w', for_each (dreal_round self precision max_depth) (names, w) costs
          = Ok (names ++ replicate (length costs) (dreal_proof_file self w), w')
          ∧ is_Some (files w' !! model_path self) ∧ cwd w' = cwd w.
Proof.
  intros Hkeep. induction costs as [|cost costs IH]; intros names w [content Hw].
  - exists w. simpl. rewrite app_nil_r. eauto.
  - simpl. unfold dreal_round at 2. simpl.
    rewrite (dreal_edit_cost_ok self cost w content Hw). simpl.
    set (w1 := write_file _ _ w).
    destruct (dreal_call_solver_spec precision cost "" max_depth w1)
      as (-> & Hcwd & Hsome).
    destruct (IH (names ++ [dreal_proof_file self w1])
                 (SolverCallerDReal.call_solver self precision cost ""
                    max_depth w1).2) as (w' & -> & Hw' & Hcwd').
    { apply Hsome; [done|]. eexists. apply files_write_file. }
    exists w'. rewrite <- app_assoc. simpl. repeat split; [|done|].
    + unfold dreal_proof_file. by rewrite Hcwd.
    + by rewrite Hcwd', Hcwd.
Qed.
End loop_runs.

Section loop_claims.
Context `{Python}.
Variable self : SolverCaller.

(** C2: with [max_cost < min_cost] the loop returns the empty list and
    touches nothing. With [max_cost >= min_cost] it runs one round (edit the
    cost, call the solver, append the name) for each cost of the schedule
    [max_cost, max_cost - 1, ..., min_cost], whose [i]-th cost is
    [max_cost - i]; on a model file that exists and that the solver leaves
    in place it returns [max_cost - min_cost + 1] names: for iSAT the output
    file of each cost in that order, for dReal that many times the proof
    file. *)
Theorem decreasing_cost_loop_schedule (max_cost min_cost : Z)
    (precision msw : float) (max_depth : Z) (w : world) :
  let isat := SolverCallerISAT.optimal_synthesis_decreasing_cost self
                max_cost min_cost precision msw max_depth w in
  let dreal := SolverCallerDReal.optimal_synthesis_decreasing_cost self
                 max_cost min_cost precision msw max_depth w in
  let costs := schedule max_cost min_cost in
  (max_cost < min_cost → isat = Ok ([], w) ∧ dreal = Ok ([], w))
  ∧ (min_cost ≤ max_cost →
     Z.of_nat (length costs) = max_cost - min_cost + 1
     ∧ (∀ i : nat, Z.of_nat i ≤ max_cost - min_cost →
          costs !! i = Some (max_cost - Z.of_nat i))
     ∧ isat = for_each
                (isat_round self precision msw
                   (if bool_decide (max_depth = 0) then num_modes self else max_depth))
                ([], w) costs
     ∧ dreal = for_each
                 (dreal_round self precision
                    (if bool_decide (max_depth = 0)
                     then if bool_decide (num_modes self = 0) then 2 else num_modes self
                     else max_depth))
                 ([], w) costs
     ∧ (is_Some (files w !! model_path self) → keeps_model_file self →
        ∃ names_isat w_isat names_dreal w_dreal,
          isat = Ok (names_isat, w_isat) ∧ dreal = Ok (names_dreal, w_dreal)
          ∧ Z.of_nat (length names_isat) = max_cost - min_cost + 1
          ∧ Z.of_nat (length names_dreal) = max_cost - min_cost + 1
          ∧ names_isat = isat_out_file self precision <$> costs
          ∧ names_dreal = replicate (length costs) (dreal_proof_file self w))).
Proof.
  intros isat dreal costs.
  assert (isat = for_each
            (isat_round self precision msw
               (if bool_decide (max_depth = 0) then num_modes self else max_depth))
            ([], w) costs) as Hisat by (by eapply isat_loop_schedule).
  assert (dreal = for_each
            (dreal_round self precision
               (if bool_decide (max_depth = 0)
                then if bool_decide (num_modes self = 0) then 2 else num_modes self
                else max_depth))
            ([], w) costs) as Hdreal by (by eapply dreal_loop_schedule).
  split.
  - intros Hlt. rewrite Hisat, Hdreal. unfold costs.
    by rewrite schedule_empty by done.
  - intros Hle. split; [by apply schedule_length|].
    split; [intros i Hi; by apply schedule_lookup|].
    do 2 (split; [done|]). intros Hw Hkeep.
    destruct (isat_rounds_ok self precision msw
                (if bool_decide (max_depth = 0) then num_modes self else max_depth)
                costs Hkeep [] w Hw) as (wi & Hi & _).
    destruct (dreal_rounds_ok self precision
                (if bool_decide (max_depth = 0)
                 then if bool_decide (num_modes self = 0) then 2 else num_modes self
                 else max_depth)
                costs Hkeep [] w Hw) as (wd & Hd & _).
    simpl in Hi, Hd.
    exists (isat_out_file self precision <$> costs), wi,
      (replicate (length costs) (dreal_proof_file self w)), wd.
    rewrite length_fmap, length_replicate.
    repeat split; try (by apply schedule_length); congruence.
Qed.

(** C5 (as amended): the path [call_solver] of the dReal caller returns is
    [<model_name>_<num_modes - 1>_0.smt2.proof] in the working directory,
    whatever the cost and whatever [max_depth]; when [max_depth] is left to
    its default the depth given to the solver is [num_modes], and the path
    is that of the depth less one. *)
Theorem dreal_call_solver_path (precision : float) (cost : Z)
    (otherPrams : string) (max_depth : Z) (w : world) :
  (SolverCallerDReal.call_solver self precision cost otherPrams max_depth w).1
  = Py.path_join (cwd w)
      (model_name self +:+ "_" +:+ Py.str (num_modes self - 1) +:+ "_0.smt2.proof")
  ∧ (∀ depth, depth = (if bool_decide (max_depth = 0) then num_modes self else max_depth) →
       max_depth = 0 →
       (SolverCallerDReal.call_solver self precision cost otherPrams max_depth w).1
       = Py.path_join (cwd w)
           (model_name self +:+ "_" +:+ Py.str (depth - 1) +:+ "_0.smt2.proof")).
Proof.
  destruct (dreal_call_solver_spec self precision cost otherPrams max_depth w)
    as (Hpath & _). split; [done|].
  intros depth -> ->. by rewrite Hpath.
Qed.
End loop_claims.

(** The witness of C2: three rounds, from cost 3 down to cost 1. *)
Lemma decreasing_cost_loop_schedule_witness :
  let isat := SolverCallerISAT.optimal_synthesis_decreasing_cost (H := example_python)
                example_caller 3 1 0.5 0 0 (example_world example_model) in
  ∃ names_isat w_isat names_dreal w_dreal,
    isat = Ok (names_isat, w_isat)
    ∧ SolverCallerDReal.optimal_synthesis_decreasing_cost (H := example_python)
        example_caller 3 1 0.5 0 0 (example_world example_model)
      = Ok (names_dreal, w_dreal)
    ∧ Z.of_nat (length names_isat) = 3 - 1 + 1
    ∧ Z.of_nat (length names_dreal) = 3 - 1 + 1
    ∧ names_isat = isat_out_file (H := example_python) example_caller 0.5 <$> schedule 3 1
    ∧ names_dreal = replicate (length (schedule 3 1))
                      (dreal_proof_file example_caller (example_world example_model)).
Proof.
  apply (decreasing_cost_loop_schedule (H := example_python) example_caller
           3 1 0.5 0 0 (example_world example_model)).
  - lia.
  - vm_compute. eauto.
  - intros argv fs Hfs. simpl. done.
Defined.

(** The counterexample of C3: a line that holds both markers holds the
    [MAX_COST] marker, and is left declaring the flag, not the cost. *)
Lemma edit_cost_line_with_both_markers :
  Py.contains "define MAX_COST = " "define MAX_COST = 3; define NO_COST_LIMIT = 1;" = true
  ∧ SolverCallerISAT.edit_cost example_caller 5
      (example_world "define MAX_COST = 3; define NO_COST_LIMIT = 1;")
    = Ok (write_file "./bellshape.hys" "define NO_COST_LIMIT = 0;"
            (example_world "define MAX_COST = 3; define NO_COST_LIMIT = 1;"))
  ∧ SolverCallerDReal.edit_cost example_caller 5
      (example_world "define MAX_COST = 3; define NO_COST_LIMIT = 1;")
    = Ok (write_file "./bellshape.hys" "#define NO_COST_LIMIT 0;"
            (example_world "define MAX_COST = 3; define NO_COST_LIMIT = 1;")).
Proof. repeat split; vm_compute; reflexivity. Qed.

(** The witness of C3: the model file of the example, edited for cost 7. *)
Lemma edit_cost_rewrites_lines_witness :
  (∃ content',
      SolverCallerISAT.edit_cost example_caller 7 (example_world example_model)
      = Ok (write_file (model_path example_caller) content' (example_world example_model))
      ∧ rewritten ("define MAX_COST = " +:+ Py.str 7 +:+ "; ")
          (if bool_decide (7 = 0) then "define NO_COST_LIMIT = 1;"
           else "define NO_COST_LIMIT = 0;")
          (Py.split Py.newline example_model) (Py.split Py.newline content'))
  ∧ (∃ content',
      SolverCallerDReal.edit_cost example_caller 7 (example_world example_model)
      = Ok (write_file (model_path example_caller) content' (example_world example_model))
      ∧ rewritten ("#define MAX_COST " +:+ Py.str 7)
          (if bool_decide (7 = 0) then "#define NO_COST_LIMIT 1"
           else "#define NO_COST_LIMIT 0;")
          (Py.split Py.newline example_model) (Py.split Py.newline content')).
Proof.
  apply (edit_cost_rewrites_lines example_caller 7 (example_world example_model)
           example_model).
  reflexivity.
Defined.

(** The counterexample of C5: with two modes and a depth of 3 the path
    names 1, not 2. *)
Lemma dreal_call_solver_path_not_max_depth :
  (SolverCallerDReal.call_solver (H := example_python) example_caller 0.5 20 "" 3
     (example_world example_model)).1
  = "/work/bellshape_1_0.smt2.proof"
  ∧ Py.path_join "/work" ("bellshape" +:+ "_" +:+ Py.str (3 - 1) +:+ "_0.smt2.proof")
    = "/work/bellshape_2_0.smt2.proof".
Proof. split; vm_compute; reflexivity. Qed.

(** The witness of C5: the depth left to its default. *)
Lemma dreal_call_solver_path_witness :
  (SolverCallerDReal.call_solver (H := example_python) example_caller 0.5 20 "" 0
     (example_world example_model)).1
  = Py.path_join "/work" ("bellshape" +:+ "_" +:+ Py.str (2 - 1) +:+ "_0.smt2.proof").
Proof.
  apply (dreal_call_solver_path (H := example_python) example_caller 0.5 20 "" 0
           (example_world example_model)); reflexivity.
Defined.

(** ** The matcher *)

Section matcher.
Context {R : Type}.
Implicit Types (p : ascii → bool) (k : string → option R) (s : string).

Lemma one_Some p k s r : Re.one p k s = Some r → ∃ s', k s' = Some r.
Proof. destruct s as [|c s]; simpl; [done|]. destruct (p c); eauto; done. Qed.

Lemma lazy_star_Some p k s r : Re.lazy_star p k s = Some r → ∃ s', k s' = Some r.
Proof.
  induction s as [|c s IH]; simpl; destruct (k _) eqn:E; intros Hr.
  - injection Hr as <-. eauto.
  - done.
  - injection Hr as <-. eauto.
  - destruct (p c); [by apply IH|done].
Qed.

Lemma greedy_star_Some p k s r : Re.greedy_star p k s = Some r → ∃ s', k s' = Some r.
Proof.
  induction s as [|c s IH]; simpl; [eauto|]. destruct (p c); [|eauto].
  destruct (Re.greedy_star p k s) eqn:E; intros Hr; [injection Hr as <-|]; eauto.
Qed.
End matcher.

Lemma run_groups (r : Re.regex) :
  ∀ k s groups res, Re.run r k s groups = Some res →
    ∃ s' groups', k s' (groups ++ groups') = Some res ∧ length groups' = ngroups r.
Proof.
  induction r as [|c|p|p|p|r IH|r1 IH1 r2 IH2]; intros k s groups res Hrun; simpl in *.
  - exists s, []. by rewrite app_nil_r.
  - apply one_Some in Hrun as [s' Hs']. exists s', []. by rewrite app_nil_r.
  - apply one_Some in Hrun as [s' Hs']. exists s', []. by rewrite app_nil_r.
  - apply one_Some in Hrun as [s1 Hs1]. apply lazy_star_Some in Hs1 as [s' Hs'].
    exists s', []. by rewrite app_nil_r.
  - apply one_Some in Hrun as [s1 Hs1]. apply greedy_star_Some in Hs1 as [s' Hs'].
    exists s', []. by rewrite app_nil_r.
  - apply IH in Hrun as (s' & g' & Hk & Hlen).
    exists s', (g' ++ [Re.consumed s s']). rewrite app_assoc. split; [done|].
    rewrite length_app. simpl. lia.
  - apply IH1 in Hrun as (s1 & g1 & Hk1 & Hlen1).
    apply IH2 in Hk1 as (s2 & g2 & Hk2 & Hlen2).
    exists s2, (g1 ++ g2). rewrite app_assoc. split; [done|].
    rewrite length_app. lia.
Qed.

(** A match has as many groups as its pattern. *)
Lemma match_groups (r : Re.regex) (s : string) (groups : list string) :
  Re.match_ r s = Some groups → length groups = ngroups r.
Proof.
  intros Hm. apply run_groups in Hm as (s' & g' & Hk & Hlen).
  injection Hk as <-. done.
Qed.

(** ** The recording of intervals *)

Section recording.
Implicit Types (v n : string) (st : crn_values) (l : list (string * string))
  (x y : string * string).

Lemma constant_of_snoc l x y :
  constant_of ((x :: l) ++ [y])
  = if bool_decide (x = y) then constant_of (x :: l) else None.
Proof.
  simpl. destruct (decide (x = y)) as [<-|Hxy].
  - rewrite (bool_decide_eq_true_2 (x = x)) by done.
    apply (f_equal (fun b : bool => if b then Some x else None)).
    apply bool_decide_ext. rewrite Forall_app, Forall_singleton. tauto.
  - rewrite (bool_decide_eq_false_2 (x = y)) by done.
    rewrite bool_decide_eq_false_2; [done|].
    rewrite Forall_app, Forall_singleton. tauto.
Qed.

Lemma recorded_same v st l x :
  recorded v st l → recorded v (SolverCallerDReal.record_values v x st) (l ++ [x]).
Proof.
  intros [Hav Hcv]. unfold SolverCallerDReal.record_values.
  destruct l as [|y l].
  - rewrite bool_decide_eq_true_2 by done.
    split; simpl; rewrite lookup_insert_eq; done.
  - rewrite bool_decide_eq_false_2 by (by rewrite Hav).
    unfold recorded. rewrite constant_of_snoc. unfold first_interval. simpl head.
    case_bool_decide as Hd; simpl.
    + destruct Hd as [_ Hne]. rewrite lookup_delete_eq. split; [done|].
      destruct (decide (y = x)) as [->|Hyx];
        [rewrite (bool_decide_eq_true_2 (x = x)) by done
        |by rewrite (bool_decide_eq_false_2 (y = x)) by done].
      simpl in Hcv. destruct (bool_decide (Forall (eq x) l)); [|done].
      by rewrite Hcv in Hne.
    + split; [done|]. rewrite Hcv.
      destruct (decide (y = x)) as [->|Hyx];
        [by rewrite (bool_decide_eq_true_2 (x = x)) by done
        |rewrite (bool_decide_eq_false_2 (y = x)) by done].
      destruct (constant_of (y :: l)) as [z|] eqn:Hz; [|done].
      exfalso. apply Hd. rewrite Hcv. split; [done|].
      simpl in Hz. destruct (bool_decide (Forall (eq y) l)); congruence.
Qed.

Lemma recorded_other v n st l x :
  n ≠ v → recorded v st l → recorded v (SolverCallerDReal.record_values n x st) l.
Proof.
  intros Hn [Hav Hcv]. unfold SolverCallerDReal.record_values, recorded.
  repeat case_bool_decide; simpl;
    rewrite ?lookup_insert_ne, ?lookup_delete_ne by done; done.
Qed.

Lemma recorded_time v st l (ts : entry) :
  v ≠ "time" → recorded v st l →
  recorded v (Values (constant_values st) (<["time" := ts]> (all_values st))) l.
Proof.
  intros Hv [Hav Hcv]. split; simpl; [|done]. by rewrite lookup_insert_ne.
Qed.

Lemma recorded_empty v : v ≠ "time" → recorded v (Values ∅ {["time" := Times []]}) [].
Proof. intros Hv. split; simpl; [|done]. by rewrite lookup_singleton_ne. Qed.

Lemma isat_record_values n x st :
  n ≠ "time" →
  SolverCallerISAT.record_values n x st = Ok (SolverCallerDReal.record_values n x st).
Proof.
  intros Hn. unfold SolverCallerISAT.record_values, SolverCallerDReal.record_values.
  rewrite bool_decide_eq_false_2 by done. by repeat case_bool_decide.
Qed.

(** A variable is out of [constant_values] exactly when two of its
    intervals differ. *)
Lemma constant_of_None l :
  l ≠ [] → constant_of l = None ↔ some_pair_differs l.
Proof.
  destruct l as [|x l]; [done|]. intros _. simpl. split.
  - case_bool_decide as Hall; [done|]. intros _.
    apply not_Forall_Exists in Hall; [|intros z; apply _].
    apply Exists_exists in Hall as (y & Hy & Hxy).
    apply list_elem_of_lookup in Hy as [j Hj].
    exists 0%nat, (S j), x, y. done.
  - intros (i & j & a & b & Hi & Hj & Hab).
    case_bool_decide as Hall; [|done]. exfalso. apply Hab.
    assert (∀ (k : nat) z, (x :: l) !! k = Some z → z = x) as Hx.
    { intros [|k] z Hk; simpl in Hk; [congruence|].
      symmetry. eapply Forall_lookup_1; eauto. }
    rewrite (Hx i a Hi), (Hx j b Hj). done.
Qed.

Lemma constant_of_Some l x : constant_of l = Some x → head l = Some x.
Proof. destruct l; simpl; [done|]. case_bool_decide; congruence. Qed.
End recording.

(** ** The line parsers *)

Section parsers.
Context `{Python}.
Implicit Types (v n : string) (st : crn_values) (l : list (string * string))
  (x : string * string) (lines : list string).

Lemma record_values_time_listed n x st :
  time_listed st → time_listed (SolverCallerDReal.record_values n x st).
Proof.
  intros [ts Hts]. unfold SolverCallerDReal.record_values, time_listed.
  repeat case_bool_decide; simpl; eauto.
  destruct (decide (n = "time")) as [->|Hn]; [congruence|].
  rewrite lookup_insert_ne by done. eauto.
Qed.

Lemma observed_for_cons v n x (readings : list (string * (string * string))) :
  observed_for v ((n, x) :: readings)
  = if decide (n = v) then x :: observed_for v readings else observed_for v readings.
Proof.
  unfold observed_for. rewrite filter_cons. simpl. by destruct (decide (n = v)).
Qed.

(** One reading of the loop: what the chain leaves for [v]. *)
Lemma recorded_reading v n x st l :
  recorded v st l →
  recorded v (SolverCallerDReal.record_values n x st)
    (l ++ observed_for v [(n, x)]).
Proof.
  intros Hrec. rewrite observed_for_cons. destruct (decide (n = v)) as [->|Hn].
  - by apply recorded_same.
  - rewrite app_nil_r. by apply recorded_other.
Qed.

Lemma observed_for_app_cons v n x (readings : list (string * (string * string))) l :
  (l ++ observed_for v [(n, x)]) ++ observed_for v readings
  = l ++ observed_for v ((n, x) :: readings).
Proof.
  rewrite !observed_for_cons. destruct (decide (n = v)); simpl.
  - by rewrite <- app_assoc.
  - by rewrite app_nil_r.
Qed.

Lemma isat_p_groups line groups :
  Re.match_ SolverCallerISAT.p line = Some groups → ∃ g, groups = [g].
Proof.
  intros Hm. apply match_groups in Hm.
  destruct groups as [|g [|g' groups]]; simpl in Hm; try done. eauto.
Qed.

Lemma dreal_p_groups line groups :
  Re.match_ SolverCallerDReal.p line = Some groups → ∃ g0 g1 g2, groups = [g0; g1; g2].
Proof.
  intros Hm. apply match_groups in Hm.
  destruct groups as [|g0 [|g1 [|g2 [|g3 groups]]]]; simpl in Hm; try done. eauto.
Qed.

(** The loop of the iSAT parser returns, and leaves for a variable what
    its readings say. *)
Lemma isat_for_each v :
  v ≠ "time" →
  ∀ lines cur st l, recorded v st l → time_listed st →
    ∃ cur' st',
      for_each SolverCallerISAT.getCRNValues_body (cur, st) lines = Ok (cur', st')
      ∧ recorded v st' (l ++ observed_for v (isat_observed cur lines))
      ∧ time_listed st'.
Proof.
  intros Hv. induction lines as [|line lines IH]; intros cur st l Hrec Htime; simpl.
  { exists cur, st. by rewrite app_nil_r. }
  destruct (Re.match_ SolverCallerISAT.p line) as [groups|] eqn:Hp.
  { destruct (isat_p_groups _ _ Hp) as [g ->].
    destruct (_ || _); simpl; by apply IH. }
  destruct (Re.match_ SolverCallerISAT.p2 line) as [[|lo [|hi [|g groups]]]|];
    destruct cur as [name|]; simpl; try (by apply IH).
  case_bool_decide as Hname; simpl; [by apply IH|].
  destruct (decide (name = "time")) as [->|Htm].
  - unfold SolverCallerISAT.record_values. rewrite bool_decide_eq_true_2 by done.
    destruct Htime as [ts Hts]. rewrite Hts. simpl.
    rewrite observed_for_cons. rewrite decide_False by done.
    apply IH; [by apply recorded_time|].
    eexists. simpl. apply lookup_insert_eq.
  - rewrite isat_record_values by done. simpl.
    rewrite <- observed_for_app_cons.
    apply IH; [by apply recorded_reading|by apply record_values_time_listed].
Qed.

(** The body of the loop of the dReal parser, by what it reads of the
    line. *)
Lemma dreal_body_reading st line :
  SolverCallerDReal.getCRNValues_body st line
  = match dreal_reading line with
    | None => Ok st
    | Some (inl t) =>
        match float_of_str t with
        | None => Raise ValueError
        | Some x =>
            match all_values st !! "time" with
            | Some (Times ts) =>
                Ok (Values (constant_values st)
                      (<["time" := Times (ts ++ [SNum x])]> (all_values st)))
            | Some (Interval _ _) => Raise AttributeError
            | None => Raise KeyError
            end
        end
    | Some (inr (n, x)) => Ok (SolverCallerDReal.record_values n x st)
    end.
Proof.
  unfold SolverCallerDReal.getCRNValues_body, dreal_reading.
  destruct (Re.match_ SolverCallerDReal.p line) as [groups|] eqn:Hp; [|done].
  destruct (dreal_p_groups _ _ Hp) as (g0 & g1 & g2 & ->).
  repeat (case_bool_decide; simpl; try done); repeat (case_match; simpl; try done).
Qed.

Lemma dreal_for_each v :
  v ≠ "time" →
  ∀ lines st l, recorded v st l → time_listed st →
    Forall (fun t => is_Some (float_of_str t)) (dreal_times lines) →
    ∃ st',
      for_each SolverCallerDReal.getCRNValues_body st lines = Ok st'
      ∧ recorded v st' (l ++ observed_for v (dreal_observed lines))
      ∧ time_listed st'.
Proof.
  intros Hv. induction lines as [|line lines IH]; intros st l Hrec Htime Hfl; simpl.
  { exists st. by rewrite app_nil_r. }
  rewrite dreal_body_reading.
  unfold dreal_times, dreal_observed in *. simpl in *.
  destruct (dreal_reading line) as [[t|[n x]]|]; simpl in *.
  - apply Forall_cons in Hfl as [[y Hy] Hfl]. rewrite Hy.
    destruct Htime as [ts Hts]. rewrite Hts. simpl.
    apply IH; [by apply recorded_time| |done].
    eexists. simpl. apply lookup_insert_eq.
  - rewrite <- observed_for_app_cons.
    apply IH; [by apply recorded_reading|by apply record_values_time_listed|done].
  - by apply IH.
Qed.

(** Lines that match no pattern leave the state as it is. *)
Lemma isat_for_each_no_match lines cur st :
  Forall (fun line => Re.match_ SolverCallerISAT.p line = None
                      ∧ Re.match_ SolverCallerISAT.p2 line = None) lines →
  for_each SolverCallerISAT.getCRNValues_body (cur, st) lines = Ok (cur, st).
Proof.
  induction 1 as [|line lines [Hp Hp2] _ IH]; simpl; [done|].
  by rewrite Hp, Hp2.
Qed.

Lemma dreal_for_each_no_match lines st :
  Forall (fun line => Re.match_ SolverCallerDReal.p line = None) lines →
  for_each SolverCallerDReal.getCRNValues_body st lines = Ok st.
Proof.
  induction 1 as [|line lines Hp _ IH]; [done|]. cbn [for_each].
  rewrite dreal_body_reading. unfold dreal_reading. by rewrite Hp.
Qed.
End parsers.

Section parser_claims.
Context `{Python}.

(** C1 (as amended): for every variable name other than ["time"], when the
    intervals the parser reads for it are [first :: rest], the parser returns,
    [all_values] maps the name to [first], and the name is absent from
    [constant_values] exactly when two of the intervals differ (it is mapped
    to [first] otherwise); for the iSAT parser, and for the dReal parser on a
    file whose transition times [float] reads. *)
Theorem demotion (content v : string) (first : string * string)
    (rest : list (string * string)) :
  v ≠ "time" →
  (observed_for v (isat_observed None (Py.readlines content)) = first :: rest →
   ∃ cv av,
     SolverCallerISAT.getCRNValues content = Ok (cv, av)
     ∧ av !! v = Some (Interval (SStr first.1) (SStr first.2))
     ∧ (cv !! v = None ↔ some_pair_differs (first :: rest))
     ∧ (cv !! v = None ∨ cv !! v = Some first))
  ∧ (Forall (fun t => is_Some (float_of_str t)) (dreal_times (Py.readlines content)) →
     observed_for v (dreal_observed (Py.readlines content)) = first :: rest →
     ∃ cv av,
       SolverCallerDReal.getCRNValues content = Ok (cv, av)
       ∧ av !! v = Some (Interval (SStr first.1) (SStr first.2))
       ∧ (cv !! v = None ↔ some_pair_differs (first :: rest))
       ∧ (cv !! v = None ∨ cv !! v = Some first)).
Proof.
  intros Hv.
  assert (∀ st, recorded v st (first :: rest) →
            all_values st !! v = Some (Interval (SStr first.1) (SStr first.2))
            ∧ (constant_values st !! v = None ↔ some_pair_differs (first :: rest))
            ∧ (constant_values st !! v = None ∨ constant_values st !! v = Some first))
    as Hfinal.
  { intros st [Hav Hcv]. split; [done|]. rewrite Hcv. split.
    - by apply constant_of_None.
    - destruct (constant_of (first :: rest)) as [x|] eqn:Hx; [|by left].
      right. apply constant_of_Some in Hx. simpl in Hx. congruence. }
  split.
  - intros Hobs.
    destruct (isat_for_each v Hv (Py.readlines content) None
                (Values ∅ {["time" := Times []]}) [])
      as (cur & st & Hrun & Hrec & _).
    { by apply recorded_empty. }
    { eexists. apply lookup_singleton_eq. }
    simpl in Hrec. rewrite Hobs in Hrec.
    exists (constant_values st), (all_values st).
    unfold SolverCallerISAT.getCRNValues. rewrite Hrun. split; [done|].
    by apply Hfinal.
  - intros Hfl Hobs.
    destruct (dreal_for_each v Hv (Py.readlines content)
                (Values ∅ {["time" := Times []]}) [])
      as (st & Hrun & Hrec & _).
    { by apply recorded_empty. }
    { eexists. apply lookup_singleton_eq. }
    { done. }
    simpl in Hrec. rewrite Hobs in Hrec.
    exists (constant_values st), (all_values st).
    unfold SolverCallerDReal.getCRNValues. rewrite Hrun. split; [done|].
    by apply Hfinal.
Qed.

(** C7: the iSAT parser returns on every file content, cut short or not;
    the dReal parser returns on every content whose transition times [float]
    reads; and on a content with no line that matches a pattern, the empty
    one among them, both return [constant_values] empty and [all_values]
    with the empty list of times and no variable. *)
Theorem parsers_on_no_match (content : string) :
  (∃ cv av, SolverCallerISAT.getCRNValues content = Ok (cv, av))
  ∧ (Forall (fun t => is_Some (float_of_str t)) (dreal_times (Py.readlines content)) →
     ∃ cv av, SolverCallerDReal.getCRNValues content = Ok (cv, av))
  ∧ (Forall (fun line => Re.match_ SolverCallerISAT.p line = None
                         ∧ Re.match_ SolverCallerISAT.p2 line = None)
       (Py.readlines content) →
     SolverCallerISAT.getCRNValues content = Ok (∅, {["time" := Times []]}))
  ∧ (Forall (fun line => Re.match_ SolverCallerDReal.p line = None)
       (Py.readlines content) →
     SolverCallerDReal.getCRNValues content = Ok (∅, {["time" := Times []]})).
Proof.
  assert ("x" ≠ "time") as Hx by done.
  repeat split.
  - destruct (isat_for_each "x" Hx (Py.readlines content) None
                (Values ∅ {["time" := Times []]}) [])
      as (cur & st & Hrun & _).
    { by apply recorded_empty. }
    { eexists. apply lookup_singleton_eq. }
    unfold SolverCallerISAT.getCRNValues. rewrite Hrun. simpl. eauto.
  - intros Hfl.
    destruct (dreal_for_each "x" Hx (Py.readlines content)
                (Values ∅ {["time" := Times []]}) [])
      as (st & Hrun & _).
    { by apply recorded_empty. }
    { eexists. apply lookup_singleton_eq. }
    { done. }
    unfold SolverCallerDReal.getCRNValues. rewrite Hrun. simpl. eauto.
  - intros Hno. unfold SolverCallerISAT.getCRNValues.
    by rewrite isat_for_each_no_match.
  - intros Hno. unfold SolverCallerDReal.getCRNValues.
    by rewrite dreal_for_each_no_match.
Qed.
End parser_claims.

(** The witness of C1: the rate [k_1] with the intervals [0.2,0.4] and
    [0.5,0.6]. *)
Lemma demotion_witness :
  (∃ cv av,
     SolverCallerISAT.getCRNValues example_isat_output = Ok (cv, av)
     ∧ av !! "k_1" = Some (Interval (SStr "0.2") (SStr "0.4"))
     ∧ (cv !! "k_1" = None ↔ some_pair_differs [("0.2", "0.4"); ("0.5", "0.6")])
     ∧ (cv !! "k_1" = None ∨ cv !! "k_1" = Some ("0.2", "0.4")))
  ∧ (∃ cv av,
       SolverCallerDReal.getCRNValues (H := example_python) example_dreal_output
       = Ok (cv, av)
       ∧ av !! "k_1" = Some (Interval (SStr "0.2") (SStr "0.4"))
       ∧ (cv !! "k_1" = None ↔ some_pair_differs [("0.2", "0.4"); ("0.5", "0.6")])
       ∧ (cv !! "k_1" = None ∨ cv !! "k_1" = Some ("0.2", "0.4"))).
Proof.
  split.
  - apply (demotion (H := example_python) example_isat_output "k_1"
             ("0.2", "0.4") [("0.5", "0.6")]); [done|].
    vm_compute. reflexivity.
  - apply (demotion (H := example_python) example_dreal_output "k_1"
             ("0.2", "0.4") [("0.5", "0.6")]); [done| |].
    + vm_compute. repeat constructor. eexists. reflexivity.
    + vm_compute. reflexivity.
Defined.

(** The counterexample of C1: the variable ["time"]. Its two intervals are
    the same, yet it is not in [constant_values], and [all_values] maps it
    to the list of upper bounds (iSAT) or to the list of transition times
    (dReal), not to its first interval. *)
Lemma demotion_fails_for_time :
  observed_for "time"
    (isat_observed None
       (Py.readlines ("time (float):" +:+ nl +:+ "  @0: [0.2,0.4] (approx)" +:+ nl
                      +:+ "  @1: [0.2,0.4] (approx)" +:+ nl)))
  = [("0.2", "0.4"); ("0.2", "0.4")]
  ∧ SolverCallerISAT.getCRNValues
      ("time (float):" +:+ nl +:+ "  @0: [0.2,0.4] (approx)" +:+ nl
       +:+ "  @1: [0.2,0.4] (approx)" +:+ nl)
    = Ok (∅, {["time" := Times [SStr "0.4"; SStr "0.4"]]})
  ∧ observed_for "time"
      (dreal_observed
         (Py.readlines (String Py.tab "time_0_0 : [0.2, 0.4]" +:+ nl +:+
                        String Py.tab "time_1_0 : [0.2, 0.4]" +:+ nl)))
    = [("0.2", "0.4"); ("0.2", "0.4")]
  ∧ SolverCallerDReal.getCRNValues (H := example_python)
      (String Py.tab "time_0_0 : [0.2, 0.4]" +:+ nl +:+
       String Py.tab "time_1_0 : [0.2, 0.4]" +:+ nl)
    = Ok (∅, {["time" := Times []]}).
Proof. repeat split; vm_compute; reflexivity. Qed.

(** The witness of C7: the empty file, and for the last two parts a file
    with one line of another kind. *)
Lemma parsers_on_no_match_witness :
  (SolverCallerISAT.getCRNValues "" = Ok (∅, {["time" := Times []]})
   ∧ SolverCallerDReal.getCRNValues (H := example_python) ""
     = Ok (∅, {["time" := Times []]}))
  ∧ (SolverCallerISAT.getCRNValues ("UNSATISFIABLE" +:+ nl)
     = Ok (∅, {["time" := Times []]})
     ∧ SolverCallerDReal.getCRNValues (H := example_python) ("unsat" +:+ nl)
       = Ok (∅, {["time" := Times []]}))
  ∧ ∃ cv av, SolverCallerDReal.getCRNValues (H := example_python) example_dreal_output
             = Ok (cv, av).
Proof.
  split; [split|split; [split|]].
  - apply (parsers_on_no_match (H := example_python) ""). constructor.
  - apply (parsers_on_no_match (H := example_python) ""). constructor.
  - apply (parsers_on_no_match (H := example_python) ("UNSATISFIABLE" +:+ nl)).
    repeat constructor.
  - apply (parsers_on_no_match (H := example_python) ("unsat" +:+ nl)).
    repeat constructor.
  - apply (parsers_on_no_match (H := example_python) example_dreal_output).
    vm_compute. repeat constructor. eexists. reflexivity.
Defined.

(** ** The parser of structured traces *)

Section json_parser.
Implicit Types (t : json) (st : SolverCallerDReal.json_parser)
  (kt : string * list json) (typed : list (string * list json)).

Lemma single_value_spec interval entries enclosures :
  Forall2 (fun v e => Json.getitem v "enclosure" = Ok e) entries enclosures →
  SolverCallerDReal.single_value interval entries
  = Ok (forallb (fun e => Json.eqb e interval) enclosures).
Proof.
  induction 1 as [|v e entries enclosures Hv _ IH]; simpl; [done|].
  rewrite Hv. simpl. destruct (Json.eqb e interval); simpl; done.
Qed.

Lemma json_body_spec st t kt :
  trace_reads t kt.1 kt.2 → (derived_name kt.1 ≠ "" → kt.2 ≠ []) →
  SolverCallerDReal.getCRNValuesFromJSON_body st t = Ok (json_step st kt).
Proof.
  destruct kt as [key enclosures]. simpl.
  intros (Hkey & entries & Hvalues & Hencl) Hne.
  unfold SolverCallerDReal.getCRNValuesFromJSON_body, json_step. simpl.
  rewrite Hkey. simpl. fold (derived_name key).
  case_bool_decide as Hn; [by rewrite Hn|].
  specialize (Hne Hn). rewrite Hvalues. simpl.
  destruct Hencl as [|v first entries rest Hv Hrest]; [done|]. simpl.
  rewrite Hv. simpl.
  rewrite (single_value_spec first entries rest Hrest).
  destruct (derived_name key); [done|].
  destruct (Json.eqb first first); simpl; done.
Qed.

Lemma json_for_each_spec traces typed :
  Forall2 (fun t kt => trace_reads t kt.1 kt.2 ∧ (derived_name kt.1 ≠ "" → kt.2 ≠ []))
    traces typed →
  ∀ st, for_each SolverCallerDReal.getCRNValuesFromJSON_body st traces
        = Ok (foldl json_step st typed).
Proof.
  induction 1 as [|t kt traces typed [Hr Hne] _ IH]; intros st; simpl; [done|].
  rewrite (json_body_spec st t kt Hr Hne). simpl. apply IH.
Qed.

(** Traces of other names leave a name as it is. *)
Lemma json_step_other st kt n :
  derived_name kt.1 ≠ n →
  SolverCallerDReal.json_constant_values (json_step st kt) !! n
  = SolverCallerDReal.json_constant_values st !! n
  ∧ SolverCallerDReal.json_all_values (json_step st kt) !! n
    = SolverCallerDReal.json_all_values st !! n.
Proof.
  intros Hn. unfold json_step.
  destruct (derived_name kt.1) as [|c name] eqn:E; [done|].
  destruct kt.2 as [|first rest]; [done|]. simpl.
  destruct (Json.eqb first first && _); rewrite ?lookup_insert_ne by done; done.
Qed.

Lemma json_foldl_other typed n :
  Forall (fun kt => derived_name kt.1 ≠ n) typed →
  ∀ st,
    SolverCallerDReal.json_constant_values (foldl json_step st typed) !! n
    = SolverCallerDReal.json_constant_values st !! n
    ∧ SolverCallerDReal.json_all_values (foldl json_step st typed) !! n
      = SolverCallerDReal.json_all_values st !! n.
Proof.
  induction 1 as [|kt typed Hkt _ IH]; intros st; simpl; [done|].
  destruct (IH (json_step st kt)) as [-> ->]. by apply json_step_other.
Qed.

Lemma json_step_same st key first rest :
  derived_name key ≠ "" →
  SolverCallerDReal.json_all_values (json_step st (key, first :: rest))
    !! derived_name key = Some first
  ∧ SolverCallerDReal.json_constant_values (json_step st (key, first :: rest))
      !! derived_name key
    = if forallb (fun e => Json.eqb e first) (first :: rest) then Some first
      else SolverCallerDReal.json_constant_values st !! derived_name key.
Proof.
  intros Hn. unfold json_step. simpl.
  destruct (derived_name key) as [|c name] eqn:E; [done|]. simpl.
  rewrite lookup_insert_eq. split; [done|].
  destruct (Json.eqb first first && _); [by rewrite lookup_insert_eq|done].
Qed.
End json_parser.

Lemma forallb_Forall {A} (f : A → bool) (l : list A) :
  forallb f l = true ↔ Forall (fun x => f x = true) l.
Proof.
  induction l as [|x l IH]; simpl; [by split; [constructor|]|].
  rewrite andb_true_iff, IH, Forall_cons. done.
Qed.

(** C8 (as amended): on a document whose traces the parser can read, the
    parser returns, and for a trace whose derived name is not empty and is
    the derived name of no other trace of the document, [all_values] maps the
    name to the first enclosure of the trace, and [constant_values] maps it to
    that enclosure exactly when every enclosure of the trace equals the first
    (it has no entry for the name otherwise). In particular the trace
    ["X_0_1"] with the enclosure [[0.0, 0.0]] twice gives [[0.0, 0.0]] for
    ["X"] in both. *)
Theorem json_trace_recorded (results : json) (traces : list json)
    (typed : list (string * list json)) :
  ((Json.getitem results "traces" ≫= fun x => Json.getindex x 0) = Ok (JArr traces) →
   Forall2 (fun t kt => trace_reads t kt.1 kt.2 ∧ (derived_name kt.1 ≠ "" → kt.2 ≠ []))
     traces typed →
   ∃ cv av,
     SolverCallerDReal.getCRNValuesFromJSON results = Ok (cv, av)
     ∧ ∀ (i : nat) key first rest,
         typed !! i = Some (key, first :: rest) →
         derived_name key ≠ "" →
         (∀ (j : nat) kt, typed !! j = Some kt → j ≠ i →
                          derived_name kt.1 ≠ derived_name key) →
         av !! derived_name key = Some first
         ∧ (cv !! derived_name key = Some first ↔ all_equal first (first :: rest))
         ∧ (cv !! derived_name key = Some first ∨ cv !! derived_name key = None))
  ∧ SolverCallerDReal.getCRNValuesFromJSON example_trace_document
    = Ok ({["X" := JArr [JNum 0; JNum 0]]}, {["X" := JArr [JNum 0; JNum 0]]}).
Proof.
  split; [|vm_compute; reflexivity].
  intros Htraces Hwf. unfold SolverCallerDReal.getCRNValuesFromJSON.
  destruct (Json.getitem results "traces") as [x|e]; simpl in *; [|done].
  rewrite Htraces. simpl.
  rewrite (json_for_each_spec traces typed Hwf). simpl.
  eexists _, _. split; [done|].
  intros i key first rest Hi Hn Huniq.
  rewrite <- (take_drop_middle typed i _ Hi), foldl_app. simpl.
  set (st1 := foldl json_step _ (take i typed)).
  destruct (json_foldl_other (drop (S i) typed) (derived_name key))
    with (st := json_step st1 (key, first :: rest)) as [-> ->].
  { apply Forall_forall. intros kt Hkt.
    apply list_elem_of_lookup in Hkt as [j Hj]. rewrite lookup_drop in Hj.
    apply (Huniq _ _ Hj). lia. }
  destruct (json_step_same st1 key first rest Hn) as [-> ->].
  destruct (json_foldl_other (take i typed) (derived_name key))
    with (st := SolverCallerDReal.JsonParser ∅ ∅) as [Hcv _].
  { apply Forall_forall. intros kt Hkt.
    apply list_elem_of_lookup in Hkt as [j Hj].
    apply lookup_take_Some in Hj as [Hj Hlt].
    apply (Huniq _ _ Hj). lia. }
  fold st1 in Hcv. rewrite Hcv.
  assert (forallb (fun e => Json.eqb e first) (first :: rest) = true
          ↔ all_equal first (first :: rest)) as Hb by apply forallb_Forall.
  destruct (forallb _ (first :: rest)); cbn [SolverCallerDReal.json_constant_values].
  - split; [done|]. split; [|by left]. split; [intros _; by apply Hb|done].
  - rewrite lookup_empty. split; [done|]. split; [|by right].
    split; [done|]. intros Hall. by apply Hb in Hall.
Qed.

(** The witness of C8: a document with a constant trace and one that
    varies. *)
Lemma json_trace_recorded_witness :
  ∃ cv av,
    SolverCallerDReal.getCRNValuesFromJSON
      (json_document [json_trace "X_0_0" [JArr [JNum 1; JNum 2]; JArr [JNum 1; JNum 2]];
                      json_trace "k_1_0" [JArr [JNum 1; JNum 2]; JArr [JNum 3; JNum 4]]])
    = Ok (cv, av)
    ∧ ∀ (i : nat) key first rest,
        [("X_0_0", [JArr [JNum 1; JNum 2]; JArr [JNum 1; JNum 2]]);
         ("k_1_0", [JArr [JNum 1; JNum 2]; JArr [JNum 3; JNum 4]])] !! i
        = Some (key, first :: rest) →
        derived_name key ≠ "" →
        (∀ (j : nat) kt,
           [("X_0_0", [JArr [JNum 1; JNum 2]; JArr [JNum 1; JNum 2]]);
            ("k_1_0", [JArr [JNum 1; JNum 2]; JArr [JNum 3; JNum 4]])] !! j = Some kt →
           j ≠ i → derived_name kt.1 ≠ derived_name key) →
        av !! derived_name key = Some first
        ∧ (cv !! derived_name key = Some first ↔ all_equal first (first :: rest))
        ∧ (cv !! derived_name key = Some first ∨ cv !! derived_name key = None).
Proof.
  apply (json_trace_recorded
           (json_document
              [json_trace "X_0_0" [JArr [JNum 1; JNum 2]; JArr [JNum 1; JNum 2]];
               json_trace "k_1_0" [JArr [JNum 1; JNum 2]; JArr [JNum 3; JNum 4]]])
           [json_trace "X_0_0" [JArr [JNum 1; JNum 2]; JArr [JNum 1; JNum 2]];
            json_trace "k_1_0" [JArr [JNum 1; JNum 2]; JArr [JNum 3; JNum 4]]]
           [("X_0_0", [JArr [JNum 1; JNum 2]; JArr [JNum 1; JNum 2]]);
            ("k_1_0", [JArr [JNum 1; JNum 2]; JArr [JNum 3; JNum 4]])]).
  - reflexivity.
  - repeat constructor; simpl; try done;
      eexists; (split; [reflexivity|]); repeat constructor.
Defined.

(** The counterexample of C8: two traces of the same derived name. A
    constant trace is overwritten by the next one, in both dictionaries; and
    a trace that varies finds its first enclosure in [constant_values], left
    there by the trace before it. *)
Lemma json_traces_share_a_name :
  SolverCallerDReal.getCRNValuesFromJSON
    (json_document [json_trace "X_0_0" [JArr [JNum 1; JNum 1]];
                    json_trace "X_1_0" [JArr [JNum 2; JNum 2]]])
  = Ok ({["X" := JArr [JNum 2; JNum 2]]}, {["X" := JArr [JNum 2; JNum 2]]})
  ∧ SolverCallerDReal.getCRNValuesFromJSON
      (json_document [json_trace "X_0_0" [JArr [JNum 1; JNum 1]];
                      json_trace "X_1_0" [JArr [JNum 1; JNum 1]; JArr [JNum 3; JNum 3]]])
    = Ok ({["X" := JArr [JNum 1; JNum 1]]}, {["X" := JArr [JNum 1; JNum 1]]})
  ∧ Json.eqb (JArr [JNum 3; JNum 3]) (JArr [JNum 1; JNum 1]) = false.
Proof. repeat split; vm_compute; reflexivity. Qed.

(** ** The assembly of the numeric model *)

Section sympy.
Context `{Sympy.Library}.
Import Sympy.
Implicit Types (e : expr) (x : string) (v : float).

(** A substitution leaves an expression that does not mention its symbol
    as it is. *)
Lemma subs_fresh e x v : x ∉ free_symbols e → subs e x v = e.
Proof.
  destruct e as [name|y|a b|a b]; simpl; intros Hx.
  - rewrite bool_decide_eq_false_2; [done|]. set_solver.
  - done.
  - by rewrite bool_decide_eq_false_2.
  - by rewrite bool_decide_eq_false_2.
Qed.

(** A substitution removes its symbol, and brings in none. *)
Lemma free_symbols_subs e x v :
  free_symbols (subs e x v) ⊆ free_symbols e ∖ {[x]}.
Proof.
  induction e as [name|y|a IHa b IHb|a IHa b IHb]; simpl.
  - case_bool_decide; simpl; set_solver.
  - set_solver.
  - case_bool_decide as Hx; simpl; [|set_solver].
    pose proof (add_free_symbols (subs a x v) (subs b x v)). set_solver.
  - case_bool_decide as Hx; simpl; [|set_solver].
    pose proof (mul_free_symbols (subs a x v) (subs b x v)). set_solver.
Qed.

Lemma free_symbols_substitute_all params e :
  free_symbols (substitute_all params e)
  ⊆ free_symbols e ∖ list_to_set (params.*1).
Proof.
  revert e. induction params as [|[n m] params IH]; intros e; simpl.
  - set_solver.
  - unfold substitute_all in *. simpl.
    pose proof (IH (subs e n m)). pose proof (free_symbols_subs e n m). set_solver.
Qed.

(** Substitutions leave an expression that mentions none of their symbols
    as it is. *)
Lemma substitute_all_fresh params e :
  (∀ p, p ∈ params.*1 → p ∉ free_symbols e) → substitute_all params e = e.
Proof.
  induction params as [|[n m] params IH]; intros Hfresh; [done|].
  unfold substitute_all in *. simpl. rewrite subs_fresh by set_solver.
  apply IH. set_solver.
Qed.

Lemma subs_sympify_ordinary e x v :
  ordinary x → subs_sympify e x v = Ok (subs e x v).
Proof. unfold ordinary, subs_sympify. by intros ->. Qed.
End sympy.

Section assembly.
Context `{Python} `{Sympy.Library}.
Import Sympy.
Implicit Types (flow : list (string * expr)) (vals : list (string * entry))
  (means params : list (string * float)) (ic : gmap string float)
  (names ds : list string).

Lemma midpoint_mean_val (v : entry) (m : float) :
  midpoint_of v m → SolverCallerBase.mean_val v = Ok m.
Proof.
  intros (lo & hi & a & b & -> & Ha & Hb & ->).
  unfold SolverCallerBase.mean_val. simpl. rewrite Ha. simpl. by rewrite Hb.
Qed.

(** The loop over [flow] that replaces one parameter. *)
Lemma subs_loop (v : entry) (val : string) (m : float) flow :
  SolverCallerBase.mean_val v = Ok m → ordinary val →
  ∀ acc,
    for_each
      (fun (done : list (string * expr)) (xe : string * expr) =>
         m ← SolverCallerBase.mean_val v;
         e ← subs_sympify xe.2 val m;
         Ok (done ++ [(xe.1, e)]))
      acc flow
    = Ok (acc ++ ((fun xe : string * expr => (xe.1, subs xe.2 val m)) <$> flow)).
Proof.
  intros Hm Hval. rewrite Hm. induction flow as [|xe flow IH]; intros acc; simpl.
  - by rewrite app_nil_r.
  - rewrite subs_sympify_ordinary by done. simpl. rewrite IH, <- app_assoc. done.
Qed.

(** The loop over [flow] that replaces [SF]. *)
Lemma scale_factor_loop (scale_factor : float) flow :
  ∀ acc,
    for_each
      (fun (done : list (string * expr)) (xe : string * expr) =>
         e ← subs_sympify xe.2 "SF" scale_factor;
         Ok (done ++ [(xe.1, e)]))
      acc flow
    = Ok (acc ++ ((fun xe : string * expr => (xe.1, subs xe.2 "SF" scale_factor))
                  <$> flow)).
Proof.
  induction flow as [|xe flow IH]; intros acc; simpl.
  - by rewrite app_nil_r.
  - rewrite subs_sympify_ordinary by apply sympify_SF. simpl.
    rewrite IH, <- app_assoc. done.
Qed.

(** The loop over [vals]: the species give initial conditions, the others
    are replaced in the flow. *)
Lemma vals_loop names :
  ∀ vals means ic flow,
    midpoints vals means →
    Forall ordinary (filter (fun nm : string * float => nm.1 ∉ names) means).*1 →
    for_each (SolverCallerBase.get_full_solution_body names) (ic, flow) vals
    = Ok (foldl (fun ic (nm : string * float) => <[nm.1 := nm.2]> ic) ic
            (filter (fun nm : string * float => nm.1 ∈ names) means),
          (fun xe : string * expr =>
             (xe.1, substitute_all
                      (filter (fun nm : string * float => nm.1 ∉ names) means) xe.2))
          <$> flow).
Proof.
  unfold midpoints.
  induction vals as [|[val v] vals IH]; intros means ic flow Hmeans Hord.
  - apply Forall2_nil_inv_l in Hmeans as ->. simpl.
    f_equal. f_equal. induction flow as [|[x e] flow IHf]; simpl; [done|].
    f_equal. exact IHf.
  - rewrite filter_cons in Hmeans. simpl in Hmeans. simpl.
    destruct (decide (val ≠ "time")) as [Hval|Hval].
    + apply Forall2_cons_inv_l in Hmeans as ([n m] & means' & [Hn Hm] & Hmeans & ->).
      simpl in Hn, Hm. subst n. apply midpoint_mean_val in Hm.
      rewrite bool_decide_eq_false_2 by done.
      rewrite !filter_cons. rewrite filter_cons in Hord. simpl in Hord |- *.
      case_bool_decide as Hin.
      * rewrite Hm. simpl. rewrite decide_True by done.
        rewrite decide_False by (by intros Hnot).
        rewrite decide_False in Hord by (by intros Hnot). simpl. by apply IH.
      * rewrite decide_True in Hord by done. rewrite fmap_cons in Hord.
        apply Forall_cons in Hord as [Hval' Hord]. simpl in Hval'.
        rewrite (subs_loop v val m flow Hm Hval' []). simpl.
        rewrite decide_False by done. rewrite decide_True by done.
        rewrite (IH means' ic _ Hmeans Hord). f_equal. f_equal.
        rewrite <- list_fmap_compose. apply list_fmap_ext. intros _ [x e] _. done.
    + apply dec_stable in Hval. subst val.
      rewrite bool_decide_eq_true_2 by done. simpl. by apply IH.
Qed.

Lemma del_ok (d : string) flow :
  ordinary d → d ∈ flow.*1 →
  SolverCallerBase.del_sympify d flow
  = Ok (filter (fun xe : string * expr => xe.1 ≠ d) flow).
Proof.
  unfold ordinary. intros Hord Hd.
  unfold SolverCallerBase.del_sympify, SolverCallerBase.del.
  rewrite Hord. by rewrite bool_decide_eq_true_2.
Qed.

(** The deletions of the derivative entries. *)
Lemma del_loop ds :
  ∀ flow, Forall ordinary ds → NoDup ds → Forall (fun d => d ∈ flow.*1) ds →
    for_each (fun d x => SolverCallerBase.del_sympify x d) flow ds
    = Ok (filter (fun xe : string * expr => xe.1 ∉ ds) flow).
Proof.
  induction ds as [|d ds IH]; intros flow Hord Hnd Hin; simpl.
  - f_equal. clear Hin. induction flow as [|xe flow IHf]; [done|].
    rewrite filter_cons_True by set_solver. f_equal. exact IHf.
  - apply NoDup_cons in Hnd as [Hd Hnd]. apply Forall_cons in Hin as [Hdin Hin].
    apply Forall_cons in Hord as [Hdord Hord].
    rewrite del_ok by done. simpl.
    rewrite IH; [|done|done|].
    + f_equal. rewrite list_filter_filter. apply list_filter_iff.
      intros xe. set_solver.
    + eapply Forall_impl; [apply Forall_and; split; [exact Hin|]|].
      * apply Forall_forall. intros y Hy. exact Hy.
      * intros y [Hy Hyds]. simpl in *.
        apply list_elem_of_fmap in Hy as ([x e] & -> & Hxe).
        apply list_elem_of_fmap. exists (x, e). split; [done|].
        apply list_elem_of_filter. split; [|done]. simpl. intros ->. done.
Qed.

(** The dictionary built by assignments with keys that do not repeat. *)
Lemma foldl_insert_lookup means :
  NoDup (means.*1) →
  ∀ ic (x : string) (m : float),
    foldl (fun ic (nm : string * float) => <[nm.1 := nm.2]> ic) ic means !! x = Some m
    ↔ (x, m) ∈ means ∨ ((x ∉ means.*1) ∧ ic !! x = Some m).
Proof.
  induction means as [|[n a] means IH]; intros Hnd ic x m; simpl.
  - set_solver.
  - simpl in Hnd. apply NoDup_cons in Hnd as [Hn Hnd]. rewrite (IH Hnd).
    rewrite elem_of_cons, not_elem_of_cons. split.
    + intros [Hin|[Hx Hl]]; [by left; right|].
      destruct (decide (n = x)) as [->|Hne].
      * rewrite lookup_insert_eq in Hl. left. left. congruence.
      * rewrite lookup_insert_ne in Hl by done. right. done.
    + intros [[Heq|Hin]|[[Hne Hx] Hl]].
      * injection Heq as -> ->. right. split; [done|]. apply lookup_insert_eq.
      * by left.
      * right. split; [done|]. by rewrite lookup_insert_ne.
Qed.

Lemma midpoints_names vals means :
  midpoints vals means →
  means.*1 = (filter (fun it : string * entry => it.1 ≠ "time") vals).*1.
Proof.
  unfold midpoints. generalize (filter (fun it : string * entry => it.1 ≠ "time") vals).
  intros l Hl. induction Hl as [|it nm l l' [Hn _] _ IH]; [done|].
  rewrite !fmap_cons. by rewrite Hn, IH.
Qed.

(** [get_full_solution], on values [float] reads, names that [sympify]
    reads as their symbols and derivatives that the flow has, returns: the
    initial conditions are the midpoints of the species, the flow of the
    caller is left with its parameters and the scale factor replaced, and the
    flow returned is that one without the derivative entries. *)
Lemma get_full_solution_spec (crn : CRNSketch) flow vals means
    (scale_factor : float) :
  NoDup (vals.*1) → midpoints vals means →
  Forall ordinary (parameters flow means).*1 → Forall ordinary (derivatives crn) →
  NoDup (derivatives crn) → Forall (fun d => d ∈ flow.*1) (derivatives crn) →
  ∃ ic,
    SolverCallerBase.get_full_solution crn flow vals scale_factor
    = Ok (ic,
          filter (fun xe : string * expr => xe.1 ∉ derivatives crn)
            (numeric_flow flow means scale_factor),
          numeric_flow flow means scale_factor)
    ∧ ∀ (x : string) (m : float),
        ic !! x = Some m ↔ x ∈ flow.*1 ∧ (x, m) ∈ means.
Proof.
  intros Hvals Hmeans Hparams Hds Hnd Hin. unfold SolverCallerBase.get_full_solution.
  rewrite (vals_loop (flow.*1) vals means ∅ flow Hmeans Hparams). simpl.
  rewrite scale_factor_loop. simpl.
  rewrite <- list_fmap_compose.
  rewrite del_loop; [|done|done|].
  - simpl. eexists. split; [reflexivity|]. intros x m.
    rewrite foldl_insert_lookup.
    + rewrite list_elem_of_filter, lookup_empty. simpl. naive_solver.
    + assert (NoDup (means.*1)) as Hmnd.
      { rewrite (midpoints_names vals means Hmeans).
        eapply sublist_NoDup; [exact Hvals|]. apply fmap_sublist, sublist_filter. }
      eapply sublist_NoDup; [exact Hmnd|]. apply fmap_sublist, sublist_filter.
  - eapply Forall_impl; [exact Hin|]. intros d Hd. simpl in *.
    rewrite <- list_fmap_compose. exact Hd.
Qed.
End assembly.

(** C4: with the scale factor 1, the flow [X: -k_1 * X] and the values
    [X: (0.9, 1.1)], [k_1: (0.4, 0.6)] give the initial condition [X = 1.0]
    and the flow [X: -0.5 * X]; the flow [X: E * X] and the values
    [X: (0.9, 1.1)], [E: (0.5, 0.5)] give the initial condition [X = 1.0] and
    the flow [X: E * X]: [E] is an extracted variable and no species, and the
    midpoint 0.5 is not substituted for the symbol [E], since [sympify("E")]
    is not that symbol. *)
Theorem get_full_solution_reserved_name :
  SolverCallerBase.get_full_solution (H := example_python) (H0 := example_sympy)
    {| derivatives := [] |} example_flow example_vals 1
  = Ok ({["X" := 1%float]},
        [("X", Sympy.Mul (Sympy.Number (-0.5)) (Sympy.Symbol "X"))],
        [("X", Sympy.Mul (Sympy.Number (-0.5)) (Sympy.Symbol "X"))])
  ∧ SolverCallerBase.get_full_solution (H := example_python) (H0 := example_sympy)
      {| derivatives := [] |} example_flow_E example_vals_E 1
    = Ok ({["X" := 1%float]},
          [("X", Sympy.Mul (Sympy.Symbol "E") (Sympy.Symbol "X"))],
          [("X", Sympy.Mul (Sympy.Symbol "E") (Sympy.Symbol "X"))]).
Proof. split; vm_compute; reflexivity. Qed.

(** C10: the flow [X: E * X] mentions the symbol [E], and [E] is among the
    extracted values and is no species; after the call the dictionary of
    the caller is the flow [X: E * X] still: the parameter is not replaced by
    its value 0.5, and the flow is the one the caller gave. *)
Theorem get_full_solution_keeps_flow :
  "E" ∈ (example_vals_E.*1)
  ∧ ("E" ∉ example_flow_E.*1)
  ∧ (∀ x e, (x, e) ∈ example_flow_E → "E" ∈ Sympy.free_symbols e)
  ∧ ∃ initial_conditions parametrised_flow flow',
      SolverCallerBase.get_full_solution (H := example_python) (H0 := example_sympy)
        {| derivatives := [] |} example_flow_E example_vals_E 1
      = Ok (initial_conditions, parametrised_flow, flow')
      ∧ flow' = example_flow_E.
Proof.
  split; [|split; [|split]].
  - apply (bool_decide_unpack _). vm_compute. exact I.
  - apply (bool_decide_unpack _). vm_compute. exact I.
  - intros x e [[= -> ->]|Hxe%elem_of_nil]%elem_of_cons; [|done].
    simpl. set_solver.
  - eexists _, _, _. split; [vm_compute; reflexivity|]. reflexivity.
Qed.

(** ** The derivative evaluator *)

Section gradient.
Import Sympy.
Implicit Types (X : list float) (t : float) (species : list string)
  (vals : gmap key float).

(** The loop that binds the species to the state vector. *)
Lemma bind_species X species :
  ∀ (k : nat) vals, (k + length species ≤ length X)%nat →
    ∃ vals',
      for_each
        (fun (vals : gmap key float) (it : nat * string) =>
           let '(i, name) := it in
           match X !! i with
           | Some x => Ok (<[KSym name := x]> vals)
           | None => Raise IndexError
           end)
        vals (zip (seq k (length species)) species)
      = Ok vals'
      ∧ (∀ s, vals' !! KStr s = vals !! KStr s)
      ∧ (∀ name, name ∉ species → vals' !! KSym name = vals !! KSym name)
      ∧ (NoDup species → ∀ (i : nat) name,
           species !! i = Some name → vals' !! KSym name = X !! (k + i)%nat).
Proof.
  induction species as [|n species IH]; intros k vals Hlen; simpl in *.
  { exists vals. repeat split; try done. }
  destruct (lookup_lt_is_Some_2 X k) as [x Hx]; [lia|]. rewrite Hx. simpl.
  destruct (IH (S k) (<[KSym n := x]> vals)) as (vals' & -> & Hstr & Hother & Hsame);
    [lia|].
  exists vals'. split; [done|]. repeat split.
  - intros s. rewrite Hstr. by rewrite lookup_insert_ne.
  - intros name [Hne Hnot]%not_elem_of_cons. rewrite Hother by done.
    rewrite lookup_insert_ne; [done|congruence].
  - intros [Hn Hnd]%NoDup_cons [|i] name Hi; simpl in Hi.
    + injection Hi as <-. rewrite Hother by done.
      rewrite lookup_insert_eq, Nat.add_0_r. done.
    + rewrite (Hsame Hnd i name Hi). f_equal. lia.
Qed.

(** Nothing evaluates an expression that mentions a symbol without a
    value. *)
Lemma value_unbound vals e (name : string) :
  name ∈ free_symbols e → vals !! KSym name = None → vals !! KStr name = None →
  value vals e = None.
Proof.
  intros Hin Hsym Hstr. induction e as [n|x|a IHa b IHb|a IHa b IHb]; simpl in *.
  - apply elem_of_singleton in Hin as <-. by rewrite Hsym.
  - set_solver.
  - apply elem_of_union in Hin as [Hin|Hin].
    + by rewrite IHa.
    + rewrite IHb by done. by destruct (value vals a).
  - apply elem_of_union in Hin as [Hin|Hin].
    + by rewrite IHa.
    + rewrite IHb by done. by destruct (value vals a).
Qed.

(** C9 (as amended): on a state vector with a value for each species,
    [gradient_function] returns each flow expression evaluated in a
    dictionary that binds each species to its entry of the state vector and
    holds the current time under the string key ["t"], and under no other
    string key. So the symbol [t], when it is no species, evaluates to the
    current time, and an expression that mentions the symbol [time], when it
    is no species, has no value: it is returned as it is. *)
Theorem gradient_function_time_key X t (flow : list (string * expr)) species :
  (length species ≤ length X)%nat →
  ∃ vals,
    SolverCallerBase.gradient_function X t flow species
    = Ok ((fun it : string * expr => evalf vals it.2) <$> flow)
    ∧ vals !! KStr "t" = Some t
    ∧ (∀ s, s ≠ "t" → vals !! KStr s = None)
    ∧ (∀ name, name ∉ species → vals !! KSym name = None)
    ∧ (NoDup species → ∀ (i : nat) name,
         species !! i = Some name → vals !! KSym name = X !! i)
    ∧ ("t" ∉ species → evalf vals (Symbol "t") = Number t)
    ∧ ("time" ∉ species → ∀ e, "time" ∈ free_symbols e → evalf vals e = e).
Proof.
  intros Hlen. unfold SolverCallerBase.gradient_function, enumerate.
  destruct (bind_species X species 0 {[KStr "t" := t]})
    as (vals & -> & Hstr & Hother & Hsame); [simpl; lia|].
  exists vals. split; [done|].
  assert (∀ name, name ∉ species → vals !! KSym name = None) as Hnone.
  { intros name Hname. rewrite Hother by done. by rewrite lookup_singleton_ne. }
  assert (vals !! KStr "t" = Some t) as Ht.
  { rewrite Hstr. apply lookup_singleton_eq. }
  assert (∀ s, s ≠ "t" → vals !! KStr s = None) as Hs.
  { intros s Hne. rewrite Hstr. rewrite lookup_singleton_ne; [done|congruence]. }
  repeat split.
  - exact Ht.
  - exact Hs.
  - exact Hnone.
  - intros Hnd i name Hi. by rewrite (Hsame Hnd i name Hi).
  - intros Hnot. unfold evalf. simpl. by rewrite Hnone, Ht.
  - intros Hnot e He. unfold evalf.
    rewrite (value_unbound vals e "time" He); [done|by apply Hnone|by apply Hs].
Qed.
End gradient.

(** The witness of C9: one species, at time 2. *)
Lemma gradient_function_time_key_witness :
  ∃ vals,
    SolverCallerBase.gradient_function [1%float] 2
      [("X", Sympy.Mul (Sympy.Symbol "time") (Sympy.Symbol "X"))] ["X"]
    = Ok ((fun it : string * Sympy.expr => Sympy.evalf vals it.2)
          <$> [("X", Sympy.Mul (Sympy.Symbol "time") (Sympy.Symbol "X"))])
    ∧ vals !! Sympy.KStr "t" = Some 2%float
    ∧ (∀ s, s ≠ "t" → vals !! Sympy.KStr s = None)
    ∧ (∀ name, name ∉ ["X"] → vals !! Sympy.KSym name = None)
    ∧ (NoDup ["X"] → ∀ (i : nat) name,
         ["X"] !! i = Some name → vals !! Sympy.KSym name = [1%float] !! i)
    ∧ ("t" ∉ ["X"] → Sympy.evalf vals (Sympy.Symbol "t") = Sympy.Number 2)
    ∧ ("time" ∉ ["X"] →
       ∀ e, "time" ∈ Sympy.free_symbols e → Sympy.evalf vals e = e).
Proof.
  apply (gradient_function_time_key [1%float] 2
           [("X", Sympy.Mul (Sympy.Symbol "time") (Sympy.Symbol "X"))] ["X"]).
  simpl. lia.
Defined.

(** The counterexample of C9: at time 2 and [X = 3] the flow [X: time * X]
    is not evaluated, the symbol [time] has no value; the flow [X: t * X] is,
    to 6. *)
Lemma gradient_function_leaves_time :
  SolverCallerBase.gradient_function [3%float] 2
    [("X", Sympy.Mul (Sympy.Symbol "time") (Sympy.Symbol "X"))] ["X"]
  = Ok [Sympy.Mul (Sympy.Symbol "time") (Sympy.Symbol "X")]
  ∧ SolverCallerBase.gradient_function [3%float] 2
      [("X", Sympy.Mul (Sympy.Symbol "t") (Sympy.Symbol "X"))] ["X"]
    = Ok [Sympy.Number 6].
Proof. split; vm_compute; reflexivity. Qed.

(** * Further properties *)

(** ** The model-file editor: successive edits *)

Section edit_cost_composed.
Variable self : SolverCaller.
Implicit Types (cost : Z) (line content : string) (w : world).

(** A line rewritten for one cost, rewritten for another, is the line
    rewritten for the other. *)
Lemma isat_line_last (c1 c2 : Z) line :
  isat_line c2 (isat_line c1 line) = isat_line c2 line.
Proof.
  assert (Py.contains "define NO_COST_LIMIT = " (isat_flag c1) = true) as Hflag
    by (unfold isat_flag; by case_bool_decide).
  assert (Py.contains "define NO_COST_LIMIT = " (isat_max c1) = false) as Hmax1.
  { unfold isat_max. apply (contains_false "L"); [done|].
    rewrite !has_char_app, str_chars; done. }
  assert (Py.contains "define MAX_COST = " (isat_max c1) = true) as Hmax2
    by apply contains_prefix.
  unfold isat_line.
  destruct (Py.contains "define NO_COST_LIMIT = " line) eqn:Hno.
  { by rewrite Hflag. }
  destruct (Py.contains "define MAX_COST = " line) eqn:Hmax.
  - by rewrite Hmax1, Hmax2.
  - by rewrite Hno, Hmax.
Qed.

(** A line the dReal caller rewrote holds no marker any more. *)
Lemma dreal_line_first (c1 c2 : Z) line :
  dreal_line c2 (dreal_line c1 line) = dreal_line c1 line.
Proof.
  unfold dreal_line at 2 3.
  destruct (Py.contains "define NO_COST_LIMIT = " line) eqn:Hno.
  { unfold dreal_line, dreal_flag. by case_bool_decide. }
  destruct (Py.contains "define MAX_COST = " line) eqn:Hmax.
  - unfold dreal_line, dreal_max.
    assert (Py.has_char "=" ("#define MAX_COST " +:+ Py.str c1) = false) as Heq
      by (rewrite !has_char_app, str_chars; done).
    rewrite (contains_false "=" "define NO_COST_LIMIT = " _ eq_refl Heq).
    by rewrite (contains_false "=" "define MAX_COST = " _ eq_refl Heq).
  - unfold dreal_line. by rewrite Hno, Hmax.
Qed.

Lemma isat_content_last (c1 c2 : Z) content :
  Py.join nl (isat_line c2 <$>
    Py.split Py.newline (Py.join nl (isat_line c1 <$> Py.split Py.newline content)))
  = Py.join nl (isat_line c2 <$> Py.split Py.newline content).
Proof.
  rewrite split_join_lines by apply isat_line_no_newline.
  rewrite <- list_fmap_compose. f_equal. apply list_fmap_ext. intros _ x _.
  apply isat_line_last.
Qed.

Lemma dreal_content_first (c1 c2 : Z) content :
  Py.join nl (dreal_line c2 <$>
    Py.split Py.newline (Py.join nl (dreal_line c1 <$> Py.split Py.newline content)))
  = Py.join nl (dreal_line c1 <$> Py.split Py.newline content).
Proof.
  rewrite split_join_lines by apply dreal_line_no_newline.
  rewrite <- list_fmap_compose. f_equal. apply list_fmap_ext. intros _ x _.
  apply dreal_line_first.
Qed.

Lemma write_file_id path content w :
  files w !! path = Some content → write_file path content w = w.
Proof.
  intros Hf. destruct w as [fs d c]. unfold write_file, set_files. simpl in *.
  f_equal. by apply insert_id.
Qed.

(** X1: for the iSAT caller the last cost wins: [edit_cost] for one cost and
    then for another leaves what [edit_cost] for the other alone leaves (or
    raises as it does, when there is no model file). *)
Theorem isat_edit_cost_last_wins (c1 c2 : Z) w :
  (SolverCallerISAT.edit_cost self c1 w ≫= SolverCallerISAT.edit_cost self c2)
  = SolverCallerISAT.edit_cost self c2 w.
Proof.
  destruct (files w !! model_path self) as [content|] eqn:Hf.
  - rewrite (isat_edit_cost_ok self c1 w content Hf).
    rewrite (isat_edit_cost_ok self c2 w content Hf). simpl.
    erewrite isat_edit_cost_ok by apply files_write_file.
    by rewrite write_file_twice, isat_content_last.
  - by destruct (edit_cost_missing self c1 w Hf) as [-> _],
      (edit_cost_missing self c2 w Hf) as [-> _].
Qed.

(** X2: for the dReal caller the first cost stays: the lines [edit_cost]
    writes hold neither marker, so [edit_cost] for one cost and then for
    another leaves what the first alone leaves. *)
Theorem dreal_edit_cost_first_stays (c1 c2 : Z) w :
  (SolverCallerDReal.edit_cost self c1 w ≫= SolverCallerDReal.edit_cost self c2)
  = SolverCallerDReal.edit_cost self c1 w.
Proof.
  destruct (files w !! model_path self) as [content|] eqn:Hf.
  - rewrite (dreal_edit_cost_ok self c1 w content Hf). simpl.
    erewrite dreal_edit_cost_ok by apply files_write_file.
    by rewrite write_file_twice, dreal_content_first.
  - by destruct (edit_cost_missing self c1 w Hf) as [_ ->].
Qed.

(** X3: a model file with no line that holds a marker is written back as it
    was read, whatever its line breaks: the world is left as it is. *)
Theorem edit_cost_without_markers cost w content :
  files w !! model_path self = Some content →
  Forall (fun line => Py.contains "define MAX_COST = " line = false
                      ∧ Py.contains "define NO_COST_LIMIT = " line = false)
    (Py.split Py.newline content) →
  SolverCallerISAT.edit_cost self cost w = Ok w
  ∧ SolverCallerDReal.edit_cost self cost w = Ok w.
Proof.
  intros Hf Hno.
  rewrite (isat_edit_cost_ok self cost w content Hf).
  rewrite (dreal_edit_cost_ok self cost w content Hf).
  assert (isat_line cost <$> Py.split Py.newline content = Py.split Py.newline content)
    as ->.
  { rewrite <- (list_fmap_id (Py.split Py.newline content)) at 2.
    apply Forall_fmap_ext_1. eapply Forall_impl; [exact Hno|].
    intros line [Hmax Hlim]. unfold isat_line. by rewrite Hlim, Hmax. }
  assert (dreal_line cost <$> Py.split Py.newline content = Py.split Py.newline content)
    as ->.
  { rewrite <- (list_fmap_id (Py.split Py.newline content)) at 2.
    apply Forall_fmap_ext_1. eapply Forall_impl; [exact Hno|].
    intros line [Hmax Hlim]. unfold dreal_line. by rewrite Hlim, Hmax. }
  unfold nl. rewrite join_split. by rewrite (write_file_id _ _ _ Hf).
Qed.
End edit_cost_composed.

(** The witness of X3: a model file of three lines, one of them empty, that ends
    in a line break. *)
Lemma edit_cost_without_markers_witness :
  SolverCallerISAT.edit_cost example_caller 5
    (example_world ("x' = 1;" +:+ nl +:+ nl +:+ "y' = 2;" +:+ nl))
  = Ok (example_world ("x' = 1;" +:+ nl +:+ nl +:+ "y' = 2;" +:+ nl))
  ∧ SolverCallerDReal.edit_cost example_caller 5
      (example_world ("x' = 1;" +:+ nl +:+ nl +:+ "y' = 2;" +:+ nl))
    = Ok (example_world ("x' = 1;" +:+ nl +:+ nl +:+ "y' = 2;" +:+ nl)).
Proof.
  apply (edit_cost_without_markers example_caller 5
           (example_world ("x' = 1;" +:+ nl +:+ nl +:+ "y' = 2;" +:+ nl))
           ("x' = 1;" +:+ nl +:+ nl +:+ "y' = 2;" +:+ nl)).
  - reflexivity.
  - vm_compute. repeat constructor.
Defined.

(** ** The runs of the solver *)

Section runs.
Context `{Python}.
Variable self : SolverCaller.
Implicit Types (cost : Z) (w : world) (names : list string) (content : string).

Lemma schedule_one cost : schedule cost cost = [cost].
Proof. rewrite schedule_cons by lia. by rewrite schedule_empty by lia. Qed.

Lemma schedule_snoc (max_cost min_cost : Z) :
  min_cost ≤ max_cost →
  schedule max_cost min_cost = schedule max_cost (min_cost + 1) ++ [min_cost].
Proof.
  intros Hle. unfold schedule.
  replace (Z.to_nat (max_cost - min_cost + 1))
    with (S (Z.to_nat (max_cost - (min_cost + 1) + 1))) by lia.
  rewrite seq_S, fmap_app. simpl. do 2 f_equal. lia.
Qed.

(** What [call_solver] leaves of the model file. *)
Lemma isat_call_solver_model precision cost other max_depth msw w :
  preserves_model_file self →
  isat_out_file self precision cost ≠ model_path self →
  files (SolverCallerISAT.call_solver self precision cost other max_depth msw w).2
    !! model_path self
  = files w !! model_path self.
Proof.
  intros Hkeep Hne. unfold SolverCallerISAT.call_solver. simpl.
  fold (isat_out_file self precision cost).
  destruct (subprocess_call _ _) as [out fs] eqn:E. simpl.
  rewrite lookup_insert_ne by done.
  change fs with (out, fs).2. rewrite <- E, Hkeep.
  by rewrite lookup_insert_ne.
Qed.

Lemma dreal_call_solver_model precision cost other max_depth w :
  preserves_model_file self →
  dreal_out_file self precision cost ≠ model_path self →
  files (SolverCallerDReal.call_solver self precision cost other max_depth w).2
    !! model_path self
  = files w !! model_path self.
Proof.
  intros Hkeep Hne. unfold SolverCallerDReal.call_solver. simpl.
  fold (dreal_out_file self precision cost).
  destruct (subprocess_call _ _) as [out fs] eqn:E. simpl.
  rewrite lookup_insert_ne by done.
  change fs with (out, fs).2. rewrite <- E, Hkeep.
  by rewrite lookup_insert_ne.
Qed.

(** The rounds of the iSAT caller leave the model file rewritten for the
    last cost. *)
Lemma isat_rounds_model precision msw max_depth :
  preserves_model_file self →
  (∀ cost, isat_out_file self precision cost ≠ model_path self) →
  ∀ costs last names w content,
    files w !! model_path self = Some content →
    ∃ names' w',
      for_each (isat_round self precision msw max_depth) (names, w) (costs ++ [last])
      = Ok (names', w')
      ∧ files w' !! model_path self
        = Some (Py.join nl (isat_line last <$> Py.split Py.newline content)).
Proof.
  intros Hkeep Hne costs last.
  induction costs as [|cost costs IH]; intros names w content Hw; simpl.
  - unfold isat_round. simpl.
    rewrite (isat_edit_cost_ok self last w content Hw). simpl.
    eexists _, _. split; [done|].
    rewrite isat_call_solver_model by done. apply files_write_file.
  - unfold isat_round at 2. simpl.
    rewrite (isat_edit_cost_ok self cost w content Hw). simpl.
    edestruct IH as (names' & w' & -> & Hw').
    { rewrite isat_call_solver_model by done. apply files_write_file. }
    eexists _, _. split; [done|]. by rewrite Hw', isat_content_last.
Qed.

(** The rounds of the dReal caller leave the model file rewritten for the
    first cost. *)
Lemma dreal_rounds_keep precision max_depth (first : Z) :
  preserves_model_file self →
  (∀ cost, dreal_out_file self precision cost ≠ model_path self) →
  ∀ costs names w content,
    files w !! model_path self
    = Some (Py.join nl (dreal_line first <$> Py.split Py.newline content)) →
    ∃ names' w',
      for_each (dreal_round self precision max_depth) (names, w) costs
      = Ok (names', w')
      ∧ files w' !! model_path self
        = Some (Py.join nl (dreal_line first <$> Py.split Py.newline content)).
Proof.
  intros Hkeep Hne costs.
  induction costs as [|cost costs IH]; intros names w content Hw; simpl.
  - by eexists _, _.
  - unfold dreal_round at 2. simpl.
    rewrite (dreal_edit_cost_ok self cost w _ Hw). simpl.
    rewrite dreal_content_first.
    edestruct IH as (names' & w' & -> & Hw').
    { rewrite dreal_call_solver_model by done. apply files_write_file. }
    by eexists _, _.
Qed.
End runs.

Section runs_properties.
Context `{Python}.
Variable self : SolverCaller.

(** X4: [single_synthesis] is one round: it edits the model file for the
    cost once, calls the solver once, and returns the one name the call
    returned; it raises as [edit_cost] does. *)
Theorem single_synthesis_one_round (cost : Z) (precision msw : float)
    (max_depth : Z) (w : world) :
  SolverCallerInherited.single_synthesis self
    (SolverCallerISAT.optimal_synthesis_decreasing_cost self)
    cost precision msw max_depth w
  = (w1 ← SolverCallerISAT.edit_cost self cost w;
     let r := SolverCallerISAT.call_solver self precision cost
                " --ode-opts --continue-after-not-reaching-horizon"
                (if bool_decide (max_depth = 0) then num_modes self else max_depth)
                msw w1 in
     Ok ([r.1], r.2))
  ∧ SolverCallerInherited.single_synthesis self
      (SolverCallerDReal.optimal_synthesis_decreasing_cost self)
      cost precision msw max_depth w
    = (w1 ← SolverCallerDReal.edit_cost self cost w;
       let r := SolverCallerDReal.call_solver self precision cost ""
                  (if bool_decide (max_depth = 0)
                   then if bool_decide (num_modes self = 0) then 2 else num_modes self
                   else max_depth)
                  w1 in
       Ok ([r.1], r.2)).
Proof.
  unfold SolverCallerInherited.single_synthesis,
    SolverCallerISAT.optimal_synthesis_decreasing_cost,
    SolverCallerDReal.optimal_synthesis_decreasing_cost.
  erewrite isat_loop_schedule by reflexivity.
  erewrite dreal_loop_schedule by reflexivity.
  rewrite schedule_one. simpl. unfold isat_round, dreal_round. simpl. split.
  - destruct (SolverCallerISAT.edit_cost self cost w) as [w1|e]; simpl; [|done].
    repeat case_bool_decide; try done; congruence.
  - destruct (SolverCallerDReal.edit_cost self cost w) as [w1|e]; simpl; [|done].
    repeat case_bool_decide; try done; congruence.
Qed.

(** X5: with [max_cost >= min_cost] and no model file, the loop raises
    [IOError] in its first round, for both callers. *)
Theorem loop_without_model_file (max_cost min_cost : Z) (precision msw : float)
    (max_depth : Z) (w : world) :
  min_cost ≤ max_cost → files w !! model_path self = None →
  SolverCallerISAT.optimal_synthesis_decreasing_cost self
    max_cost min_cost precision msw max_depth w = Raise IOError
  ∧ SolverCallerDReal.optimal_synthesis_decreasing_cost self
      max_cost min_cost precision msw max_depth w = Raise IOError.
Proof.
  intros Hle Hf.
  unfold SolverCallerISAT.optimal_synthesis_decreasing_cost,
    SolverCallerDReal.optimal_synthesis_decreasing_cost.
  erewrite isat_loop_schedule by reflexivity.
  erewrite dreal_loop_schedule by reflexivity.
  rewrite schedule_cons by done. simpl. unfold isat_round at 2, dreal_round at 2.
  simpl. by destruct (edit_cost_missing self max_cost w Hf) as [-> ->].
Qed.

(** X6: when the solver leaves the model file as it is and no output file
    is the model file, the loop of the iSAT caller with
    [max_cost >= min_cost] leaves the model file as one [edit_cost] for
    [min_cost] leaves it: the last cost wins. *)
Theorem isat_loop_leaves_last_cost (max_cost min_cost : Z) (precision msw : float)
    (max_depth : Z) (w : world) :
  min_cost ≤ max_cost → is_Some (files w !! model_path self) →
  preserves_model_file self →
  (∀ cost, isat_out_file self precision cost ≠ model_path self) →
  ∃ names w' w1,
    SolverCallerISAT.optimal_synthesis_decreasing_cost self
      max_cost min_cost precision msw max_depth w = Ok (names, w')
    ∧ SolverCallerISAT.edit_cost self min_cost w = Ok w1
    ∧ files w' !! model_path self = files w1 !! model_path self.
Proof.
  intros Hle [content Hf] Hkeep Hne.
  unfold SolverCallerISAT.optimal_synthesis_decreasing_cost.
  erewrite isat_loop_schedule by reflexivity.
  rewrite schedule_snoc by done.
  edestruct (isat_rounds_model self precision msw) as (names & w' & -> & Hw');
    [done|done|exact Hf|].
  rewrite (isat_edit_cost_ok self min_cost w content Hf).
  eexists _, _, _. split; [done|]. split; [done|].
  by rewrite Hw', files_write_file.
Qed.

(** X7: under the same conditions the loop of the dReal caller leaves the
    model file as one [edit_cost] for [max_cost] leaves it: the lines the
    first round wrote hold no marker, and the later rounds find nothing to
    rewrite. *)
Theorem dreal_loop_leaves_first_cost (max_cost min_cost : Z) (precision msw : float)
    (max_depth : Z) (w : world) :
  min_cost ≤ max_cost → is_Some (files w !! model_path self) →
  preserves_model_file self →
  (∀ cost, dreal_out_file self precision cost ≠ model_path self) →
  ∃ names w' w1,
    SolverCallerDReal.optimal_synthesis_decreasing_cost self
      max_cost min_cost precision msw max_depth w = Ok (names, w')
    ∧ SolverCallerDReal.edit_cost self max_cost w = Ok w1
    ∧ files w' !! model_path self = files w1 !! model_path self.
Proof.
  intros Hle [content Hf] Hkeep Hne.
  unfold SolverCallerDReal.optimal_synthesis_decreasing_cost.
  erewrite dreal_loop_schedule by reflexivity.
  rewrite schedule_cons by done. simpl. unfold dreal_round at 2. simpl.
  rewrite (dreal_edit_cost_ok self max_cost w content Hf). simpl.
  edestruct (dreal_rounds_keep self precision) as (names & w' & -> & Hw');
    [done|done| |].
  { rewrite dreal_call_solver_model by done. apply files_write_file. }
  eexists _, _, _. split; [done|]. split; [done|].
  by rewrite Hw', files_write_file.
Qed.

(** X9: the path [call_solver] of the dReal caller returns is not the file
    it writes: when the two differ, [getCRNValues] on the returned path
    reads what the solver left at the proof path, and raises [IOError] when
    the solver left nothing there. *)
Theorem dreal_result_file_read (precision : float) (cost : Z) (otherPrams : string)
    (max_depth : Z) (w : world) :
  dreal_proof_file self w ≠ dreal_out_file self precision cost →
  let r := SolverCallerDReal.call_solver self precision cost otherPrams max_depth w in
  let command :=
    dreal_command self precision
      (if bool_decide (max_depth = 0) then num_modes self else max_depth)
      otherPrams in
  dreal_getCRNValues_file r.1 r.2
  = match (subprocess_call (Py.words command)
             (<[dreal_out_file self precision cost := ""]> (files w))).2
          !! dreal_proof_file self w with
    | Some content => SolverCallerDReal.getCRNValues content
    | None => Raise IOError
    end.
Proof.
  intros Hne.
  unfold SolverCallerDReal.call_solver, dreal_getCRNValues_file, read_file,
    dreal_command, dreal_out_file, dreal_proof_file in *. simpl.
  destruct (subprocess_call _ _) as [out fs]. simpl.
  rewrite lookup_insert_ne by done.
  by destruct (fs !! _).
Qed.
End runs_properties.

(** The witness of X5: a world with no file. *)
Lemma loop_without_model_file_witness :
  SolverCallerISAT.optimal_synthesis_decreasing_cost (H := example_python)
    example_caller 3 1 0.5 0 0 {| files := ∅; cwd := "/work"; console := [] |}
  = Raise IOError
  ∧ SolverCallerDReal.optimal_synthesis_decreasing_cost (H := example_python)
      example_caller 3 1 0.5 0 0 {| files := ∅; cwd := "/work"; console := [] |}
    = Raise IOError.
Proof.
  apply (loop_without_model_file (H := example_python) example_caller 3 1 0.5 0 0
           {| files := ∅; cwd := "/work"; console := [] |}).
  - lia.
  - reflexivity.
Defined.

(** The witness of X6: the costs 3, 2, 1 on the model file of the example, with
    a solver that touches no file. *)
Lemma isat_loop_leaves_last_cost_witness :
  ∃ names w' w1,
    SolverCallerISAT.optimal_synthesis_decreasing_cost (H := example_python)
      example_caller 3 1 0.5 0 0 (example_world example_model) = Ok (names, w')
    ∧ SolverCallerISAT.edit_cost example_caller 1 (example_world example_model) = Ok w1
    ∧ files w' !! model_path example_caller = files w1 !! model_path example_caller.
Proof.
  apply (isat_loop_leaves_last_cost (H := example_python) example_caller 3 1 0.5 0 0
           (example_world example_model)).
  - lia.
  - eexists. reflexivity.
  - intros argv fs. reflexivity.
  - intros cost. unfold isat_out_file. simpl. discriminate.
Defined.

(** The witness of X7: the same run with the dReal caller. *)
Lemma dreal_loop_leaves_first_cost_witness :
  ∃ names w' w1,
    SolverCallerDReal.optimal_synthesis_decreasing_cost (H := example_python)
      example_caller 3 1 0.5 0 0 (example_world example_model) = Ok (names, w')
    ∧ SolverCallerDReal.edit_cost example_caller 3 (example_world example_model) = Ok w1
    ∧ files w' !! model_path example_caller = files w1 !! model_path example_caller.
Proof.
  apply (dreal_loop_leaves_first_cost (H := example_python) example_caller 3 1 0.5 0 0
           (example_world example_model)).
  - lia.
  - eexists. reflexivity.
  - intros argv fs. reflexivity.
  - intros cost. unfold dreal_out_file. simpl. discriminate.
Defined.

(** The witness of X9: a solver that leaves no proof file. *)
Lemma dreal_result_file_read_witness :
  dreal_getCRNValues_file (H := example_python)
    (SolverCallerDReal.call_solver (H := example_python) example_caller 0.5 20 "" 0
       (example_world example_model)).1
    (SolverCallerDReal.call_solver (H := example_python) example_caller 0.5 20 "" 0
       (example_world example_model)).2
  = Raise IOError.
Proof.
  apply (dreal_result_file_read (H := example_python) example_caller 0.5 20 "" 0
           (example_world example_model)).
  vm_compute. discriminate.
Defined.

(** ** The constructors *)

Section os_path.
Implicit Types (s t : string) (c x : ascii).

Lemma rfind_none c s : Py.has_char c s = false → OsPath.rfind c s = -1.
Proof.
  induction s as [|d s IH]; simpl; [done|].
  intros [Hd Hs]%orb_false_elim. rewrite IH by done.
  apply bool_decide_eq_false in Hd.
  rewrite bool_decide_eq_false_2 by lia.
  rewrite bool_decide_eq_false_2; [done|congruence].
Qed.

Lemma rfind_last c s t :
  Py.has_char c t = false →
  OsPath.rfind c (s +:+ String c t) = Z.of_nat (String.length s).
Proof.
  intros Ht. induction s as [|d s IH]; simpl.
  - rewrite rfind_none by done.
    rewrite bool_decide_eq_false_2 by lia. by rewrite bool_decide_eq_true_2.
  - rewrite IH. rewrite bool_decide_eq_true_2 by lia. lia.
Qed.

Lemma upto_app s t : OsPath.upto (Z.of_nat (String.length s)) (s +:+ t) = s.
Proof.
  unfold OsPath.upto. rewrite Nat2Z.id.
  induction s as [|d s IH]; simpl; [by destruct t|]. by rewrite IH.
Qed.

Lemma from_app s t : OsPath.from (Z.of_nat (String.length s)) (s +:+ t) = t.
Proof.
  unfold OsPath.from. rewrite Nat2Z.id.
  induction s as [|d s IH]; simpl; done.
Qed.

Lemma string_length_app s t :
  String.length (s +:+ t) = (String.length s + String.length t)%nat.
Proof. induction s as [|d s IH]; simpl; [done|]. by rewrite IH. Qed.

Lemma app_assoc_string s t u : (s +:+ t) +:+ u = s +:+ (t +:+ u).
Proof. induction s as [|d s IH]; [done|]. change (String d ((s +:+ t) +:+ u) = String d (s +:+ t +:+ u)). by f_equal. Qed.

Lemma has_char_times x c (n : nat) : x ≠ c → Py.has_char x (OsPath.times c n) = false.
Proof.
  intros Hx. induction n as [|n IH]; simpl; [done|].
  by rewrite IH, bool_decide_eq_false_2.
Qed.

Lemma rstrip_snoc c s x :
  x ≠ c → OsPath.rstrip c (s +:+ String x "") = s +:+ String x "".
Proof.
  intros Hx. induction s as [|d s IH]; simpl.
  - by rewrite bool_decide_eq_false_2.
  - rewrite IH. by destruct s.
Qed.

Lemma rstrip_sep c s x :
  x ≠ c → OsPath.rstrip c ((s +:+ String x "") +:+ String c "") = s +:+ String x "".
Proof.
  intros Hx. induction s as [|d s IH]; simpl.
  - rewrite bool_decide_eq_true_2 by done. by rewrite bool_decide_eq_false_2.
  - rewrite IH. by destruct s.
Qed.

Lemma rev_app_snoc s x acc : ∃ r, String.rev_app (s +:+ String x "") acc = String x r.
Proof.
  revert acc. induction s as [|d s IH]; intros acc; simpl; [by eexists|]. apply IH.
Qed.

Lemma path_join_relative s x t :
  x ≠ "/"%char → Py.startswith "/" t = false →
  Py.path_join (s +:+ String x "") t = (s +:+ String x "") +:+ "/" +:+ t.
Proof.
  intros Hx Ht. unfold Py.path_join. rewrite Ht.
  destruct (s +:+ String x "") as [|d r] eqn:E; [by destruct s|].
  rewrite <- E. unfold String.rev.
  destruct (rev_app_snoc s x "") as [r' ->].
  change (String.prefix "/" (String x r'))
    with (if ascii_dec "/" x then String.prefix "" r' else false).
  destruct (ascii_dec "/" x) as [<-|_]; done.
Qed.

(** [os.path.split] of a path with a directory part. *)
Lemma split_directory s x file :
  x ≠ "/"%char → Py.has_char "/" file = false →
  OsPath.split ((s +:+ String x "") +:+ "/" +:+ file) = (s +:+ String x "", file).
Proof.
  intros Hx Hfile. unfold OsPath.split.
  change ((s +:+ String x "") +:+ "/" +:+ file)
    with ((s +:+ String x "") +:+ String "/" file).
  rewrite (rfind_last "/" (s +:+ String x "") file Hfile).
  replace (Z.of_nat (String.length (s +:+ String x "")) + 1)
    with (Z.of_nat (String.length ((s +:+ String x "") +:+ "/")))
    by (rewrite !string_length_app; simpl; lia).
  replace ((s +:+ String x "") +:+ String "/" file)
    with (((s +:+ String x "") +:+ "/") +:+ file)
    by (by rewrite app_assoc_string).
  rewrite upto_app, from_app.
  rewrite bool_decide_eq_true_2; [|by destruct s].
  rewrite bool_decide_eq_true_2.
  - simpl. by rewrite rstrip_sep.
  - intros Heq.
    assert (Py.has_char x ((s +:+ String x "") +:+ "/") = true) as Hin.
    { rewrite !has_char_app. simpl. rewrite bool_decide_eq_true_2 by done.
      by rewrite orb_true_r. }
    rewrite Heq, has_char_times in Hin; done.
Qed.

(** [os.path.split] of a bare file name. *)
Lemma split_file file :
  Py.has_char "/" file = false → OsPath.split file = ("", file).
Proof.
  intros Hfile. unfold OsPath.split. rewrite rfind_none by done. simpl.
  unfold OsPath.upto, OsPath.from. simpl. by destruct file.
Qed.

(** [os.path.splitext] of a file name with an extension. *)
Lemma splitext_extension stem ext :
  Py.has_char "/" stem = false → Py.has_char "/" ext = false →
  Py.has_char "." ext = false → OsPath.has_non_dot stem = true →
  OsPath.splitext (stem +:+ "." +:+ ext) = (stem, "." +:+ ext).
Proof.
  intros Hs He Hd Hn. unfold OsPath.splitext.
  rewrite (rfind_none "/") by (rewrite !has_char_app, Hs, He; done).
  change (stem +:+ "." +:+ ext) with (stem +:+ String "." ext).
  rewrite rfind_last by done.
  rewrite bool_decide_eq_true_2 by lia. simpl.
  replace (Z.of_nat (String.length stem) - (-1 + 1))
    with (Z.of_nat (String.length stem)) by lia.
  change (OsPath.from (-1 + 1) (stem +:+ String "." ext))
    with (stem +:+ String "." ext).
  by rewrite upto_app, from_app, Hn.
Qed.

(** [os.path.splitext] of a file name with no dot, or with dots only
    before its last dot. *)
Lemma splitext_none file :
  Py.has_char "/" file = false →
  Py.has_char "." file = false
  ∨ (∃ dots ext, file = dots +:+ "." +:+ ext ∧ OsPath.has_non_dot dots = false
                 ∧ Py.has_char "." ext = false) →
  OsPath.splitext file = (file, "").
Proof.
  intros Hs [Hd|(dots & ext & -> & Hdots & Hext)]; unfold OsPath.splitext.
  - rewrite !rfind_none by done. by rewrite bool_decide_eq_false_2 by lia.
  - rewrite (rfind_none "/") by done.
    change (dots +:+ "." +:+ ext) with (dots +:+ String "." ext).
    rewrite rfind_last by done.
    rewrite bool_decide_eq_true_2 by lia. simpl.
    replace (Z.of_nat (String.length dots) - (-1 + 1))
      with (Z.of_nat (String.length dots)) by lia.
    change (OsPath.from (-1 + 1) (dots +:+ String "." ext))
      with (dots +:+ String "." ext).
    by rewrite upto_app, Hdots.
Qed.
End os_path.

Section constructors.
Context `{FileSystem}.

(** X10: for a model path [<directory>/<stem>.<ext>], where the directory
    does not end in a slash, the stem holds a character that is no dot, and
    the extension holds no dot, the constructor sets [model_name] to the
    stem and [results_dir] to [<directory>/results], creates that directory
    when it is not there, and sets [num_modes] to 2 when none is given; it
    fails only as [os.makedirs] does. *)
Theorem init_attributes (directory : string) (x : ascii) (stem ext : string)
    (solver_path : string) (num_modes : Z) (w : world) :
  x ≠ "/"%char → Py.has_char "/" stem = false → Py.has_char "/" ext = false →
  Py.has_char "." ext = false → OsPath.has_non_dot stem = true →
  let directory := directory +:+ String x "" in
  let path := directory +:+ "/" +:+ stem +:+ "." +:+ ext in
  let results := directory +:+ "/" +:+ "results" in
  Constructor.init path solver_path num_modes w
  = (fun w' => ({| model_path := path; model_name := stem; results_dir := results;
                   solver_path := solver_path;
                   num_modes := if bool_decide (num_modes = 0) then 2 else num_modes |},
                w'))
    <$> (if negb (path_exists results w) then makedirs results w else Some w).
Proof.
  intros Hx Hstem Hext Hdot Hnon. simpl.
  unfold Constructor.init, Constructor.base.
  rewrite split_directory; [|done|by rewrite !has_char_app, Hstem, Hext].
  rewrite splitext_extension by done.
  rewrite path_join_relative by done.
  destruct (negb _); [destruct (makedirs _ _)|]; done.
Qed.

(** X11: a model path with no slash puts the results in the relative
    directory [results]; and a file name with no dot, or with dots only
    before its last dot, is its own [model_name]. *)
Theorem init_bare_file_name (file solver_path : string) (num_modes : Z) (w : world) :
  Py.has_char "/" file = false →
  Py.has_char "." file = false
  ∨ (∃ dots ext, file = dots +:+ "." +:+ ext ∧ OsPath.has_non_dot dots = false
                 ∧ Py.has_char "." ext = false) →
  Constructor.init file solver_path num_modes w
  = (fun w' => ({| model_path := file; model_name := file; results_dir := "results";
                   solver_path := solver_path;
                   num_modes := if bool_decide (num_modes = 0) then 2 else num_modes |},
                w'))
    <$> (if negb (path_exists "results" w) then makedirs "results" w else Some w).
Proof.
  intros Hslash Hdots. unfold Constructor.init, Constructor.base.
  rewrite split_file by done. rewrite splitext_none by done.
  change (Py.path_join "" "results") with "results".
  destruct (negb _); [destruct (makedirs _ _)|]; done.
Qed.
End constructors.

(** The witness of X10: the default model path, which gives the caller of the
    examples. *)
Lemma init_attributes_witness :
  Constructor.init (H := example_file_system) "./bellshape.hys" "isat-ode" 0
    (example_world example_model)
  = Some (example_caller, example_world example_model).
Proof.
  apply (init_attributes (H := example_file_system) "" "." "bellshape" "hys"
           "isat-ode" 0 (example_world example_model)); done.
Defined.

(** The witness of X11: a hidden file in the working directory. *)
Lemma init_bare_file_name_witness :
  Constructor.init (H := example_file_system) ".hys" "dreach" 3
    (example_world example_model)
  = Some ({| model_path := ".hys"; model_name := ".hys"; results_dir := "results";
             solver_path := "dreach"; num_modes := 3 |},
          example_world example_model).
Proof.
  apply (init_bare_file_name (H := example_file_system) ".hys" "dreach" 3
           (example_world example_model)); [done|].
  right. by exists "", "hys".
Defined.

(** ** The dictionaries of the line parsers *)

Section parser_invariants.
Context `{Python}.
Implicit Types (v n : string) (st : crn_values) (x : string * string)
  (lines : list string).

Lemma for_each_invariant {S A : Type} (P : S → Prop) (body : S → A → result S) :
  (∀ s a s', P s → body s a = Ok s' → P s') →
  ∀ (l : list A) s s', P s → for_each body s l = Ok s' → P s'.
Proof.
  intros Hbody. induction l as [|a l IH]; intros s s' Hs; simpl.
  - by intros [= <-].
  - destruct (body s a) as [s1|e] eqn:E; simpl; [|done].
    apply IH. by eapply Hbody.
Qed.

Lemma kept_initial : kept (Values ∅ {["time" := Times []]}).
Proof.
  split; [eexists; apply lookup_singleton_eq|]. split; [done|]. by intros v x.
Qed.

Lemma kept_record_values n x st :
  kept st → kept (SolverCallerDReal.record_values n x st).
Proof.
  intros (Htime & Hct & Hwithin).
  split; [by apply record_values_time_listed|].
  unfold SolverCallerDReal.record_values.
  case_bool_decide as Hnew; [|case_bool_decide]; simpl.
  - assert (n ≠ "time") as Hn by (intros ->; destruct Htime as [ts Hts]; congruence).
    split; [by rewrite lookup_insert_ne|].
    intros v y. destruct (decide (v = n)) as [->|Hv].
    + rewrite !lookup_insert_eq. by intros [= <-].
    + rewrite !lookup_insert_ne by done. apply Hwithin.
  - split.
    + destruct (decide (n = "time")) as [->|Hn];
        [apply lookup_delete_eq|by rewrite lookup_delete_ne].
    + intros v y Hv. apply Hwithin.
      apply lookup_delete_Some in Hv. by destruct Hv.
  - done.
Qed.

Lemma kept_time st (ts : list scalar) :
  kept st →
  kept (Values (constant_values st) (<["time" := Times ts]> (all_values st))).
Proof.
  intros (Htime & Hct & Hwithin). split; [eexists; apply lookup_insert_eq|].
  split; [done|]. intros v y Hv. simpl in *.
  rewrite lookup_insert_ne by congruence. by apply Hwithin.
Qed.

Lemma kept_isat_body (s : option string * crn_values) line
    (s' : option string * crn_values) :
  kept s.2 → SolverCallerISAT.getCRNValues_body s line = Ok s' → kept s'.2.
Proof.
  destruct s as [cur st]. simpl. intros Hk.
  unfold SolverCallerISAT.getCRNValues_body.
  destruct (Re.match_ SolverCallerISAT.p line) as [groups|].
  { destruct groups as [|g groups]; [done|].
    destruct (_ || _); by intros [= <-]. }
  destruct (Re.match_ SolverCallerISAT.p2 line) as [[|lo [|hi [|g groups]]]|];
    destruct cur as [name|]; try (by intros [= <-]).
  case_bool_decide; [by intros [= <-]|].
  destruct (decide (name = "time")) as [->|Hn].
  - unfold SolverCallerISAT.record_values. rewrite bool_decide_eq_true_2 by done.
    destruct Hk as ([ts Hts] & Hk). rewrite Hts. simpl. intros [= <-]. simpl.
    apply kept_time. split; [by eexists|done].
  - rewrite isat_record_values by done. simpl. intros [= <-]. simpl.
    by apply kept_record_values.
Qed.

Lemma kept_dreal_body st line st' :
  kept st → SolverCallerDReal.getCRNValues_body st line = Ok st' → kept st'.
Proof.
  intros Hk. rewrite dreal_body_reading.
  destruct (dreal_reading line) as [[t|[n x]]|]; [| |by intros [= <-]].
  - destruct (float_of_str t) as [y|]; [|done].
    destruct (all_values st !! "time") as [[|ts]|]; try done.
    intros [= <-]. by apply kept_time.
  - intros [= <-]. by apply kept_record_values.
Qed.

(** The iSAT parser returns on every content. *)
Lemma isat_returns content :
  ∃ cur st,
    for_each SolverCallerISAT.getCRNValues_body
      (None, Values ∅ {["time" := Times []]}) (Py.readlines content)
    = Ok (cur, st).
Proof.
  destruct (isat_for_each "x" ltac:(done) (Py.readlines content) None
              (Values ∅ {["time" := Times []]}) [])
    as (cur & st & Hrun & _); [by apply recorded_empty| |by eauto].
  eexists. apply lookup_singleton_eq.
Qed.

(** X12: in what the two line parsers return, every variable of
    [constant_values] is a variable of [all_values] with the same interval,
    and ["time"] is never a constant. *)
Theorem constants_are_within (content : string) :
  (∃ cv av,
     SolverCallerISAT.getCRNValues content = Ok (cv, av)
     ∧ constants_within cv av ∧ cv !! "time" = None)
  ∧ (∀ cv av,
       SolverCallerDReal.getCRNValues content = Ok (cv, av) →
       constants_within cv av ∧ cv !! "time" = None).
Proof.
  split.
  - destruct (isat_returns content) as (cur & st & Hrun).
    unfold SolverCallerISAT.getCRNValues. rewrite Hrun. simpl.
    eexists _, _. split; [done|].
    assert (kept (cur, st).2) as (_ & Ht & Hw); [|done].
    apply (for_each_invariant (fun s => kept s.2) _ kept_isat_body
             _ (None, Values ∅ {["time" := Times []]}) _ kept_initial Hrun).
  - intros cv av. unfold SolverCallerDReal.getCRNValues.
    destruct (for_each _ _ _) as [st|e] eqn:Hrun; simpl; [|done].
    intros [= <- <-].
    assert (kept st) as (_ & Ht & Hw); [|done].
    apply (for_each_invariant kept _ kept_dreal_body _ _ _ kept_initial Hrun).
Qed.
End parser_invariants.

Section parser_times.
Context `{Python}.
Implicit Types (v n : string) (st : crn_values) (x : string * string)
  (lines : list string).

Lemma record_values_time n x st :
  time_listed st →
  all_values (SolverCallerDReal.record_values n x st) !! "time"
  = all_values st !! "time".
Proof.
  intros [ts Hts]. unfold SolverCallerDReal.record_values.
  repeat case_bool_decide; simpl; try done.
  rewrite lookup_insert_ne; [done|]. intros ->. congruence.
Qed.

Lemma record_values_names n x st v :
  is_Some (all_values (SolverCallerDReal.record_values n x st) !! v) →
  v = n ∨ is_Some (all_values st !! v).
Proof.
  unfold SolverCallerDReal.record_values.
  repeat case_bool_decide; simpl; eauto.
  destruct (decide (v = n)) as [->|Hv]; [by left|].
  rewrite lookup_insert_ne by done. by right.
Qed.

(** The loop of the iSAT parser appends to ["time"] the upper bounds read
    under that header. *)
Lemma isat_for_each_time :
  ∀ lines cur st ts, all_values st !! "time" = Some (Times ts) →
    ∃ cur' st',
      for_each SolverCallerISAT.getCRNValues_body (cur, st) lines = Ok (cur', st')
      ∧ all_values st' !! "time"
        = Some (Times (ts ++ (SStr <$> (observed_for "time" (isat_observed cur lines)).*2))).
Proof.
  induction lines as [|line lines IH]; intros cur st ts Hts; simpl.
  { exists cur, st. by rewrite app_nil_r. }
  destruct (Re.match_ SolverCallerISAT.p line) as [groups|] eqn:Hp.
  { destruct (isat_p_groups _ _ Hp) as [g ->].
    destruct (_ || _); simpl; by apply IH. }
  destruct (Re.match_ SolverCallerISAT.p2 line) as [[|lo [|hi [|g groups]]]|];
    destruct cur as [name|]; simpl; try (by apply IH).
  case_bool_decide as Hname; simpl; [by apply IH|].
  rewrite observed_for_cons.
  destruct (decide (name = "time")) as [->|Htm].
  - unfold SolverCallerISAT.record_values. rewrite bool_decide_eq_true_2 by done.
    rewrite Hts. simpl.
    edestruct (IH (Some "time")) as (cur' & st' & -> & Hst');
      [simpl; apply lookup_insert_eq|].
    eexists _, _. split; [done|]. rewrite Hst'. by rewrite <- app_assoc.
  - rewrite isat_record_values by done. simpl.
    apply IH. rewrite record_values_time; [done|by eexists].
Qed.

(** The loop of the dReal parser appends to ["time"] the transition times
    [float] reads, and raises [ValueError] at the first it does not. *)
Lemma dreal_for_each_time :
  ∀ lines st ts, all_values st !! "time" = Some (Times ts) →
    (Forall (fun t => is_Some (float_of_str t)) (dreal_times lines) →
     ∃ st' xs,
       for_each SolverCallerDReal.getCRNValues_body st lines = Ok st'
       ∧ Forall2 (fun t y => float_of_str t = Some y) (dreal_times lines) xs
       ∧ all_values st' !! "time" = Some (Times (ts ++ (SNum <$> xs))))
    ∧ (Exists (fun t => float_of_str t = None) (dreal_times lines) →
       for_each SolverCallerDReal.getCRNValues_body st lines = Raise ValueError).
Proof.
  induction lines as [|line lines IH]; intros st ts Hts; simpl.
  { split; [|by intros ?%Exists_nil].
    intros _. exists st, []. rewrite app_nil_r. by repeat split; [constructor|]. }
  rewrite dreal_body_reading. unfold dreal_times in *. simpl.
  destruct (dreal_reading line) as [[t|[n x]]|]; simpl.
  - destruct (float_of_str t) as [y|] eqn:Hy; simpl.
    + rewrite Hts. simpl.
      edestruct (IH (Values (constant_values st)
                       (<["time" := Times (ts ++ [SNum y])]> (all_values st))))
        as [Hall Hex]; [simpl; apply lookup_insert_eq|].
      split.
      * intros [_ Hfl]%Forall_cons.
        destruct (Hall Hfl) as (st' & xs & -> & Hxs & Hst').
        exists st', (y :: xs). split; [done|]. split; [by constructor|].
        rewrite Hst'. by rewrite <- app_assoc.
      * intros [Hnone|Hrest]%Exists_cons; [congruence|by apply Hex].
    + split; [|done]. intros [[z Hz] _]%Forall_cons. congruence.
  - apply IH. rewrite record_values_time; [done|by eexists].
  - by apply IH.
Qed.

(** X13: the iSAT parser returns, and [all_values["time"]] is the list of
    the upper bounds of the data lines read under the header [time], in the
    order read and as the text the solver printed. *)
Theorem isat_time_list (content : string) :
  ∃ cv av,
    SolverCallerISAT.getCRNValues content = Ok (cv, av)
    ∧ av !! "time"
      = Some (Times (SStr <$> (observed_for "time"
                                 (isat_observed None (Py.readlines content))).*2)).
Proof.
  destruct (isat_for_each_time (Py.readlines content) None
              (Values ∅ {["time" := Times []]}) []) as (cur & st & Hrun & Hst);
    [apply lookup_singleton_eq|].
  unfold SolverCallerISAT.getCRNValues. rewrite Hrun. simpl. by eexists _, _.
Qed.

(** X14: when the dReal parser returns, every transition time of the file
    was read by [float], and [all_values["time"]] is the list of the numbers
    read, in the order of the file. *)
Theorem dreal_time_list (content : string) (cv : gmap string (string * string))
    (av : gmap string entry) :
  SolverCallerDReal.getCRNValues content = Ok (cv, av) →
  ∃ xs,
    Forall2 (fun t y => float_of_str t = Some y)
      (dreal_times (Py.readlines content)) xs
    ∧ av !! "time" = Some (Times (SNum <$> xs)).
Proof.
  unfold SolverCallerDReal.getCRNValues.
  destruct (dreal_for_each_time (Py.readlines content)
              (Values ∅ {["time" := Times []]}) []) as [Hall Hex];
    [apply lookup_singleton_eq|].
  destruct (Forall_Exists_dec (fun t => is_Some (float_of_str t))
              (fun t => float_of_str t = None)
              (fun t => match float_of_str t as o
                          return {is_Some o} + {o = None} with
                        | Some y => left (ex_intro _ y eq_refl)
                        | None => right eq_refl
                        end)
              (dreal_times (Py.readlines content))) as [Hfl|Hun].
  - destruct (Hall Hfl) as (st' & xs & -> & Hxs & Hst'). simpl.
    intros [= <- <-]. by exists xs.
  - by rewrite (Hex Hun).
Qed.

(** X15: the dReal parser raises exactly when some transition time of the
    file is a text [float] does not read, and the exception is
    [ValueError]. *)
Theorem dreal_raises_on_time (content : string) :
  (∀ e, SolverCallerDReal.getCRNValues content = Raise e → e = ValueError)
  ∧ (SolverCallerDReal.getCRNValues content = Raise ValueError
     ↔ Exists (fun t => float_of_str t = None) (dreal_times (Py.readlines content))).
Proof.
  unfold SolverCallerDReal.getCRNValues.
  destruct (dreal_for_each_time (Py.readlines content)
              (Values ∅ {["time" := Times []]}) []) as [Hall Hex];
    [apply lookup_singleton_eq|].
  destruct (Forall_Exists_dec (fun t => is_Some (float_of_str t))
              (fun t => float_of_str t = None)
              (fun t => match float_of_str t as o
                          return {is_Some o} + {o = None} with
                        | Some y => left (ex_intro _ y eq_refl)
                        | None => right eq_refl
                        end)
              (dreal_times (Py.readlines content))) as [Hfl|Hun].
  - destruct (Hall Hfl) as (st' & xs & -> & Hxs & Hst'). simpl.
    split; [done|]. split; [done|].
    intros Hun. apply Exists_exists in Hun as (t & Ht & Hnone).
    rewrite Forall_forall in Hfl. destruct (Hfl t Ht) as [y Hy]. congruence.
  - rewrite (Hex Hun). simpl. split; [by intros e [= <-]|done].
Qed.
End parser_times.

(** The witness of X14: the dReal file of the examples, with one transition
    time. *)
Lemma dreal_time_list_witness :
  ∃ xs,
    Forall2 (fun t y => float_of_str (Python := example_python) t = Some y)
      (dreal_times (Py.readlines example_dreal_output)) xs
    ∧ ({["time" := Times [SNum 2.5]; "k_1" := Interval (SStr "0.2") (SStr "0.4")]}
         : gmap string entry) !! "time"
      = Some (Times (SNum <$> xs)).
Proof.
  apply (dreal_time_list (H := example_python) example_dreal_output ∅
           {["time" := Times [SNum 2.5]; "k_1" := Interval (SStr "0.2") (SStr "0.4")]}).
  vm_compute. reflexivity.
Defined.

Section parser_names.
Context `{Python}.
Implicit Types (v n : string) (st : crn_values) (x : string * string)
  (lines : list string).

(** The cursor of the iSAT parser is never a name it passes over. *)
Lemma isat_names_body (s : option string * crn_values) line
    (s' : option string * crn_values) :
  (∀ n, s.1 = Some n → isat_ignored n = false)
  ∧ names_outside (fun n => isat_ignored n || bool_decide (n = "")) (all_values s.2) →
  SolverCallerISAT.getCRNValues_body s line = Ok s' →
  (∀ n, s'.1 = Some n → isat_ignored n = false)
  ∧ names_outside (fun n => isat_ignored n || bool_decide (n = "")) (all_values s'.2).
Proof.
  destruct s as [cur st]. simpl. intros [Hcur Hnames].
  unfold SolverCallerISAT.getCRNValues_body.
  destruct (Re.match_ SolverCallerISAT.p line) as [groups|].
  { destruct groups as [|g groups]; [done|].
    fold (isat_ignored (Py.strip g)).
    destruct (isat_ignored (Py.strip g)) eqn:Hg; intros [= <-]; simpl;
      (split; [|done]); [done|]. by intros n [= <-]. }
  destruct (Re.match_ SolverCallerISAT.p2 line) as [[|lo [|hi [|g groups]]]|];
    destruct cur as [name|]; try (by intros [= <-]).
  case_bool_decide as Hname; [by intros [= <-]|].
  destruct (SolverCallerISAT.record_values name (lo, hi) st) as [st1|e] eqn:Hrec;
    simpl; [|done].
  intros [= <-]. simpl. split; [done|].
  destruct (decide (name = "time")) as [->|Hn].
  - unfold SolverCallerISAT.record_values in Hrec.
    rewrite bool_decide_eq_true_2 in Hrec by done.
    destruct (all_values st !! "time") as [[|ts]|]; try done.
    injection Hrec as <-. simpl. intros v Hv.
    destruct (decide (v = "time")) as [->|Hvt]; [by left|].
    rewrite lookup_insert_ne in Hv by done. by apply Hnames.
  - rewrite isat_record_values in Hrec by done. injection Hrec as <-.
    intros v [->|Hv]%record_values_names; [|by apply Hnames].
    right. rewrite (Hcur name eq_refl). simpl. by apply bool_decide_eq_false_2.
Qed.

Lemma dreal_reading_name line n x :
  dreal_reading line = Some (inr (n, x)) → dreal_ignored n = false.
Proof.
  unfold dreal_reading, dreal_ignored.
  destruct (Re.match_ SolverCallerDReal.p line) as [[|g0 [|g1 [|g2 [|g3 groups]]]]|];
    try done.
  set (var := Py.join "_" (Py.drop_last2 (Py.split "_" (Py.strip g0)))).
  destruct (decide (var = "inputTime")) as [Hi|Hi];
    [by rewrite (bool_decide_eq_true_2 _ Hi)|].
  rewrite (bool_decide_eq_false_2 _ Hi).
  destruct (decide (var = "")) as [He|He].
  { rewrite (bool_decide_eq_true_2 _ He). by destruct (Py.startswith _ _). }
  rewrite (bool_decide_eq_false_2 _ He). simpl.
  destruct (Py.contains "mode_" var) eqn:Hm; [done|].
  intros [= <- <-]. rewrite Hm.
  by rewrite (bool_decide_eq_false_2 _ Hi), (bool_decide_eq_false_2 _ He).
Qed.

Lemma dreal_names_body st line st' :
  names_outside dreal_ignored (all_values st) →
  SolverCallerDReal.getCRNValues_body st line = Ok st' →
  names_outside dreal_ignored (all_values st').
Proof.
  intros Hnames. rewrite dreal_body_reading.
  destruct (dreal_reading line) as [[t|[n x]]|] eqn:Hr; [| |by intros [= <-]].
  - destruct (float_of_str t) as [y|]; [|done].
    destruct (all_values st !! "time") as [[|ts]|]; try done.
    intros [= <-]. simpl. intros v Hv.
    destruct (decide (v = "time")) as [->|Hvt]; [by left|].
    rewrite lookup_insert_ne in Hv by done. by apply Hnames.
  - intros [= <-]. intros v [->|Hv]%record_values_names; [|by apply Hnames].
    right. by eapply dreal_reading_name.
Qed.

Lemma names_outside_initial (ignored : string → bool) :
  names_outside ignored {["time" := Times []]}.
Proof.
  intros v Hv. left. destruct (decide (v = "time")) as [->|Hn]; [done|].
  rewrite lookup_singleton_ne in Hv by done. by destruct Hv.
Qed.

(** X16: the iSAT parser records no variable under a name that holds
    [solver] or [_trigger], that is [inputTime], or that is empty: whatever
    the file, no such name is a key of [all_values] or of
    [constant_values]. *)
Theorem isat_ignored_names (content : string) :
  ∃ cv av,
    SolverCallerISAT.getCRNValues content = Ok (cv, av)
    ∧ ∀ v, is_Some (av !! v) ∨ is_Some (cv !! v) →
           v = "time"
           ∨ (Py.contains "solver" v = false ∧ Py.contains "_trigger" v = false
              ∧ v ≠ "inputTime" ∧ v ≠ "").
Proof.
  destruct (isat_returns content) as (cur & st & Hrun).
  unfold SolverCallerISAT.getCRNValues. rewrite Hrun. simpl.
  eexists _, _. split; [done|].
  assert ((∀ n, (cur, st).1 = Some n → isat_ignored n = false)
          ∧ names_outside (fun n => isat_ignored n || bool_decide (n = ""))
              (all_values (cur, st).2)) as [_ Hnames].
  { apply (for_each_invariant
             (fun s : option string * crn_values =>
                (∀ n, s.1 = Some n → isat_ignored n = false)
                ∧ names_outside (fun n => isat_ignored n || bool_decide (n = ""))
                    (all_values s.2))
             _ isat_names_body (Py.readlines content)
             (None, Values ∅ {["time" := Times []]}) (cur, st));
      [|exact Hrun].
    split; [done|apply names_outside_initial]. }
  assert (kept (cur, st).2) as (_ & _ & Hwithin).
  { apply (for_each_invariant (fun s => kept s.2) _ kept_isat_body
             _ (None, Values ∅ {["time" := Times []]}) _ kept_initial Hrun). }
  simpl in Hwithin. intros v Hv.
  assert (is_Some (all_values st !! v)) as Hav.
  { destruct Hv as [Hv|[x Hx]]; [done|]. rewrite (Hwithin v x Hx). by eexists. }
  destruct (Hnames v Hav) as [->|Hign]; [by left|]. right.
  unfold isat_ignored in Hign.
  apply orb_false_elim in Hign as [Hign Hempty].
  apply orb_false_elim in Hign as [Hign Hinput].
  apply orb_false_elim in Hign as [Hsolver Htrigger].
  apply bool_decide_eq_false in Hinput, Hempty. done.
Qed.

(** X17: when the dReal parser returns, no key of [all_values] other than
    ["time"], and no key of [constant_values], is a name the parser passes
    over: none is [inputTime], is empty or holds [mode_]. *)
Theorem dreal_ignored_names (content : string) (cv : gmap string (string * string))
    (av : gmap string entry) :
  SolverCallerDReal.getCRNValues content = Ok (cv, av) →
  names_outside dreal_ignored av
  ∧ ∀ v, is_Some (cv !! v) → dreal_ignored v = false.
Proof.
  unfold SolverCallerDReal.getCRNValues.
  destruct (for_each _ _ _) as [st|e] eqn:Hrun; simpl; [|done].
  intros [= <- <-].
  pose proof (for_each_invariant (fun st => names_outside dreal_ignored (all_values st))
    _ dreal_names_body (Py.readlines content) (Values ∅ {["time" := Times []]}) st
    (names_outside_initial _) Hrun) as Hnames.
  pose proof (for_each_invariant kept _ kept_dreal_body _ _ _ kept_initial Hrun)
    as (_ & Htime & Hwithin).
  split; [done|]. intros v [x Hx].
  destruct (Hnames v) as [->|Hign]; [|congruence|done].
  rewrite (Hwithin v x Hx). by eexists.
Qed.

(** X18: the iSAT parser passes over the data lines that come before the
    first header: on a file with no header line it returns empty
    [constant_values] and only the empty list of times, whatever intervals
    the lines hold. *)
Theorem isat_no_header (content : string) :
  Forall (fun line => Re.match_ SolverCallerISAT.p line = None) (Py.readlines content) →
  SolverCallerISAT.getCRNValues content = Ok (∅, {["time" := Times []]}).
Proof.
  intros Hno. unfold SolverCallerISAT.getCRNValues.
  assert (∀ st, for_each SolverCallerISAT.getCRNValues_body (None, st)
                  (Py.readlines content) = Ok (None, st)) as ->; [|done].
  induction Hno as [|line lines Hp _ IH]; intros st; simpl; [done|].
  rewrite Hp. destruct (Re.match_ SolverCallerISAT.p2 line) as [[|lo [|hi [|g groups]]]|];
    simpl; apply IH.
Qed.
End parser_names.

(** The witness of X17: the same file. *)
Lemma dreal_ignored_names_witness :
  names_outside dreal_ignored
    {["time" := Times [SNum 2.5]; "k_1" := Interval (SStr "0.2") (SStr "0.4")]}
  ∧ ∀ v, is_Some ((∅ : gmap string (string * string)) !! v) → dreal_ignored v = false.
Proof.
  apply (dreal_ignored_names (H := example_python) example_dreal_output ∅
           {["time" := Times [SNum 2.5]; "k_1" := Interval (SStr "0.2") (SStr "0.4")]}).
  vm_compute. reflexivity.
Defined.

(** The witness of X18: two data lines and no header. *)
Lemma isat_no_header_witness :
  SolverCallerISAT.getCRNValues ("  @0: [0.2,0.4] (w)" +:+ nl +:+ "  @1: [0.5,0.6] (w)" +:+ nl)
  = Ok (∅, {["time" := Times []]}).
Proof.
  apply (isat_no_header ("  @0: [0.2,0.4] (w)" +:+ nl +:+ "  @1: [0.5,0.6] (w)" +:+ nl)).
  vm_compute. repeat constructor.
Defined.

(** ** The lines the patterns read *)

Section matcher_runs.
Implicit Types (p : ascii → bool) (s t a : string) (c : ascii)
  (k : string → list string → option (list string)) (g : list string).

Lemma consumed_app a t : Re.consumed (a +:+ t) t = a.
Proof.
  unfold Re.consumed. rewrite string_length_app.
  replace (String.length a + String.length t - String.length t)%nat
    with (String.length a) by lia.
  induction a as [|c a IH]; simpl; [by destruct t|]. by rewrite IH.
Qed.

Lemma run_lit (l : string) k t g : Re.run (Re.lit l) k (l +:+ t) g = k t g.
Proof.
  revert k. induction l as [|c l IH]; intros k; simpl; [done|].
  rewrite bool_decide_eq_true_2 by done. apply IH.
Qed.

Lemma run_lit_fails (l : string) c k s c' g :
  c' ≠ c → Re.run (Re.lit (String c l)) k (String c' s) g = None.
Proof. intros Hc. simpl. by rewrite bool_decide_eq_false_2. Qed.

Lemma greedy_star_all {R : Type} p (kk : string → option R) a t r :
  all_chars p a = true → stops p t = true → kk t = Some r →
  Re.greedy_star p kk (a +:+ t) = Some r.
Proof.
  intros Ha Ht Hk. induction a as [|c a IH]; simpl in *.
  - destruct t as [|c t]; simpl in *; [done|].
    apply negb_true_iff in Ht. by rewrite Ht.
  - apply andb_true_iff in Ha as [-> Ha]. by rewrite IH.
Qed.

Lemma lazy_star_first {R : Type} p (kk : string → option R) a t r :
  all_chars p a = true →
  (∀ a1 c a2, a = a1 +:+ String c a2 → kk (String c a2 +:+ t) = None) →
  kk t = Some r →
  Re.lazy_star p kk (a +:+ t) = Some r.
Proof.
  intros Ha Hfail Hk. induction a as [|c a IH]; simpl in *.
  - change (Re.lazy_star p kk t = Some r). destruct t; simpl; by rewrite Hk.
  - apply andb_true_iff in Ha as [Hc Ha].
    assert (kk (String c (a +:+ t)) = None) as -> by apply (Hfail "" c a eq_refl).
    rewrite Hc. apply IH; [done|].
    intros a1 c' a2 ->. by apply (Hfail (String c a1) c' a2).
Qed.

(** A greedy group over a class reads the whole run of the class. *)
Lemma run_group_greedy p k c a t g r :
  all_chars p (String c a) = true → stops p t = true →
  k t (g ++ [String c a]) = Some r →
  Re.run (Re.Group (Re.PlusGreedy p)) k (String c a +:+ t) g = Some r.
Proof.
  intros Ha Ht Hk. simpl in *. apply andb_true_iff in Ha as [-> Ha].
  apply greedy_star_all; [done|done|].
  change (String c (a +:+ t)) with (String c a +:+ t). by rewrite consumed_app.
Qed.

(** A lazy group over a class reads up to the first place where the rest of
    the pattern matches. *)
Lemma run_group_lazy p k c a t g r :
  all_chars p (String c a) = true →
  (∀ a1 c' a2 g', a = a1 +:+ String c' a2 → k (String c' a2 +:+ t) g' = None) →
  k t (g ++ [String c a]) = Some r →
  Re.run (Re.Group (Re.PlusLazy p)) k (String c a +:+ t) g = Some r.
Proof.
  intros Ha Hfail Hk. simpl in *. apply andb_true_iff in Ha as [-> Ha].
  apply lazy_star_first; [done| |].
  - intros a1 c' a2 Heq. by eapply Hfail.
  - change (String c (a +:+ t)) with (String c a +:+ t). by rewrite consumed_app.
Qed.

Lemma run_lazy p k c a t g r :
  all_chars p (String c a) = true →
  (∀ a1 c' a2, a = a1 +:+ String c' a2 → k (String c' a2 +:+ t) g = None) →
  k t g = Some r →
  Re.run (Re.PlusLazy p) k (String c a +:+ t) g = Some r.
Proof.
  intros Ha Hfail Hk. simpl in *. apply andb_true_iff in Ha as [-> Ha].
  apply lazy_star_first; done.
Qed.

Lemma all_chars_app p a t :
  all_chars p (a +:+ t) = all_chars p a && all_chars p t.
Proof.
  induction a as [|c a IH]; simpl; [done|]. by rewrite IH, andb_assoc.
Qed.

Lemma all_chars_impl p (q : ascii → bool) a :
  (∀ c, p c = true → q c = true) → all_chars p a = true → all_chars q a = true.
Proof.
  intros Hpq. induction a as [|c a IH]; simpl; [done|].
  intros [Hc Ha]%andb_true_iff. by rewrite (Hpq c Hc), IH.
Qed.

(** [strip] leaves a text with no white space as it is. *)
Lemma strip_no_space a :
  all_chars (fun c => negb (Py.isspace c)) a = true → Py.strip a = a.
Proof.
  intros Ha. unfold Py.strip.
  assert (Py.lstrip a = a) as ->.
  { destruct a as [|c a]; simpl in *; [done|].
    apply andb_true_iff in Ha as [Hc _]. apply negb_true_iff in Hc. by rewrite Hc. }
  induction a as [|c a IH]; simpl in *; [done|].
  apply andb_true_iff in Ha as [Hc Ha]. rewrite IH by done.
  apply negb_true_iff in Hc. destruct a; [|done]. by rewrite Hc.
Qed.

Lemma word_no_space c : Re.word c = true → negb (Py.isspace c) = true.
Proof.
  destruct c as [[] [] [] [] [] [] [] []]; vm_compute; done.
Qed.

Lemma digit_or_dot_spec c :
  Re.digit_or_dot c = true →
  c ≠ ","%char ∧ Re.one_of "])" c = false.
Proof.
  destruct c as [[] [] [] [] [] [] [] []]; vm_compute; try done; intros _; split; done.
Qed.
End matcher_runs.

Section matcher_equations.
Implicit Types (p : ascii → bool) (s t a : string) (c : ascii)
  (k : string → list string → option (list string)) (g : list string).

Lemma run_seq (r1 r2 : Re.regex) k s g :
  Re.run (Re.Seq r1 r2) k s g = Re.run r1 (Re.run r2 k) s g.
Proof. done. Qed.

Lemma run_chr c k s g : Re.run (Re.Chr c) k (String c s) g = k s g.
Proof. simpl. by rewrite bool_decide_eq_true_2. Qed.

Lemma run_cls p k c s g : p c = true → Re.run (Re.Cls p) k (String c s) g = k s g.
Proof. intros Hc. simpl. by rewrite Hc. Qed.

Lemma run_cls_fails p (r : Re.regex) k c s g :
  p c = false → Re.run (Re.Seq (Re.Cls p) r) k (String c s) g = None.
Proof. intros Hc. simpl. by rewrite Hc. Qed.

Lemma all_chars_middle p a1 c a2 :
  all_chars p (a1 +:+ String c a2) = true → p c = true.
Proof.
  rewrite all_chars_app. simpl. intros [_ [Hc _]%andb_true_iff]%andb_true_iff. done.
Qed.
End matcher_equations.

Section dreal_lines.
Context `{Python}.

(** The pattern of the dReal parser on a line of the shape it is written
    for. *)
Lemma dreal_p_reads (name lo hi rest : string) (opening closing : ascii) :
  name ≠ "" → all_chars Re.word name = true →
  lo ≠ "" → all_chars Re.digit_or_dot lo = true →
  hi ≠ "" → all_chars Re.digit_or_dot hi = true →
  Re.one_of "[(" opening = true → Re.one_of "])" closing = true →
  Re.match_ SolverCallerDReal.p
    (String Py.tab (name +:+ " : " +:+ String opening
                      (lo +:+ ", " +:+ hi +:+ String closing rest)))
  = Some [name; lo; hi].
Proof.
  intros Hname Hword Hlo Hlod Hhi Hhid Hopen Hclose.
  destruct name as [|c0 name]; [done|]. destruct lo as [|c1 lo]; [done|].
  destruct hi as [|c2 hi]; [done|].
  unfold Re.match_, SolverCallerDReal.p. cbn [Re.cat].
  rewrite run_seq, run_chr, run_seq.
  apply run_group_greedy; [done|done|].
  rewrite run_seq, run_lit, run_seq, run_cls, run_seq by done.
  apply run_group_lazy; [done| |].
  { intros a1 c' a2 g' ->. rewrite run_seq.
    apply andb_true_iff in Hlod as [_ Hlod]. apply all_chars_middle in Hlod.
    apply run_lit_fails. by apply digit_or_dot_spec. }
  rewrite run_seq, run_lit, run_seq.
  apply run_group_lazy; [done| |].
  { intros a1 c' a2 g' ->.
    apply andb_true_iff in Hhid as [_ Hhid]. apply all_chars_middle in Hhid.
    apply run_cls_fails. by apply digit_or_dot_spec. }
  rewrite run_seq, run_cls by done. done.
Qed.
End dreal_lines.

Section derived_names.
Implicit Types (s t base i j : string) (sep : ascii).

Lemma split_app_sep sep s t :
  Py.split sep (s +:+ String sep t) = Py.split sep s ++ Py.split sep t.
Proof.
  induction s as [|c s IH]; simpl.
  - by rewrite bool_decide_eq_true_2.
  - case_bool_decide; [by rewrite IH|].
    rewrite IH. by destruct (split_cons sep s) as (x & l & ->).
Qed.

Lemma drop_last2_app {A} (l : list A) (x y : A) : Py.drop_last2 (l ++ [x; y]) = l.
Proof.
  unfold Py.drop_last2. rewrite length_app. simpl.
  replace (length l + 2 - 2)%nat with (length l) by lia.
  by rewrite take_app_length.
Qed.

Lemma derived_name_suffix base i j :
  Py.has_char "_" i = false → Py.has_char "_" j = false →
  derived_name (base +:+ "_" +:+ i +:+ "_" +:+ j) = base.
Proof.
  intros Hi Hj. unfold derived_name.
  change (base +:+ "_" +:+ i +:+ "_" +:+ j) with (base +:+ String "_" (i +:+ String "_" j)).
  rewrite split_app_sep, split_app_no_sep, (split_no_sep_id _ j) by done.
  rewrite drop_last2_app. apply join_split.
Qed.

Lemma derived_name_short s t :
  Py.has_char "_" s = false → Py.has_char "_" t = false →
  derived_name s = "" ∧ derived_name (s +:+ "_" +:+ t) = "".
Proof.
  intros Hs Ht. unfold derived_name.
  change (s +:+ "_" +:+ t) with (s +:+ String "_" t).
  by rewrite split_app_no_sep, !split_no_sep_id by done.
Qed.

(** X19: the name the dReal parsers derive, ["_".join(name.split("_")[:-2])],
    is the raw name without its last two underscore-separated tokens, so
    [<base>_<i>_<j>] gives back [<base>], underscores of the base kept; and
    it is empty for a raw name with no underscore or with one only, such as
    [time_0]. *)
Theorem derived_name_tokens (base i j : string) :
  Py.has_char "_" i = false → Py.has_char "_" j = false →
  Py.join "_" (Py.drop_last2 (Py.split "_" (base +:+ "_" +:+ i +:+ "_" +:+ j))) = base
  ∧ Py.join "_" (Py.drop_last2 (Py.split "_" i)) = ""
  ∧ Py.join "_" (Py.drop_last2 (Py.split "_" (i +:+ "_" +:+ j))) = ""
  ∧ derived_name (base +:+ "_" +:+ i +:+ "_" +:+ j) = base.
Proof.
  intros Hi Hj.
  pose proof (derived_name_suffix base i j Hi Hj) as Hbase.
  destruct (derived_name_short i j Hi Hj) as [Hone Htwo]. done.
Qed.
End derived_names.

(** The witness of X19: the raw name [k_1_0_2]. *)
Lemma derived_name_tokens_witness :
  Py.join "_" (Py.drop_last2 (Py.split "_" ("k_1" +:+ "_" +:+ "0" +:+ "_" +:+ "2"))) = "k_1"
  ∧ Py.join "_" (Py.drop_last2 (Py.split "_" "0")) = ""
  ∧ Py.join "_" (Py.drop_last2 (Py.split "_" ("0" +:+ "_" +:+ "2"))) = ""
  ∧ derived_name ("k_1" +:+ "_" +:+ "0" +:+ "_" +:+ "2") = "k_1".
Proof. apply (derived_name_tokens "k_1" "0" "2"); reflexivity. Defined.

Section dreal_lines_read.
Context `{Python}.

Lemma isdigit_word c : Py.isdigit c = true → Re.word c = true.
Proof. unfold Re.word. intros ->. by rewrite orb_true_r. Qed.

Lemma isdigit_no_underscore s : all_chars Py.isdigit s = true → Py.has_char "_" s = false.
Proof.
  induction s as [|c s IH]; simpl; [done|]. intros [Hc Hs]%andb_true_iff.
  rewrite IH by done. rewrite bool_decide_eq_false_2; [done|]. by intros <-.
Qed.

(** X20: a line [\t<base>_<i>_<j> : [<lo>, <hi>]] of a dReal proof file,
    with a base of letters, digits and underscores that the parser does not
    pass over, [i] and [j] digits, and bounds of digits and dots, is read as
    the interval [(lo, hi)] of the variable [<base>]: the loop hands it to
    its first-seen rule under that name, whatever follows the bracket. *)
Theorem dreal_line_recorded (st : crn_values) (base i j lo hi rest : string)
    (opening closing : ascii) :
  all_chars Re.word base = true → dreal_ignored base = false →
  all_chars Py.isdigit i = true → all_chars Py.isdigit j = true →
  lo ≠ "" → all_chars Re.digit_or_dot lo = true →
  hi ≠ "" → all_chars Re.digit_or_dot hi = true →
  Re.one_of "[(" opening = true → Re.one_of "])" closing = true →
  SolverCallerDReal.getCRNValues_body st
    (String Py.tab ((base +:+ "_" +:+ i +:+ "_" +:+ j) +:+ " : " +:+ String opening
                      (lo +:+ ", " +:+ hi +:+ String closing rest)))
  = Ok (SolverCallerDReal.record_values base (lo, hi) st).
Proof.
  intros Hbase Hign Hi Hj Hlo Hlod Hhi Hhid Hopen Hclose.
  assert (all_chars Re.word (base +:+ "_" +:+ i +:+ "_" +:+ j) = true) as Hword.
  { rewrite !all_chars_app, Hbase. simpl.
    by rewrite !(all_chars_impl _ _ _ isdigit_word) by done. }
  unfold SolverCallerDReal.getCRNValues_body.
  rewrite dreal_p_reads; try done; [|by destruct base].
  rewrite strip_no_space by (by apply (all_chars_impl _ _ _ word_no_space)).
  fold (derived_name (base +:+ "_" +:+ i +:+ "_" +:+ j)).
  rewrite derived_name_suffix by (by apply isdigit_no_underscore).
  unfold dreal_ignored in Hign.
  apply orb_false_elim in Hign as [Hign ->].
  apply orb_false_elim in Hign as [-> ->]. done.
Qed.

(** X21: a line [\ttime_<k> : [<lo>, <hi>]] of a dReal proof file, [k]
    digits, is read as a transition time: [float(hi)] is appended to
    [all_values["time"]], and the line raises [ValueError] when [float] does
    not read [hi]; [lo] is not read. *)
Theorem dreal_time_line_read (st : crn_values) (ts : list scalar)
    (k lo hi rest : string) (opening closing : ascii) :
  all_values st !! "time" = Some (Times ts) →
  all_chars Py.isdigit k = true →
  lo ≠ "" → all_chars Re.digit_or_dot lo = true →
  hi ≠ "" → all_chars Re.digit_or_dot hi = true →
  Re.one_of "[(" opening = true → Re.one_of "])" closing = true →
  SolverCallerDReal.getCRNValues_body st
    (String Py.tab (("time" +:+ "_" +:+ k) +:+ " : " +:+ String opening
                      (lo +:+ ", " +:+ hi +:+ String closing rest)))
  = match float_of_str hi with
    | Some y =>
        Ok (Values (constant_values st)
              (<["time" := Times (ts ++ [SNum y])]> (all_values st)))
    | None => Raise ValueError
    end.
Proof.
  intros Hts Hk Hlo Hlod Hhi Hhid Hopen Hclose.
  assert (all_chars Re.word ("time" +:+ "_" +:+ k) = true) as Hword.
  { change ("time" +:+ "_" +:+ k) with ("time_" +:+ k).
    by rewrite all_chars_app, (all_chars_impl _ _ _ isdigit_word Hk). }
  unfold SolverCallerDReal.getCRNValues_body.
  rewrite dreal_p_reads by done.
  rewrite strip_no_space by (by apply (all_chars_impl _ _ _ word_no_space)).
  fold (derived_name ("time" +:+ "_" +:+ k)).
  destruct (derived_name_short "time" k eq_refl (isdigit_no_underscore k Hk))
    as [_ ->].
  rewrite bool_decide_eq_false_2 by done.
  rewrite bool_decide_eq_true_2 by done.
  change ("time" +:+ "_" +:+ k) with ("time_" +:+ k).
  unfold Py.startswith. rewrite prefix_app. simpl.
  by rewrite Hts.
Qed.
End dreal_lines_read.

(** The witness of X20: the first line of a rate. *)
Lemma dreal_line_recorded_witness :
  SolverCallerDReal.getCRNValues_body (H := example_python)
    (Values ∅ {["time" := Times []]})
    (String Py.tab "k_1_0_0 : [0.2, 0.4]" +:+ nl)
  = Ok (SolverCallerDReal.record_values "k_1" ("0.2", "0.4")
          (Values ∅ {["time" := Times []]})).
Proof.
  apply (dreal_line_recorded (H := example_python) (Values ∅ {["time" := Times []]})
           "k_1" "0" "0" "0.2" "0.4" nl "[" "]"); done.
Defined.

(** The witness of X21: the line of the first transition time. *)
Lemma dreal_time_line_read_witness :
  SolverCallerDReal.getCRNValues_body (H := example_python)
    (Values ∅ {["time" := Times []]})
    (String Py.tab "time_0 : [0.5, 2.5]" +:+ nl)
  = Ok (Values ∅ (<["time" := Times [SNum 2.5]]> {["time" := Times []]})).
Proof.
  exact (dreal_time_line_read (H := example_python) (Values ∅ {["time" := Times []]})
           [] "0" "0.5" "2.5" nl "[" "]" eq_refl eq_refl ltac:(done) eq_refl
           ltac:(done) eq_refl eq_refl eq_refl).
Defined.

Section isat_lines.
Implicit Types (p : ascii → bool) (s t a : string) (c : ascii)
  (k : string → list string → option (list string)) (g : list string).

Lemma run_chr_fails c (r : Re.regex) k c' s g :
  c' ≠ c → Re.run (Re.Seq (Re.Chr c) r) k (String c' s) g = None.
Proof. intros Hc. simpl. by rewrite bool_decide_eq_false_2. Qed.

Lemma run_greedy p k c a t g r :
  all_chars p (String c a) = true → stops p t = true → k t g = Some r →
  Re.run (Re.PlusGreedy p) k (String c a +:+ t) g = Some r.
Proof.
  intros Ha Ht Hk. simpl in *. apply andb_true_iff in Ha as [-> Ha].
  by apply greedy_star_all.
Qed.

Lemma has_char_middle c a1 c' a2 :
  Py.has_char c (a1 +:+ String c' a2) = false → c' ≠ c ∧ Py.has_char c a2 = false.
Proof.
  rewrite has_char_app. simpl.
  intros [_ [Hc Ha]%orb_false_elim]%orb_false_elim.
  apply bool_decide_eq_false in Hc. split; [congruence|done].
Qed.

(** The opening of the type of a header is not found inside a name that
    holds no parenthesis. *)
Lemma opening_fails c a u k g :
  Py.has_char "(" (String c a) = false →
  Re.run (Re.lit " (") k (String c a +:+ " (" +:+ u) g = None.
Proof.
  simpl. intros [Hc Ha]%orb_false_elim.
  destruct (bool_decide (c = " "%char)); [|done].
  destruct a as [|d a]; simpl in *; [done|].
  apply orb_false_elim in Ha as [Hd _]. apply bool_decide_eq_false in Hd.
  rewrite bool_decide_eq_false_2; [done|congruence].
Qed.

(** The header pattern of the iSAT parser on a line [<name> (<type>):]. *)
Lemma isat_p_reads (name type rest : string) :
  name ≠ "" → all_chars Re.dot name = true → Py.has_char "(" name = false →
  type ≠ "" → all_chars Re.dot type = true → Py.has_char ")" type = false →
  Re.match_ SolverCallerISAT.p (name +:+ " (" +:+ type +:+ "):" +:+ rest)
  = Some [name].
Proof.
  intros Hname Hdot Hparen Htype Htdot Htparen.
  destruct name as [|c0 name]; [done|]. destruct type as [|c1 type]; [done|].
  unfold Re.match_, SolverCallerISAT.p. cbn [Re.cat].
  rewrite run_seq.
  apply run_group_lazy; [done| |].
  { intros a1 c' a2 g' ->. rewrite run_seq. apply opening_fails.
    simpl in Hparen. apply orb_false_elim in Hparen as [_ Hparen].
    apply has_char_middle in Hparen as [Hc' Ha2]. simpl.
    rewrite Ha2. rewrite bool_decide_eq_false_2; [done|congruence]. }
  rewrite run_seq, run_lit, run_seq.
  apply run_lazy; [done| |].
  { intros a1 c' a2 ->. rewrite run_seq.
    simpl in Htparen. apply orb_false_elim in Htparen as [_ Htparen].
    apply has_char_middle in Htparen as [Hc' _].
    by apply run_lit_fails. }
  by rewrite run_seq, run_lit.
Qed.

(** The data pattern of the iSAT parser on a line
    [<before>[<lo>,<hi>]<after>]. *)
Lemma isat_p2_reads (before lo hi after rest : string) (opening closing : ascii) :
  before ≠ "" →
  all_chars (fun c => Re.dot c && negb (Re.one_of "[(" c)) before = true →
  lo ≠ "" → all_chars Re.dot lo = true → Py.has_char "," lo = false →
  hi ≠ "" → all_chars (fun c => Re.dot c && negb (Re.one_of "])" c)) hi = true →
  Re.one_of "[(" opening = true → Re.one_of "])" closing = true →
  after ≠ "" → all_chars Re.dot after = true → stops Re.dot rest = true →
  Re.match_ SolverCallerISAT.p2
    (before +:+ String opening (lo +:+ "," +:+ hi +:+ String closing (after +:+ rest)))
  = Some [lo; hi].
Proof.
  intros Hb Hbd Hlo Hlod Hloc Hhi Hhid Hopen Hclose Ha Had Hrest.
  destruct before as [|c0 before]; [done|]. destruct lo as [|c1 lo]; [done|].
  destruct hi as [|c2 hi]; [done|]. destruct after as [|c3 after]; [done|].
  unfold Re.match_, SolverCallerISAT.p2. cbn [Re.cat].
  rewrite run_seq.
  apply run_lazy.
  { eapply all_chars_impl; [|exact Hbd]. by intros c [? _]%andb_true_iff. }
  { intros a1 c' a2 ->. simpl in Hbd. apply andb_true_iff in Hbd as [_ Hbd].
    apply all_chars_middle in Hbd. apply andb_true_iff in Hbd as [_ Hc'].
    apply run_cls_fails. by apply negb_true_iff. }
  rewrite run_seq, run_cls, run_seq by done.
  apply run_group_lazy; [done| |].
  { intros a1 c' a2 g' ->. simpl in Hloc.
    apply orb_false_elim in Hloc as [_ Hloc].
    apply has_char_middle in Hloc as [Hc' _]. by apply run_chr_fails. }
  rewrite run_seq.
  change ("," +:+ String c2 hi +:+ String closing (String c3 after +:+ rest))
    with (String "," (String c2 hi +:+ String closing (String c3 after +:+ rest))).
  rewrite run_chr, run_seq.
  apply run_group_lazy.
  { eapply all_chars_impl; [|exact Hhid]. by intros c [? _]%andb_true_iff. }
  { intros a1 c' a2 g' ->. simpl in Hhid. apply andb_true_iff in Hhid as [_ Hhid].
    apply all_chars_middle in Hhid. apply andb_true_iff in Hhid as [_ Hc'].
    apply run_cls_fails. by apply negb_true_iff. }
  rewrite run_seq, run_cls, run_seq by done.
  by apply run_greedy.
Qed.

(** X22: a line [<name> (<type>):], the name without parenthesis and the
    type without closing parenthesis, sets the cursor of the iSAT parser to
    the name without the white space around it, or to none when this is a
    name the parser passes over; the dictionaries are left as they are,
    whatever the cursor was. *)
Theorem isat_header_read (cur : option string) (vs : crn_values)
    (name type rest : string) :
  name ≠ "" → all_chars Re.dot name = true → Py.has_char "(" name = false →
  type ≠ "" → all_chars Re.dot type = true → Py.has_char ")" type = false →
  SolverCallerISAT.getCRNValues_body (cur, vs)
    (name +:+ " (" +:+ type +:+ "):" +:+ rest)
  = Ok (if Py.contains "solver" (Py.strip name)
           || Py.contains "_trigger" (Py.strip name)
           || bool_decide (Py.strip name = "inputTime")
        then None else Some (Py.strip name), vs).
Proof.
  intros Hname Hdot Hparen Htype Htdot Htparen.
  unfold SolverCallerISAT.getCRNValues_body.
  rewrite isat_p_reads by done. by destruct (_ || _).
Qed.

(** X23: a line [<before>[<lo>,<hi>]<after>] that is no header, with
    nothing that opens a bracket before the interval, no comma in [lo], no
    closing bracket in [hi], and an [after] of one character or more, is
    read as the interval [(lo, hi)], as text, of the variable of the cursor;
    with no cursor the line is passed over. *)
Theorem isat_data_line_read (vs : crn_values) (name before lo hi after rest : string)
    (opening closing : ascii) :
  Re.match_ SolverCallerISAT.p
    (before +:+ String opening (lo +:+ "," +:+ hi +:+ String closing (after +:+ rest)))
  = None →
  before ≠ "" →
  all_chars (fun c => Re.dot c && negb (Re.one_of "[(" c)) before = true →
  lo ≠ "" → all_chars Re.dot lo = true → Py.has_char "," lo = false →
  hi ≠ "" → all_chars (fun c => Re.dot c && negb (Re.one_of "])" c)) hi = true →
  Re.one_of "[(" opening = true → Re.one_of "])" closing = true →
  after ≠ "" → all_chars Re.dot after = true → stops Re.dot rest = true →
  name ≠ "" →
  SolverCallerISAT.getCRNValues_body (Some name, vs)
    (before +:+ String opening (lo +:+ "," +:+ hi +:+ String closing (after +:+ rest)))
  = (vs' ← SolverCallerISAT.record_values name (lo, hi) vs; Ok (Some name, vs'))
  ∧ SolverCallerISAT.getCRNValues_body (None, vs)
      (before +:+ String opening (lo +:+ "," +:+ hi +:+ String closing (after +:+ rest)))
    = Ok (None, vs).
Proof.
  intros Hp Hb Hbd Hlo Hlod Hloc Hhi Hhid Hopen Hclose Ha Had Hrest Hname.
  unfold SolverCallerISAT.getCRNValues_body.
  rewrite Hp, isat_p2_reads by done.
  by rewrite bool_decide_eq_false_2.
Qed.
End isat_lines.

(** The witness of X22: a header with white space before the name. *)
Lemma isat_header_read_witness :
  SolverCallerISAT.getCRNValues_body (None, Values ∅ {["time" := Times []]})
    ("  k_1" +:+ " (" +:+ "float" +:+ "):" +:+ nl)
  = Ok (Some "k_1", Values ∅ {["time" := Times []]}).
Proof.
  exact (isat_header_read None (Values ∅ {["time" := Times []]}) "  k_1" "float" nl
           ltac:(done) eq_refl eq_refl ltac:(done) eq_refl eq_refl).
Defined.

(** The witness of X23: a data line with a remark after the interval. *)
Lemma isat_data_line_read_witness :
  SolverCallerISAT.getCRNValues_body (Some "k_1", Values ∅ {["time" := Times []]})
    ("  @0: " +:+ String "[" ("0.2" +:+ "," +:+ "0.4" +:+ String "]" (" (approx)" +:+ nl)))
  = (vs' ← SolverCallerISAT.record_values "k_1" ("0.2", "0.4")
             (Values ∅ {["time" := Times []]});
     Ok (Some "k_1", vs'))
  ∧ SolverCallerISAT.getCRNValues_body (None, Values ∅ {["time" := Times []]})
      ("  @0: " +:+ String "[" ("0.2" +:+ "," +:+ "0.4" +:+ String "]" (" (approx)" +:+ nl)))
    = Ok (None, Values ∅ {["time" := Times []]}).
Proof.
  apply (isat_data_line_read (Values ∅ {["time" := Times []]}) "k_1"
           "  @0: " "0.2" "0.4" " (approx)" nl "[" "]"); done.
Defined.

(** ** The parser of structured traces: traces of one name, malformed
    documents *)

Section json_traces.
Implicit Types (t : json) (st : SolverCallerDReal.json_parser)
  (kt : string * list json) (typed : list (string * list json)) (n : string).

Lemma for_each_app {S A : Type} (body : S → A → result S) (l1 l2 : list A) (s : S) :
  for_each body s (l1 ++ l2) = for_each body s l1 ≫= fun s' => for_each body s' l2.
Proof.
  revert s. induction l1 as [|a l1 IH]; intros s; simpl; [done|].
  destruct (body s a); simpl; [apply IH|done].
Qed.

(** After the traces [typed], a name holds the first enclosure of its last
    trace, and as a constant that of its last constant trace. *)
Lemma json_foldl_last typed n :
  n ≠ "" → Forall (fun kt => derived_name kt.1 ≠ "" → kt.2 ≠ []) typed →
  SolverCallerDReal.json_all_values
    (foldl json_step (SolverCallerDReal.JsonParser ∅ ∅) typed) !! n
  = last (firsts_named n typed)
  ∧ SolverCallerDReal.json_constant_values
      (foldl json_step (SolverCallerDReal.JsonParser ∅ ∅) typed) !! n
    = last (constant_firsts_named n typed).
Proof.
  intros Hn. induction typed as [|kt typed IH] using rev_ind; intros Hne; [done|].
  apply Forall_app in Hne as [Hne [Hkt _]%Forall_cons].
  destruct (IH Hne) as [IHav IHcv]. clear IH.
  rewrite foldl_app. simpl.
  unfold firsts_named, constant_firsts_named in *. rewrite !omap_app. simpl.
  destruct kt as [key enclosures]. simpl in *.
  destruct (decide (derived_name key = n)) as [<-|Hother].
  - rewrite (bool_decide_eq_true_2 _ eq_refl).
    destruct enclosures as [|first rest]; [by destruct Hkt|].
    destruct (json_step_same
                (foldl json_step (SolverCallerDReal.JsonParser ∅ ∅) typed)
                key first rest Hn) as [-> ->].
    rewrite andb_true_l.
    destruct (forallb _ (first :: rest)) eqn:Hall; simpl in Hall |- *;
      rewrite Hall, ?last_snoc, ?app_nil_r; done.
  - destruct (json_step_other
                (foldl json_step (SolverCallerDReal.JsonParser ∅ ∅) typed)
                (key, enclosures) n Hother) as [-> ->].
    rewrite (bool_decide_eq_false_2 _ Hother).
    destruct enclosures as [|first rest]; simpl; by rewrite !app_nil_r.
Qed.

Lemma json_body_skips st t (key : string) :
  Json.getitem t "key" = Ok (JStr key) →
  Py.join "_" (Py.drop_last2 (Py.split "_" key)) = "" →
  SolverCallerDReal.getCRNValuesFromJSON_body st t = Ok st.
Proof.
  intros Hkey Hname. unfold SolverCallerDReal.getCRNValuesFromJSON_body.
  rewrite Hkey. simpl. rewrite Hname. by rewrite bool_decide_eq_true_2.
Qed.

(** X24: on a document whose traces the parser can read, it returns, and
    for every name that is not empty [all_values] holds the first enclosure
    of the last trace of that derived name (none when there is no such
    trace), and [constant_values] holds the first enclosure of the last such
    trace whose enclosures all equal its first: a later trace of the name
    replaces what an earlier one left, and a trace that varies leaves the
    constant of an earlier one in place. *)
Theorem json_last_trace_wins (results : json) (traces : list json)
    (typed : list (string * list json)) :
  (Json.getitem results "traces" ≫= fun x => Json.getindex x 0) = Ok (JArr traces) →
  traces_read traces typed →
  ∃ cv av,
    SolverCallerDReal.getCRNValuesFromJSON results = Ok (cv, av)
    ∧ ∀ n, n ≠ "" →
           av !! n = last (firsts_named n typed)
           ∧ cv !! n = last (constant_firsts_named n typed).
Proof.
  intros Htraces Hwf. unfold SolverCallerDReal.getCRNValuesFromJSON.
  destruct (Json.getitem results "traces") as [x|e]; simpl in *; [|done].
  rewrite Htraces. simpl.
  rewrite (json_for_each_spec traces typed Hwf). simpl.
  eexists _, _. split; [done|]. intros n Hn.
  apply json_foldl_last; [done|].
  clear Htraces. induction Hwf as [|t kt traces typed [_ Hkt] _ IH]; by constructor.
Qed.

(** X25: a trace whose derived name is empty, such as the one of a
    transition time [time_0], is passed over without a look at its values:
    the document without it gives the same result, or the same exception. *)
Theorem json_unnamed_trace_skipped (results results' : json)
    (before after : list json) (t : json) (key : string) :
  (Json.getitem results "traces" ≫= fun x => Json.getindex x 0)
  = Ok (JArr (before ++ t :: after)) →
  (Json.getitem results' "traces" ≫= fun x => Json.getindex x 0)
  = Ok (JArr (before ++ after)) →
  Json.getitem t "key" = Ok (JStr key) →
  Py.join "_" (Py.drop_last2 (Py.split "_" key)) = "" →
  SolverCallerDReal.getCRNValuesFromJSON results
  = SolverCallerDReal.getCRNValuesFromJSON results'.
Proof.
  intros Hr Hr' Hkey Hname. unfold SolverCallerDReal.getCRNValuesFromJSON.
  destruct (Json.getitem results "traces") as [x|e]; simpl in *; [|done].
  destruct (Json.getitem results' "traces") as [x'|e']; simpl in *; [|done].
  rewrite Hr, Hr'. simpl. rewrite !for_each_app. simpl.
  destruct (for_each _ _ before) as [st|e]; simpl; [|done].
  by rewrite (json_body_skips st t key Hkey Hname).
Qed.

(** X26: a document with no ["traces"] raises [KeyError] and one whose
    ["traces"] is an empty list raises [IndexError]; and after traces the
    parser can read, a trace with no ["key"] raises [KeyError], and a trace
    of a name that is not empty raises [KeyError] when it has no
    ["values"] and [IndexError] when its ["values"] is an empty list,
    whatever comes after it. *)
Theorem json_malformed (fields : list (string * json)) (results : json)
    (before after : list json) (typed : list (string * list json))
    (trace : list (string * json)) :
  (Json.assoc "traces" fields = None →
   SolverCallerDReal.getCRNValuesFromJSON (JObj fields) = Raise KeyError)
  ∧ (Json.assoc "traces" fields = Some (JArr []) →
     SolverCallerDReal.getCRNValuesFromJSON (JObj fields) = Raise IndexError)
  ∧ ((Json.getitem results "traces" ≫= fun x => Json.getindex x 0)
     = Ok (JArr (before ++ JObj trace :: after)) →
     traces_read before typed →
     (Json.assoc "key" trace = None →
      SolverCallerDReal.getCRNValuesFromJSON results = Raise KeyError)
     ∧ (∀ key, Json.assoc "key" trace = Some (JStr key) →
               Py.join "_" (Py.drop_last2 (Py.split "_" key)) ≠ "" →
               (Json.assoc "values" trace = None →
                SolverCallerDReal.getCRNValuesFromJSON results = Raise KeyError)
               ∧ (Json.assoc "values" trace = Some (JArr []) →
                  SolverCallerDReal.getCRNValuesFromJSON results = Raise IndexError))).
Proof.
  split; [|split].
  - intros Hf. unfold SolverCallerDReal.getCRNValuesFromJSON. simpl. by rewrite Hf.
  - intros Hf. unfold SolverCallerDReal.getCRNValuesFromJSON. simpl. by rewrite Hf.
  - intros Hr Hwf.
    assert (∀ e,
      (∀ st, SolverCallerDReal.getCRNValuesFromJSON_body st (JObj trace) = Raise e) →
      SolverCallerDReal.getCRNValuesFromJSON results = Raise e) as Hraise.
    { intros e He. unfold SolverCallerDReal.getCRNValuesFromJSON.
      destruct (Json.getitem results "traces") as [x|e']; simpl in *; [|done].
      rewrite Hr. simpl. rewrite for_each_app.
      rewrite (json_for_each_spec before typed Hwf). simpl. by rewrite He. }
    split.
    + intros Hk. apply Hraise. intros st.
      unfold SolverCallerDReal.getCRNValuesFromJSON_body. simpl. by rewrite Hk.
    + intros key Hk Hname. split; intros Hv; apply Hraise; intros st;
        unfold SolverCallerDReal.getCRNValuesFromJSON_body; simpl;
        rewrite Hk; simpl; rewrite (bool_decide_eq_false_2 _ Hname), Hv; done.
Qed.
End json_traces.

(** The witness of X24: a constant trace, then a trace of the same name that
    varies. *)
Lemma json_last_trace_wins_witness :
  ∃ cv av,
    SolverCallerDReal.getCRNValuesFromJSON
      (json_document
         [json_trace "X_0_0" [JArr [JNum 1; JNum 1]];
          json_trace "X_1_0" [JArr [JNum 2; JNum 2]; JArr [JNum 3; JNum 3]]])
    = Ok (cv, av)
    ∧ ∀ n, n ≠ "" →
           av !! n
           = last (firsts_named n
                     [("X_0_0", [JArr [JNum 1; JNum 1]]);
                      ("X_1_0", [JArr [JNum 2; JNum 2]; JArr [JNum 3; JNum 3]])])
           ∧ cv !! n
             = last (constant_firsts_named n
                       [("X_0_0", [JArr [JNum 1; JNum 1]]);
                        ("X_1_0", [JArr [JNum 2; JNum 2]; JArr [JNum 3; JNum 3]])]).
Proof.
  apply (json_last_trace_wins
           (json_document
              [json_trace "X_0_0" [JArr [JNum 1; JNum 1]];
               json_trace "X_1_0" [JArr [JNum 2; JNum 2]; JArr [JNum 3; JNum 3]]])
           [json_trace "X_0_0" [JArr [JNum 1; JNum 1]];
            json_trace "X_1_0" [JArr [JNum 2; JNum 2]; JArr [JNum 3; JNum 3]]]
           [("X_0_0", [JArr [JNum 1; JNum 1]]);
            ("X_1_0", [JArr [JNum 2; JNum 2]; JArr [JNum 3; JNum 3]])]).
  - reflexivity.
  - repeat constructor; simpl; try done;
      eexists; (split; [reflexivity|]); repeat constructor.
Defined.

(** The witness of X25: a trace [time_0] that has no values at all. *)
Lemma json_unnamed_trace_skipped_witness :
  SolverCallerDReal.getCRNValuesFromJSON
    (json_document [json_trace "X_0_1" [JArr [JNum 0; JNum 0]];
                    JObj [("key", JStr "time_0")]])
  = SolverCallerDReal.getCRNValuesFromJSON
      (json_document [json_trace "X_0_1" [JArr [JNum 0; JNum 0]]]).
Proof.
  apply (json_unnamed_trace_skipped
           (json_document [json_trace "X_0_1" [JArr [JNum 0; JNum 0]];
                           JObj [("key", JStr "time_0")]])
           (json_document [json_trace "X_0_1" [JArr [JNum 0; JNum 0]]])
           [json_trace "X_0_1" [JArr [JNum 0; JNum 0]]] []
           (JObj [("key", JStr "time_0")]) "time_0"); reflexivity.
Defined.

(** ** The derivative evaluator and the assembly: errors, ordinary names *)

Section gradient_more.
Import Sympy.
Implicit Types (X : list float) (t : float) (species : list string)
  (vals : gmap key float) (flow : list (string * expr)).

(** The loop that binds the species stops at the first species with no
    entry in the state vector. *)
Lemma bind_species_short X species :
  ∀ (k : nat) vals, (length X < k + length species)%nat → (k ≤ length X)%nat →
    for_each
      (fun (vals : gmap key float) (it : nat * string) =>
         let '(i, name) := it in
         match X !! i with
         | Some x => Ok (<[KSym name := x]> vals)
         | None => Raise IndexError
         end)
      vals (zip (seq k (length species)) species)
    = Raise IndexError.
Proof.
  induction species as [|n species IH]; intros k vals Hlt Hle; simpl in *; [lia|].
  destruct (X !! k) as [x|] eqn:Hx; simpl; [|done].
  apply IH; [lia|]. apply lookup_lt_Some in Hx. lia.
Qed.

(** X27: with fewer entries in the state vector than species in the list,
    [gradient_function] raises [IndexError], whatever the flow. *)
Theorem gradient_function_short_state X t flow species :
  (length X < length species)%nat →
  SolverCallerBase.gradient_function X t flow species = Raise IndexError.
Proof.
  intros Hlt. unfold SolverCallerBase.gradient_function, enumerate.
  rewrite bind_species_short; [done|simpl; lia|lia].
Qed.
End gradient_more.

(** The witness of X27: two species and a state vector of one entry. *)
Lemma gradient_function_short_state_witness :
  SolverCallerBase.gradient_function [1%float] 2
    [("X", Sympy.Symbol "X")] ["X"; "Y"]
  = Raise IndexError.
Proof.
  apply (gradient_function_short_state [1%float] 2 [("X", Sympy.Symbol "X")] ["X"; "Y"]).
  simpl. lia.
Defined.

Section assembly_more.
Context `{Python} `{Sympy.Library}.
Import Sympy.
Implicit Types (flow : list (string * expr)) (vals : list (string * entry))
  (means : list (string * float)) (ds : list string).

Lemma vals_loop_time (names : list string) vals :
  ∀ st,
    for_each (SolverCallerBase.get_full_solution_body names) st vals
    = for_each (SolverCallerBase.get_full_solution_body names) st
        (filter (fun it : string * entry => it.1 ≠ "time") vals).
Proof.
  induction vals as [|[val v] vals IH]; intros [ic flow]; [done|].
  rewrite filter_cons. simpl. destruct (decide (val ≠ "time")) as [Hval|Hval].
  - simpl. rewrite bool_decide_eq_false_2 by done.
    case_bool_decide.
    + destruct (SolverCallerBase.mean_val v); simpl; [apply IH|done].
    + destruct (for_each _ [] flow); simpl; [apply IH|done].
  - apply dec_stable in Hval. subst val.
    rewrite bool_decide_eq_true_2 by done. simpl. apply IH.
Qed.

(** The deletions raise [KeyError] at a name that is no key of the flow any
    more. *)
Lemma del_loop_fails ds :
  ∀ flow, Forall ordinary ds →
    ¬ (NoDup ds ∧ Forall (fun d => d ∈ flow.*1) ds) →
    for_each (fun d x => SolverCallerBase.del_sympify x d) flow ds = Raise KeyError.
Proof.
  induction ds as [|d ds IH]; intros flow Hord Hnot; simpl.
  { destruct Hnot. split; constructor. }
  apply Forall_cons in Hord as [Hdord Hord].
  unfold SolverCallerBase.del_sympify at 2. rewrite Hdord.
  unfold SolverCallerBase.del.
  case_bool_decide as Hd; simpl; [|done].
  apply IH; [done|]. intros [Hnd Hin]. apply Hnot.
  assert (d ∉ ds) as Hds.
  { intros Hds. rewrite Forall_forall in Hin. specialize (Hin d Hds).
    apply list_elem_of_fmap in Hin as ([x e] & -> & Hxe).
    apply list_elem_of_filter in Hxe as [Hne _]. by apply Hne. }
  split; [by constructor|]. constructor; [done|].
  eapply Forall_impl; [exact Hin|]. intros y Hy. simpl in Hy.
  apply list_elem_of_fmap in Hy as ([x e] & -> & Hxe).
  apply list_elem_of_filter in Hxe as [_ Hxe].
  apply list_elem_of_fmap. by exists (x, e).
Qed.

(** X29: [get_full_solution] does not read the entry ["time"] of the
    extracted values: with and without it the result is the same, so the
    list of transition times, which has no two bounds to average, raises
    nothing. *)
Theorem get_full_solution_skips_time (crn : CRNSketch) flow vals
    (scale_factor : float) :
  SolverCallerBase.get_full_solution crn flow vals scale_factor
  = SolverCallerBase.get_full_solution crn flow
      (filter (fun it : string * entry => it.1 ≠ "time") vals) scale_factor.
Proof.
  unfold SolverCallerBase.get_full_solution. by rewrite vals_loop_time.
Qed.

(** X30: on extracted values whose bounds [float] reads, with parameter
    and derivative names that [sympify] reads as their symbols,
    [get_full_solution] raises [KeyError] exactly when the derivative names
    of the sketch are not distinct keys of the flow: a name that is no key,
    or a name listed twice, whose second deletion finds the key gone. *)
Theorem get_full_solution_key_error (crn : CRNSketch) flow vals means
    (scale_factor : float) :
  midpoints vals means →
  Forall ordinary (parameters flow means).*1 → Forall ordinary (derivatives crn) →
  SolverCallerBase.get_full_solution crn flow vals scale_factor = Raise KeyError
  ↔ ¬ (NoDup (derivatives crn) ∧ Forall (fun d => d ∈ flow.*1) (derivatives crn)).
Proof.
  intros Hmeans Hparams Hds. unfold SolverCallerBase.get_full_solution.
  rewrite (vals_loop (flow.*1) vals means ∅ flow Hmeans Hparams). simpl.
  rewrite scale_factor_loop. simpl.
  rewrite <- list_fmap_compose.
  split.
  - intros Hraise [Hnd Hin]. rewrite del_loop in Hraise; [done|done|done|].
    eapply Forall_impl; [exact Hin|]. intros d Hd. simpl in *.
    rewrite <- list_fmap_compose. exact Hd.
  - intros Hnot. rewrite del_loop_fails; [done|done|].
    intros [Hnd Hin]. apply Hnot. split; [done|].
    eapply Forall_impl; [exact Hin|]. intros d Hd. simpl in *.
    rewrite <- list_fmap_compose in Hd. exact Hd.
Qed.

(** X31: on extracted values whose bounds [float] reads, with parameter
    and derivative names that [sympify] reads as their symbols and
    derivative names that are distinct keys of the flow, [get_full_solution]
    returns; the initial conditions are the midpoints [(low + high) / 2] of
    the extracted variables that are species of the flow, ["time"] left out;
    the flow returned has, in every expression, the midpoint substituted for
    the symbol of each other extracted variable, in the order of the values,
    then the scale factor for [SF], and has no derivative entry. *)
Theorem get_full_solution_ordinary_names (crn : CRNSketch) flow vals means
    (scale_factor : float) :
  NoDup (vals.*1) → midpoints vals means →
  Forall ordinary (parameters flow means).*1 → Forall ordinary (derivatives crn) →
  NoDup (derivatives crn) → Forall (fun d => d ∈ flow.*1) (derivatives crn) →
  ∃ initial_conditions parametrised_flow flow',
    SolverCallerBase.get_full_solution crn flow vals scale_factor
    = Ok (initial_conditions, parametrised_flow, flow')
    ∧ (∀ (x : string) (m : float),
         initial_conditions !! x = Some m ↔ x ∈ flow.*1 ∧ (x, m) ∈ means)
    ∧ parametrised_flow
      = filter (fun xe : string * expr => xe.1 ∉ derivatives crn)
          ((fun xe : string * expr =>
              (xe.1, subs (substitute_all (parameters flow means) xe.2)
                       "SF" scale_factor)) <$> flow).
Proof.
  intros Hvals Hmeans Hparams Hds Hnd Hin.
  destruct (get_full_solution_spec crn flow vals means scale_factor
              Hvals Hmeans Hparams Hds Hnd Hin) as (ic & Hrun & Hic).
  eexists ic, _, _. split; [exact Hrun|]. split; [exact Hic|done].
Qed.

(** X32: under the same conditions the dictionary [flow] of the caller is
    changed by the call: each of its entries, the derivative entries too,
    holds its expression with the midpoints substituted for the symbols of
    the parameters and the scale factor for [SF]; no expression of it
    mentions [SF] or a parameter any more, and an expression that mentioned
    none is the one it was. The flow returned is that dictionary without the
    derivative entries. So a flow that mentioned [SF] or a parameter is not
    the flow the caller finds after the call. *)
Theorem get_full_solution_caller_flow (crn : CRNSketch) flow vals means
    (scale_factor : float) :
  NoDup (vals.*1) → midpoints vals means →
  Forall ordinary (parameters flow means).*1 → Forall ordinary (derivatives crn) →
  NoDup (derivatives crn) → Forall (fun d => d ∈ flow.*1) (derivatives crn) →
  ∃ initial_conditions parametrised_flow flow',
    SolverCallerBase.get_full_solution crn flow vals scale_factor
    = Ok (initial_conditions, parametrised_flow, flow')
    ∧ flow'
      = ((fun xe : string * expr =>
            (xe.1, subs (substitute_all (parameters flow means) xe.2)
                     "SF" scale_factor)) <$> flow)
    ∧ parametrised_flow
      = filter (fun xe : string * expr => xe.1 ∉ derivatives crn) flow'
    ∧ (∀ (x : string) e' (p : string),
         (x, e') ∈ flow' → p = "SF" ∨ p ∈ (parameters flow means).*1 →
         p ∉ free_symbols e')
    ∧ (∀ (x : string) e,
         (x, e) ∈ flow →
         (∀ p, p = "SF" ∨ p ∈ (parameters flow means).*1 → p ∉ free_symbols e) →
         (x, e) ∈ flow')
    ∧ (∀ (x : string) e (p : string),
         (x, e) ∈ flow → p ∈ free_symbols e →
         p = "SF" ∨ p ∈ (parameters flow means).*1 →
         flow' ≠ flow).
Proof.
  intros Hvals Hmeans Hparams Hds Hnd Hin.
  destruct (get_full_solution_spec crn flow vals means scale_factor
              Hvals Hmeans Hparams Hds Hnd Hin) as (ic & Hrun & Hic).
  assert (∀ (x : string) e' (p : string),
            (x, e') ∈ numeric_flow flow means scale_factor →
            p = "SF" ∨ p ∈ (parameters flow means).*1 → p ∉ free_symbols e') as Hfree.
  { intros x e' p Hxe Hp. unfold numeric_flow in Hxe.
    apply list_elem_of_fmap in Hxe as ([y e] & Heq & _). injection Heq as -> ->.
    simpl.
    pose proof (free_symbols_subs (substitute_all (parameters flow means) e)
                  "SF" scale_factor) as Hsf.
    pose proof (free_symbols_substitute_all (parameters flow means) e) as Hall.
    destruct Hp as [->|Hp]; [set_solver|].
    assert (p ∈ (list_to_set (parameters flow means).*1 : gset string)) as Hp'
      by by apply elem_of_list_to_set.
    set_solver. }
  eexists ic, _, _. split; [exact Hrun|]. repeat split.
  - exact Hfree.
  - intros x e Hxe Hfresh. unfold numeric_flow.
    apply list_elem_of_fmap. exists (x, e). split; [|done]. simpl. f_equal.
    rewrite substitute_all_fresh by (intros p Hp; apply Hfresh; by right).
    rewrite subs_fresh; [done|]. apply Hfresh. by left.
  - intros x e p Hxe Hp Hparam Heq. rewrite Heq in Hfree.
    by apply (Hfree x e p Hxe Hparam).
Qed.
End assembly_more.

(** The witness of X30: a derivative named twice. *)
Lemma get_full_solution_key_error_witness :
  SolverCallerBase.get_full_solution (H := example_python) (H0 := example_sympy)
    {| derivatives := ["dX_dt"; "dX_dt"] |}
    example_flow_with_derivative example_vals 1
  = Raise KeyError
  ↔ ¬ (NoDup (derivatives {| derivatives := ["dX_dt"; "dX_dt"] |})
       ∧ Forall (fun d => d ∈ example_flow_with_derivative.*1)
           (derivatives {| derivatives := ["dX_dt"; "dX_dt"] |})).
Proof.
  apply (get_full_solution_key_error (H := example_python) (H0 := example_sympy)
           {| derivatives := ["dX_dt"; "dX_dt"] |}
           example_flow_with_derivative example_vals example_means 1).
  - repeat constructor; simpl; eexists _, _, _, _;
      (split; [reflexivity|split; [reflexivity|split; reflexivity]]).
  - repeat constructor.
  - repeat constructor.
Defined.

(** The witness of X31: the scenario with a derivative entry. *)
Lemma get_full_solution_ordinary_names_witness :
  ∃ initial_conditions parametrised_flow flow',
    SolverCallerBase.get_full_solution (H := example_python) (H0 := example_sympy)
      example_crn example_flow_with_derivative example_vals 1
    = Ok (initial_conditions, parametrised_flow, flow')
    ∧ (∀ (x : string) (m : float),
         initial_conditions !! x = Some m
         ↔ x ∈ example_flow_with_derivative.*1 ∧ (x, m) ∈ example_means)
    ∧ parametrised_flow
      = filter (fun xe : string * Sympy.expr => xe.1 ∉ derivatives example_crn)
          ((fun xe : string * Sympy.expr =>
              (xe.1, Sympy.subs (H := example_sympy)
                       (substitute_all (H := example_sympy)
                          (parameters example_flow_with_derivative example_means) xe.2)
                       "SF" 1)) <$> example_flow_with_derivative).
Proof.
  apply (get_full_solution_ordinary_names (H := example_python) (H0 := example_sympy)
           example_crn example_flow_with_derivative example_vals example_means 1).
  - apply (bool_decide_unpack _). vm_compute. exact I.
  - repeat constructor; simpl; eexists _, _, _, _;
      (split; [reflexivity|split; [reflexivity|split; reflexivity]]).
  - repeat constructor.
  - repeat constructor.
  - apply (bool_decide_unpack _). vm_compute. exact I.
  - repeat constructor.
Defined.

(** The witness of X32: the same call; the flow of the caller mentioned
    [k_1] and [SF]. *)
Lemma get_full_solution_caller_flow_witness :
  ∃ initial_conditions parametrised_flow flow',
    SolverCallerBase.get_full_solution (H := example_python) (H0 := example_sympy)
      example_crn example_flow_with_derivative example_vals 1
    = Ok (initial_conditions, parametrised_flow, flow')
    ∧ flow'
      = ((fun xe : string * Sympy.expr =>
            (xe.1, Sympy.subs (H := example_sympy)
                     (substitute_all (H := example_sympy)
                        (parameters example_flow_with_derivative example_means) xe.2)
                     "SF" 1)) <$> example_flow_with_derivative)
    ∧ parametrised_flow
      = filter (fun xe : string * Sympy.expr => xe.1 ∉ derivatives example_crn) flow'
    ∧ (∀ (x : string) e' (p : string),
         (x, e') ∈ flow' →
         p = "SF" ∨ p ∈ (parameters example_flow_with_derivative example_means).*1 →
         p ∉ Sympy.free_symbols e')
    ∧ (∀ (x : string) e,
         (x, e) ∈ example_flow_with_derivative →
         (∀ p, p = "SF"
               ∨ p ∈ (parameters example_flow_with_derivative example_means).*1 →
               p ∉ Sympy.free_symbols e) →
         (x, e) ∈ flow')
    ∧ (∀ (x : string) e (p : string),
         (x, e) ∈ example_flow_with_derivative → p ∈ Sympy.free_symbols e →
         p = "SF" ∨ p ∈ (parameters example_flow_with_derivative example_means).*1 →
         flow' ≠ example_flow_with_derivative).
Proof.
  apply (get_full_solution_caller_flow (H := example_python) (H0 := example_sympy)
           example_crn example_flow_with_derivative example_vals example_means 1).
  - apply (bool_decide_unpack _). vm_compute. exact I.
  - repeat constructor; simpl; eexists _, _, _, _;
      (split; [reflexivity|split; [reflexivity|split; reflexivity]]).
  - repeat constructor.
  - repeat constructor.
  - apply (bool_decide_unpack _). vm_compute. exact I.
  - repeat constructor.
Defined.
